(** * sas-logger: wide events, request-scoped enrichment, tail sampling, batching

    A shallow embedding of the core of the logger:
      - [src/core/types.ts]     the wide-event record,
      - [src/core/WideEvent.ts] the builder and the request-scoped context
                                helpers ([enrichEvent], [setEventError]),
      - [src/core/sampling.ts]  the tail-sampling rules,
      - [src/adapters/axiom.ts] the batching transport.

    Modelling conventions.
      - JavaScript objects that are spread ([{...a, ...b}]) are finite maps
        from property names to values ([gmap string V]); an optional
        property is an [option].
      - Event objects live in a heap and are named by locations: the
        builder, the framework adapters, the async-local store and the
        transport's queue all hold the same reference.
      - [number]s that the code only compares with integer literals
        (status codes, millisecond durations, epoch instants) are [Z]; the
        sample rate and the result of [Math.random()] are the rationals the
        doubles denote ([Q]).
      - [crypto.randomUUID()], [Date.now()] and [process.env] are read from
        the world the code runs in.
      - A call that can throw returns a sum: [inl] carries what is thrown,
        [inr] what is returned. *)

From Stdlib Require Import ZArith QArith Ascii String.
From stdpp Require Import gmap strings list fin_maps.

Local Open Scope Z_scope.

(** ** JavaScript values and idioms *)

#[local] Unset Elimination Schemes.
Inductive JsValue :=
| JUndefined
| JNull
| JBool (b : bool)
| JNum (n : Z)
| JBigInt (n : Z)
| JStr (s : string)
| JArr (items : list JsValue)
| JObj (props : list (string * JsValue))
| JCircular.
      (* an object or array that is reachable from itself *)
#[local] Set Elimination Schemes.

(** An object used with spread syntax: own enumerable properties by name. *)
Abbreviation JsObject := (gmap string JsValue).

(** Truthiness of a value, as tested by [if (v)], [v && w] and [v || w]. *)
Definition truthy (v : JsValue) : bool :=
  match v with
  | JUndefined | JNull => false
  | JBool b => b
  | JNum n | JBigInt n => negb (n =? 0)
  | JStr s => negb (String.eqb s "")
  | JArr _ | JObj _ | JCircular => true
  end.

(** Whether [JSON.stringify(v)] returns: it throws a [TypeError] when it
    meets a BigInt or comes back to an object it is already inside. *)
Fixpoint stringifies (v : JsValue) : bool :=
  match v with
  | JBigInt _ | JCircular => false
  | JArr items => forallb stringifies items
  | JObj props =>
      forallb (fun kv => match kv with (_, x) => stringifies x end) props
  | _ => true
  end.

(** The same for the properties of an optional object. *)
Definition stringifies_object (o : option JsObject) : bool :=
  match o with
  | Some m => bool_decide (map_Forall (fun _ v => stringifies v = true) m)
  | None => true
  end.

(** [if (o)] for an optional object: any object is truthy. *)
Definition present {A} (o : option A) : bool :=
  match o with Some _ => true | None => false end.

(** [s || rest] for an optional string: the empty string is falsy too. *)
Definition or_else (o : option string) (rest : option string) : option string :=
  match o with
  | Some s => if String.eqb s "" then rest else Some s
  | None => rest
  end.

(** [...o] inside an object literal: an absent object contributes nothing. *)
Definition spread {V} (o : option (gmap string V)) : gmap string V :=
  default ∅ o.

(** [{ ...a, ...b }]: the properties of [b] are written after those of [a]. *)
Definition spread2 {V} (a b : option (gmap string V)) : gmap string V :=
  spread b ∪ spread a.

(** [Object.fromEntries(entries)]: later entries overwrite earlier ones. *)
Definition fromEntries {V} (entries : list (string * V)) : gmap string V :=
  foldl (fun m kv => <[kv.1 := kv.2]> m) ∅ entries.

(** [s.replace(/-/g, "")] *)
Fixpoint remove_dashes (s : string) : string :=
  match s with
  | EmptyString => EmptyString
  | String c r =>
      if Ascii.eqb c "-"%char then remove_dashes r else String c (remove_dashes r)
  end.

(** [s.slice(0, n)] *)
Definition slice0 (n : nat) (s : string) : string := String.substring 0 n s.

(** ** [src/core/types.ts] *)

Inductive Outcome := Success | Warning | Error.

Global Instance Outcome_eq_dec : EqDecision Outcome.
Proof. solve_decision. Defined.

Record Request := {
  method : string;
  path : string;
  query : option (gmap string string);
  duration_ms : Z;
  status_code : Z;
  ip : option string;
  user_agent : option string;
}.

Record Service := {
  name : string;
  version : string;
  environment : string;
  region : option string;
  deployment_id : option string;
}.

Record ErrorInfo := {
  type : string;
  message : string;
  code : option string;
  stack : option string;
  retriable : bool;
}.

Record WideEvent := {
  event_id : string;
  trace_id : string;
  timestamp : Z;  (* the creation instant that [toISOString] renders *)
  request : Request;
  service : Service;
  user : option JsObject;
  business : option JsObject;
  performance : option JsObject;
  error : option ErrorInfo;
  feature_flags : option (gmap string bool);
  outcome : Outcome;
}.

(** A thrown [Error] object, as far as the logger reads it. *)
Module JsError.
Record t := {
  name : string;
  message : string;
  stack : option string;
}.
End JsError.

(** What application code throws: an [Error], or another value, from which
    the wrappers make [new Error(String(value))]. *)
Inductive Thrown :=
| ThrownError (err : JsError.t)
| ThrownValue (text : string) (stack : option string).

(** [JSON.stringify(event)] returns when every value in the event can be
    encoded; the open-ended objects are the only place for one that cannot. *)
Definition serializable (e : WideEvent) : bool :=
  stringifies_object (user e) && stringifies_object (business e)
  && stringifies_object (performance e).

(** The [TypeError] [JSON.stringify] throws otherwise. *)
Inductive TypeError :=
| CannotSerialize.

(** [shouldSample] is application code: given the event it returns a
    boolean or throws. *)
Module WideEventConfig.
Record t := {
  serviceName : string;
  serviceVersion : option string;
  environment : option string;
  dataset : option string;
  token : option string;
  debug : option bool;
  shouldSample : option (WideEvent -> Thrown + bool);
}.
End WideEventConfig.

Module EnrichmentData.
Record t := {
  user : option JsObject;
  business : option JsObject;
  performance : option JsObject;
  feature_flags : option (gmap string bool);
}.
End EnrichmentData.

(** Field assignments [event.f = v]. *)
Definition set_request (r : Request) (e : WideEvent) : WideEvent :=
  {| event_id := event_id e; trace_id := trace_id e; timestamp := timestamp e;
     request := r; service := service e; user := user e;
     business := business e; performance := performance e; error := error e;
     feature_flags := feature_flags e; outcome := outcome e |}.

Definition set_trace_id (t : string) (e : WideEvent) : WideEvent :=
  {| event_id := event_id e; trace_id := t; timestamp := timestamp e;
     request := request e; service := service e; user := user e;
     business := business e; performance := performance e; error := error e;
     feature_flags := feature_flags e; outcome := outcome e |}.

Definition set_user (u : option JsObject) (e : WideEvent) : WideEvent :=
  {| event_id := event_id e; trace_id := trace_id e; timestamp := timestamp e;
     request := request e; service := service e; user := u;
     business := business e; performance := performance e; error := error e;
     feature_flags := feature_flags e; outcome := outcome e |}.

Definition set_business (b : option JsObject) (e : WideEvent) : WideEvent :=
  {| event_id := event_id e; trace_id := trace_id e; timestamp := timestamp e;
     request := request e; service := service e; user := user e;
     business := b; performance := performance e; error := error e;
     feature_flags := feature_flags e; outcome := outcome e |}.

Definition set_performance (p : option JsObject) (e : WideEvent) : WideEvent :=
  {| event_id := event_id e; trace_id := trace_id e; timestamp := timestamp e;
     request := request e; service := service e; user := user e;
     business := business e; performance := p; error := error e;
     feature_flags := feature_flags e; outcome := outcome e |}.

Definition set_error (x : option ErrorInfo) (e : WideEvent) : WideEvent :=
  {| event_id := event_id e; trace_id := trace_id e; timestamp := timestamp e;
     request := request e; service := service e; user := user e;
     business := business e; performance := performance e; error := x;
     feature_flags := feature_flags e; outcome := outcome e |}.

Definition set_feature_flags (f : option (gmap string bool)) (e : WideEvent) : WideEvent :=
  {| event_id := event_id e; trace_id := trace_id e; timestamp := timestamp e;
     request := request e; service := service e; user := user e;
     business := business e; performance := performance e; error := error e;
     feature_flags := f; outcome := outcome e |}.

Definition set_outcome (o : Outcome) (e : WideEvent) : WideEvent :=
  {| event_id := event_id e; trace_id := trace_id e; timestamp := timestamp e;
     request := request e; service := service e; user := user e;
     business := business e; performance := performance e; error := error e;
     feature_flags := feature_flags e; outcome := o |}.

Definition set_status_code (c : Z) (r : Request) : Request :=
  {| method := method r; path := path r; query := query r;
     duration_ms := duration_ms r; status_code := c; ip := ip r;
     user_agent := user_agent r |}.

Definition set_duration_ms (d : Z) (r : Request) : Request :=
  {| method := method r; path := path r; query := query r;
     duration_ms := d; status_code := status_code r; ip := ip r;
     user_agent := user_agent r |}.

(** ** The world the library runs in *)

(** Event objects are heap-allocated; a [loc] is a reference to one. *)
Abbreviation loc := nat.

(** The backend's answer to one ingest call, as [flush] observes it. *)
Inductive FetchResult :=
| NetworkError
      (* [fetch] rejects *)
| HttpResponse (ok : bool) (status : Z) (text : option string)
               (limit_remaining : option string).
      (* [text = None]: reading the response body rejects *)

(** What the library writes to the console. *)
Inductive LogLine :=
| WarnEnrichOutsideContext
| WarnTokenNotSet
| LogEvent (e : WideEvent)
| LogLocal (o : Outcome) (m p : string) (d : Z)
| ErrorFailedToSend (status : Z) (text : string)
| WarnLimitRemaining (remaining : string)
| LogSent (n : nat)
| ErrorSending.

(** One [fetch] call to the ingest endpoint. *)
Record IngestRequest := {
  url : string;
  authorization : string;
  body : list WideEvent;  (* the array that [JSON.stringify] encodes *)
}.

Record World := {
  heap : gmap loc WideEvent;
  env : gmap string string;           (* [process.env] *)
  uuids : nat -> string;              (* results of [crypto.randomUUID()] *)
  uuids_drawn : nat;
  clock : nat -> Z;                   (* results of [Date.now()] *)
  clock_read : nat;
  console : list LogLine;
  timers : gmap nat Z;                (* pending timeouts: handle, delay *)
  timers_made : nat;
  requests : list IngestRequest;      (* ingest calls issued so far *)
}.

Definition with_heap (h : gmap loc WideEvent) (w : World) : World :=
  {| heap := h; env := env w; uuids := uuids w; uuids_drawn := uuids_drawn w;
     clock := clock w; clock_read := clock_read w; console := console w;
     timers := timers w; timers_made := timers_made w;
     requests := requests w |}.

Definition with_uuids_drawn (n : nat) (w : World) : World :=
  {| heap := heap w; env := env w; uuids := uuids w; uuids_drawn := n;
     clock := clock w; clock_read := clock_read w; console := console w;
     timers := timers w; timers_made := timers_made w;
     requests := requests w |}.

Definition with_clock_read (n : nat) (w : World) : World :=
  {| heap := heap w; env := env w; uuids := uuids w;
     uuids_drawn := uuids_drawn w; clock := clock w; clock_read := n;
     console := console w; timers := timers w; timers_made := timers_made w;
     requests := requests w |}.

Definition with_console (c : list LogLine) (w : World) : World :=
  {| heap := heap w; env := env w; uuids := uuids w;
     uuids_drawn := uuids_drawn w; clock := clock w;
     clock_read := clock_read w; console := c; timers := timers w;
     timers_made := timers_made w; requests := requests w |}.

Definition with_timers (t : gmap nat Z) (made : nat) (w : World) : World :=
  {| heap := heap w; env := env w; uuids := uuids w;
     uuids_drawn := uuids_drawn w; clock := clock w;
     clock_read := clock_read w; console := console w; timers := t;
     timers_made := made; requests := requests w |}.

Definition with_requests (r : list IngestRequest) (w : World) : World :=
  {| heap := heap w; env := env w; uuids := uuids w;
     uuids_drawn := uuids_drawn w; clock := clock w;
     clock_read := clock_read w; console := console w; timers := timers w;
     timers_made := timers_made w; requests := r |}.

(** A computation that reads and updates the world. *)
Definition M (A : Type) : Type := World -> A * World.

Definition ret {A} (a : A) : M A := fun w => (a, w).

Definition bind {A B} (m : M A) (k : A -> M B) : M B :=
  fun w => let (a, w') := m w in k a w'.

Declare Scope world_scope.
Delimit Scope world_scope with world.
Notation "x <- m ;; k" := (bind m (fun x => k))
  (at level 90, m at level 80, right associativity) : world_scope.
Notation "m ;;; k" := (bind m (fun _ => k))
  (at level 90, right associativity) : world_scope.
Local Open Scope world_scope.

Definition exec {A} (m : M A) (w : World) : World := (m w).2.

Definition randomUUID : M string :=
  fun w => (uuids w (uuids_drawn w), with_uuids_drawn (S (uuids_drawn w)) w).

Definition dateNow : M Z :=
  fun w => (clock w (clock_read w), with_clock_read (S (clock_read w)) w).

Definition getenv (k : string) : M (option string) :=
  fun w => (env w !! k, w).

Definition console_write (l : LogLine) : M unit :=
  fun w => (tt, with_console (console w ++ [l]) w).

(** [new] of an event object. *)
Definition alloc (e : WideEvent) : M loc :=
  fun w => let l := fresh (dom (heap w)) in
           (l, with_heap (<[l := e]> (heap w)) w).

(** In-place update of the object behind a reference. *)
Definition update (l : loc) (f : WideEvent -> WideEvent) : M unit :=
  fun w => (tt, with_heap (alter f l (heap w)) w).

(** Reading the object behind a reference. *)
Definition deref (l : loc) : M (option WideEvent) :=
  fun w => (heap w !! l, w).

(** The objects behind the references of an array, in order. *)
Definition objects (h : gmap loc WideEvent) (refs : list loc) : list WideEvent :=
  omap (fun l => h !! l) refs.

(** Reading all of them, as they are now. *)
Definition deref_all (refs : list loc) : M (list WideEvent) :=
  fun w => (objects (heap w) refs, w).

(** ** [src/core/context.ts]: identifiers *)

Definition generateTraceId : M string :=
  u <- randomUUID ;; ret (remove_dashes u).

Definition generateEventId : M string :=
  u <- randomUUID ;; ret (String.append "evt_" (slice0 16 (remove_dashes u))).

(** ** [src/core/WideEvent.ts]: the builder *)

(** [a || d] where [d] is a string literal. *)
Definition or_str (o : option string) (d : string) : string :=
  default d (or_else o (Some d)).

(** A Web API [Request]: the parsed URL and the header list, looked up by
    lower-case name as [Headers.get] does. *)
Module WebRequest.
Record t := {
  method : string;
  pathname : string;
  searchParams : list (string * string);
  headers : gmap string string;
}.
End WebRequest.

(** The argument of [fromRawRequest]. *)
Module RawRequest.
Record t := {
  method : string;
  path : string;
  query : option (gmap string string);
  ip : option string;
  userAgent : option string;
  traceId : option string;
}.
End RawRequest.

Record WideEventBuilder := {
  event : loc;
  config : WideEventConfig.t;
  startTime : Z;
}.

Definition createBaseEvent (cfg : WideEventConfig.t) : M WideEvent :=
  eid <- generateEventId ;;
  tid <- generateTraceId ;;
  ts <- dateNow ;;
  npm_version <- getenv "npm_package_version" ;;
  vercel_env <- getenv "VERCEL_ENV" ;;
  node_env <- getenv "NODE_ENV" ;;
  vercel_region <- getenv "VERCEL_REGION" ;;
  aws_region <- getenv "AWS_REGION" ;;
  deployment <- getenv "VERCEL_DEPLOYMENT_ID" ;;
  ret {| event_id := eid;
         trace_id := tid;
         timestamp := ts;
         request := {| method := "UNKNOWN"; path := "/"; query := None;
                       duration_ms := 0; status_code := 200;
                       ip := None; user_agent := None |};
         service :=
           {| name := WideEventConfig.serviceName cfg;
              version :=
                or_str (or_else (WideEventConfig.serviceVersion cfg) npm_version)
                       "0.0.0";
              environment :=
                or_str (or_else (WideEventConfig.environment cfg)
                                (or_else vercel_env node_env))
                       "development";
              region := or_else vercel_region aws_region;
              deployment_id := deployment |};
         user := None; business := None; performance := None; error := None;
         feature_flags := None;
         outcome := Success |}.

(** [new WideEventBuilder(config)] *)
Definition newWideEventBuilder (cfg : WideEventConfig.t) : M WideEventBuilder :=
  start <- dateNow ;;
  e <- createBaseEvent cfg ;;
  l <- alloc e ;;
  ret {| event := l; config := cfg; startTime := start |}.

Definition fromRequest (b : WideEventBuilder) (req : WebRequest.t)
    (traceId : option string) : M unit :=
  update (event b) (fun e =>
    set_request
      {| method := WebRequest.method req;
         path := WebRequest.pathname req;
         query := Some (fromEntries (WebRequest.searchParams req));
         duration_ms := duration_ms (request e);
         status_code := status_code (request e);
         ip := ip (request e);
         user_agent := or_else (WebRequest.headers req !! "user-agent") None |}
      e) ;;;
  match or_else traceId
          (or_else (WebRequest.headers req !! "x-trace-id")
             (or_else (WebRequest.headers req !! "x-request-id") None)) with
  | Some t => update (event b) (set_trace_id t)
  | None => t <- generateTraceId ;; update (event b) (set_trace_id t)
  end.

Definition fromRawRequest (b : WideEventBuilder) (details : RawRequest.t)
    : M unit :=
  update (event b) (fun e =>
    set_request
      {| method := RawRequest.method details;
         path := RawRequest.path details;
         query := RawRequest.query details;
         duration_ms := duration_ms (request e);
         status_code := status_code (request e);
         ip := RawRequest.ip details;
         user_agent := RawRequest.userAgent details |}
      e) ;;;
  match or_else (RawRequest.traceId details) None with
  | Some t => update (event b) (set_trace_id t)
  | None => ret tt
  end.

Definition withUser (b : WideEventBuilder) (u : option JsObject) : M unit :=
  update (event b) (set_user u).

Definition withBusiness (b : WideEventBuilder) (bus : option JsObject)
    : M unit :=
  update (event b) (fun e => set_business (Some (spread2 (business e) bus)) e).

Definition withPerformance (b : WideEventBuilder) (perf : option JsObject)
    : M unit :=
  update (event b)
    (fun e => set_performance (Some (spread2 (performance e) perf)) e).

Definition withFeatureFlags (b : WideEventBuilder) (flags : gmap string bool)
    : M unit :=
  update (event b)
    (fun e => set_feature_flags (Some (spread2 (feature_flags e) (Some flags))) e).

(** The record both [withError] and [setEventError] store. *)
Definition error_info (err : JsError.t) (retriable : bool) : ErrorInfo :=
  {| type := or_str (Some (JsError.name err)) "Error";
     message := JsError.message err;
     code := None;
     stack := JsError.stack err;
     retriable := retriable |}.

(** [retriable = None] is a call that omits the argument. *)
Definition withError (b : WideEventBuilder) (err : JsError.t)
    (retriable : option bool) : M unit :=
  let retriable := default false retriable in
  update (event b) (set_outcome Error) ;;;
  update (event b) (set_error (Some (error_info err retriable))).

Definition withStatusCode (b : WideEventBuilder) (statusCode : Z) : M unit :=
  update (event b)
    (fun e => set_request (set_status_code statusCode (request e)) e) ;;;
  if 500 <=? statusCode then update (event b) (set_outcome Error)
  else if 400 <=? statusCode then update (event b) (set_outcome Warning)
  else ret tt.

Definition enrich (b : WideEventBuilder) (data : EnrichmentData.t) : M unit :=
  match EnrichmentData.user data with
  | Some u => update (event b) (fun e => set_user (Some (spread2 (user e) (Some u))) e)
  | None => ret tt
  end ;;;
  match EnrichmentData.business data with
  | Some x =>
      update (event b) (fun e => set_business (Some (spread2 (business e) (Some x))) e)
  | None => ret tt
  end ;;;
  match EnrichmentData.performance data with
  | Some x =>
      update (event b)
        (fun e => set_performance (Some (spread2 (performance e) (Some x))) e)
  | None => ret tt
  end ;;;
  match EnrichmentData.feature_flags data with
  | Some x =>
      update (event b)
        (fun e => set_feature_flags (Some (spread2 (feature_flags e) (Some x))) e)
  | None => ret tt
  end.

(** [build()] stamps the duration and hands out the event reference. *)
Definition build (b : WideEventBuilder) : M loc :=
  now <- dateNow ;;
  update (event b)
    (fun e => set_request (set_duration_ms (now - startTime b) (request e)) e) ;;;
  ret (event b).

Definition getEvent (b : WideEventBuilder) : M loc := ret (event b).

(** ** [src/core/context.ts]: the request-scoped event

    [eventStorage] is an [AsyncLocalStorage<WideEvent>].  What
    [eventStorage.getStore()] yields depends on the asynchronous context the
    caller runs in; the functions below take that value as [store]:
    [Some l] inside [eventStorage.run(l, ...)], [None] outside any scope. *)

Definition getCurrentEvent (store : option loc) : M (option loc) := ret store.

Definition enrichEvent (store : option loc) (data : EnrichmentData.t) : M unit :=
  match store with
  | None =>
      node_env <- getenv "NODE_ENV" ;;
      if decide (node_env = Some "development")
      then console_write WarnEnrichOutsideContext
      else ret tt
  | Some ev =>
      match EnrichmentData.user data with
      | Some u => update ev (fun e => set_user (Some (spread2 (user e) (Some u))) e)
      | None => ret tt
      end ;;;
      match EnrichmentData.business data with
      | Some x =>
          update ev (fun e => set_business (Some (spread2 (business e) (Some x))) e)
      | None => ret tt
      end ;;;
      match EnrichmentData.performance data with
      | Some x =>
          update ev
            (fun e => set_performance (Some (spread2 (performance e) (Some x))) e)
      | None => ret tt
      end ;;;
      match EnrichmentData.feature_flags data with
      | Some x =>
          update ev
            (fun e => set_feature_flags (Some (spread2 (feature_flags e) (Some x))) e)
      | None => ret tt
      end
  end.

Definition setEventError (store : option loc) (err : JsError.t)
    (retriable : option bool) : M unit :=
  let retriable := default false retriable in
  match store with
  | None => ret tt
  | Some ev =>
      update ev (set_outcome Error) ;;;
      update ev (set_error (Some (error_info err retriable)))
  end.

(** ** [src/core/sampling.ts] *)

Module SampleOptions.
Record t := {
  slowThresholdMs : option Z;
  alwaysKeepSubscriptions : option (list string);
  sampleRate : option Q;
}.
(** [{}], the default of the [options] parameter. *)
Definition empty : t :=
  {| slowThresholdMs := None; alwaysKeepSubscriptions := None;
     sampleRate := None |}.
End SampleOptions.

(** [x < y] on the rationals two doubles denote. *)
Definition Qltb (x y : Q) : bool := if Qlt_le_dec x y then true else false.

(** [list.includes(v)] for a list of strings. *)
Definition includes (l : list string) (v : JsValue) : bool :=
  match v with
  | JStr s => bool_decide (s ∈ l)
  | _ => false
  end.

(** [event.user?.subscription] *)
Definition user_subscription (e : WideEvent) : JsValue :=
  match user e with
  | Some u => default JUndefined (u !! "subscription")
  | None => JUndefined
  end.

(** [random] is what [Math.random()] returns if the last rule is reached. *)
Definition defaultShouldSample (e : WideEvent) (options : SampleOptions.t)
    (random : Q) : bool :=
  let slowThresholdMs := default 2000 (SampleOptions.slowThresholdMs options) in
  let alwaysKeepSubscriptions :=
    default ["enterprise"; "premium"]
            (SampleOptions.alwaysKeepSubscriptions options) in
  let sampleRate := default (1 # 10)%Q (SampleOptions.sampleRate options) in
  if decide (outcome e = Error) then true
  else if 500 <=? status_code (request e) then true
  else if present (error e) then true
  else if slowThresholdMs <? duration_ms (request e) then true
  else if truthy (user_subscription e)
          && includes alwaysKeepSubscriptions (user_subscription e) then true
  else Qltb random sampleRate.

Definition keepAll : bool := true.

Definition keepOnlyErrors (e : WideEvent) : bool :=
  bool_decide (outcome e = Error)
  || (400 <=? status_code (request e))
  || present (error e).

(** ** Call sequences on one request's event

    Everything application code and the framework glue can do to an event
    between construction and hand-over: builder methods on [b], and context
    helpers, which act on whatever event the current scope holds. *)

Inductive Op :=
| OpFromRequest (req : WebRequest.t) (traceId : option string)
| OpFromRawRequest (details : RawRequest.t)
| OpWithUser (u : option JsObject)
| OpWithBusiness (bus : option JsObject)
| OpWithPerformance (perf : option JsObject)
| OpWithFeatureFlags (flags : gmap string bool)
| OpWithError (err : JsError.t) (retriable : option bool)
| OpWithStatusCode (statusCode : Z)
| OpEnrich (data : EnrichmentData.t)
| OpBuild
| OpGetEvent
| OpGetCurrentEvent
| OpEnrichEvent (data : EnrichmentData.t)
| OpSetEventError (err : JsError.t) (retriable : option bool).

Definition run_op (b : WideEventBuilder) (store : option loc) (op : Op)
    : M unit :=
  match op with
  | OpFromRequest req t => fromRequest b req t
  | OpFromRawRequest d => fromRawRequest b d
  | OpWithUser u => withUser b u
  | OpWithBusiness x => withBusiness b x
  | OpWithPerformance x => withPerformance b x
  | OpWithFeatureFlags x => withFeatureFlags b x
  | OpWithError err r => withError b err r
  | OpWithStatusCode c => withStatusCode b c
  | OpEnrich d => enrich b d
  | OpBuild => build b ;;; ret tt
  | OpGetEvent => getEvent b ;;; ret tt
  | OpGetCurrentEvent => getCurrentEvent store ;;; ret tt
  | OpEnrichEvent d => enrichEvent store d
  | OpSetEventError err r => setEventError store err r
  end.

Definition run_ops (b : WideEventBuilder) (store : option loc)
    (ops : list Op) (w : World) : World :=
  foldl (fun w op => exec (run_op b store op) w) w ops.

(** The field of the event behind [l], if the object exists. *)
Definition field {A} (f : WideEvent -> A) (l : loc) (w : World) : option A :=
  f <$> heap w !! l.

(** ** [src/adapters/axiom.ts] *)

(** [pendingEvents] holds references: the events queued are the objects the
    callers still hold, not copies of them. *)
Record AxiomAdapter := {
  dataset : string;
  token : string;
  debug : bool;
  baseUrl : string;
  pendingEvents : list loc;
  flushTimeout : option nat;
}.

Definition set_pendingEvents (q : list loc) (a : AxiomAdapter)
    : AxiomAdapter :=
  {| dataset := dataset a; token := token a; debug := debug a;
     baseUrl := baseUrl a; pendingEvents := q;
     flushTimeout := flushTimeout a |}.

Definition set_flushTimeout (t : option nat) (a : AxiomAdapter)
    : AxiomAdapter :=
  {| dataset := dataset a; token := token a; debug := debug a;
     baseUrl := baseUrl a; pendingEvents := pendingEvents a;
     flushTimeout := t |}.

(** [setTimeout(cb, delay)]: a new pending timeout; its handle is returned. *)
Definition setTimeout (delay : Z) : M nat :=
  fun w => let id := timers_made w in
           (id, with_timers (<[id := delay]> (timers w)) (S id) w).

Definition clearTimeout (id : nat) : M unit :=
  fun w => (tt, with_timers (delete id (timers w)) (timers_made w) w).

(** The call [fetch(url, {...})]; the answer arrives later. *)
Definition fetch (r : IngestRequest) : M unit :=
  fun w => (tt, with_requests (requests w ++ [r]) w).

(** [JSON.stringify(events)] for an array of events: the text, kept as the
    states it encodes, or [None] when the call throws its [TypeError]. *)
Definition JSON_stringify (events : list WideEvent) : option (list WideEvent) :=
  if forallb serializable events then Some events else None.

(** [new AxiomAdapter(config)] *)
Definition newAxiomAdapter (cfg : WideEventConfig.t) : M AxiomAdapter :=
  env_dataset <- getenv "AXIOM_DATASET" ;;
  env_token <- getenv "AXIOM_TOKEN" ;;
  node_env <- getenv "NODE_ENV" ;;
  let tok := or_str (or_else (WideEventConfig.token cfg) env_token) "" in
  (if String.eqb tok "" && bool_decide (node_env = Some "production")
   then console_write WarnTokenNotSet else ret tt) ;;;
  ret {| dataset :=
           or_str (or_else (WideEventConfig.dataset cfg) env_dataset) "production";
         token := tok;
         debug := default false (WideEventConfig.debug cfg);
         baseUrl := "https://api.axiom.co";
         pendingEvents := [];
         flushTimeout := None |}.

Definition ingest_request (a : AxiomAdapter) (events : list WideEvent)
    : IngestRequest :=
  {| url := String.append (baseUrl a)
              (String.append "/v1/datasets/"
                 (String.append (dataset a) "/ingest"));
     authorization := String.append "Bearer " (token a);
     body := events |}.

(** [flush()] up to its first [await]: everything that runs before control
    returns to the caller.  The result carries the batch whose ingest call
    is now in flight, if one was issued.  [JSON.stringify(events)] is
    evaluated inside the [try], before [fetch] is called: when it throws,
    the [catch] logs and the batch is gone. *)
Definition flush_begin (a : AxiomAdapter)
    : M (AxiomAdapter * option (list loc)) :=
  a <- match flushTimeout a with
       | Some id => clearTimeout id ;;; ret (set_flushTimeout None a)
       | None => ret a
       end ;;
  match pendingEvents a with
  | [] => ret (a, None)
  | _ :: _ =>
      if String.eqb (token a) "" then ret (set_pendingEvents [] a, None)
      else
        let events := pendingEvents a in
        let a := set_pendingEvents [] a in
        states <- deref_all events ;;
        match JSON_stringify states with
        | Some text =>
            fetch (ingest_request a text) ;;;
            ret (a, Some events)
        | None =>
            console_write ErrorSending ;;;
            ret (a, None)
        end
  end.

(** [flush()] after [await fetch(...)] settles with [r]. *)
Definition flush_resume (a : AxiomAdapter) (events : list loc)
    (r : FetchResult) : M unit :=
  match r with
  | NetworkError => console_write ErrorSending
  | HttpResponse ok status text remaining =>
      if ok then
        if debug a then console_write (LogSent (length events)) else ret tt
      else
        match text with
        | None => console_write ErrorSending
        | Some errorText =>
            console_write (ErrorFailedToSend status errorText) ;;;
            match or_else remaining None with
            | Some r => console_write (WarnLimitRemaining r)
            | None => ret tt
            end
        end
  end.

(** [send(event)]; [event] is the reference the caller passes.  The debug
    line is written first, outside any [try]: when [JSON.stringify(event)]
    throws there, [send] throws before anything is queued.  When the batch
    is full the un-awaited [this.flush()] runs up to its first [await]
    before [send] returns. *)
Definition send (a : AxiomAdapter) (event : loc)
    : M (TypeError + AxiomAdapter * option (list loc)) :=
  e <- deref event ;;
  match e with
  | None => ret (inr (a, None))  (* a reference always names an object *)
  | Some e =>
      if debug a && negb (serializable e) then ret (inl CannotSerialize)
      else
        (if debug a then console_write (LogEvent e) else ret tt) ;;;
        if String.eqb (token a) "" then
          node_env <- getenv "NODE_ENV" ;;
          (if decide (node_env = Some "development")
           then console_write
                  (LogLocal (outcome e) (method (request e)) (path (request e))
                            (duration_ms (request e)))
           else ret tt) ;;;
          ret (inr (a, None))
        else
          let a := set_pendingEvents (pendingEvents a ++ [event]) a in
          if (10 <=? length (pendingEvents a))%nat then
            r <- flush_begin a ;; ret (inr r)
          else
            match flushTimeout a with
            | None =>
                id <- setTimeout 100 ;;
                ret (inr (set_flushTimeout (Some id) a, None))
            | Some _ => ret (inr (a, None))
            end
  end.

(** *** The adapter among interleaved callers

    One logical thread runs the synchronous sections below one at a time, in
    any order: a caller sends an event, a caller flushes, the pending timeout
    fires, an ingest call in flight settles, or application code creates an
    event or works on one it holds. *)

Record Sys := {
  adapter : AxiomAdapter;
  world : World;
  inflight : list (list loc);  (* batches awaiting the backend *)
}.

Inductive Action :=
| ASend (ev : loc)
| AFlush
| ATimeout (id : nat)
| ASettle (i : nat) (r : FetchResult)
| ANewBuilder (cfg : WideEventConfig.t)
| ACalls (b : WideEventBuilder) (store : option loc) (ops : list Op).

Definition launched (s : Sys) (r : (AxiomAdapter * option (list loc)) * World)
    : Sys :=
  {| adapter := r.1.1; world := r.2;
     inflight := inflight s ++ option_list r.1.2 |}.

(** Application code ran and left the world as [w]. *)
Definition elsewhere (s : Sys) (w : World) : Sys :=
  {| adapter := adapter s; world := w; inflight := inflight s |}.

Definition step (s : Sys) (act : Action) : Sys :=
  match act with
  | ASend ev =>
      match send (adapter s) ev (world s) with
      | (inr r, w) => launched s (r, w)
      | (inl _, w) => elsewhere s w  (* the caller gets the exception *)
      end
  | AFlush => launched s (flush_begin (adapter s) (world s))
  | ATimeout id =>
      match timers (world s) !! id with
      | Some _ =>
          (* the timeout leaves the pending set and its callback runs *)
          let w := with_timers (delete id (timers (world s)))
                               (timers_made (world s)) (world s) in
          launched s (flush_begin (adapter s) w)
      | None => s
      end
  | ASettle i r =>
      match inflight s !! i with
      | Some events =>
          {| adapter := adapter s;
             world := exec (flush_resume (adapter s) events r) (world s);
             inflight := delete i (inflight s) |}
      | None => s
      end
  | ANewBuilder cfg => elsewhere s (exec (newWideEventBuilder cfg) (world s))
  | ACalls b store ops => elsewhere s (run_ops b store ops (world s))
  end.

Definition run (acts : list Action) (s : Sys) : Sys := foldl step s acts.

(** A process that has just constructed its adapter. *)
Definition boot (cfg : WideEventConfig.t) (w : World) : Sys :=
  let (a, w') := newAxiomAdapter cfg w in
  {| adapter := a; world := w'; inflight := [] |}.

(** ** Concrete data for examples *)

Definition demo_uuid (n : nat) : string :=
  String.append "3f2b8c1e-7a4d-4e9b-9c55-0d6f1a2b3c4"
    (String (ascii_of_nat (48 + n mod 10)) EmptyString).

Definition demo_world : World :=
  {| heap := ∅; env := ∅; uuids := demo_uuid; uuids_drawn := 0;
     clock := fun n => 1700000000000 + Z.of_nat n; clock_read := 0;
     console := []; timers := ∅; timers_made := 0; requests := [] |}.

Definition demo_config : WideEventConfig.t :=
  {| WideEventConfig.serviceName := "internal-tools";
     WideEventConfig.serviceVersion := None;
     WideEventConfig.environment := None;
     WideEventConfig.dataset := None;
     WideEventConfig.token := Some "xaat-demo";
     WideEventConfig.debug := None;
     WideEventConfig.shouldSample := None |}.

Definition demo_builder : WideEventBuilder :=
  (newWideEventBuilder demo_config demo_world).1.

Definition demo_started : World :=
  (newWideEventBuilder demo_config demo_world).2.

Definition demo_error : JsError.t :=
  {| JsError.name := "Error"; JsError.message := "db timeout";
     JsError.stack := None |}.

Definition demo_request : WebRequest.t :=
  {| WebRequest.method := "GET"; WebRequest.pathname := "/api/users";
     WebRequest.searchParams := []; WebRequest.headers := ∅ |}.

Definition demo_event : WideEvent :=
  {| event_id := "evt_3f2b8c1e7a4d4e9b";
     trace_id := "3f2b8c1e7a4d4e9b9c550d6f1a2b3c41";
     timestamp := 1700000000001;
     request := {| method := "GET"; path := "/api/users"; query := None;
                   duration_ms := 500; status_code := 200; ip := None;
                   user_agent := None |};
     service := {| name := "internal-tools"; version := "0.0.0";
                   environment := "development"; region := None;
                   deployment_id := None |};
     user := None; business := None; performance := None; error := None;
     feature_flags := None; outcome := Success |}.

(** The event [new WideEventBuilder(demo_config)] creates in [demo_world]. *)
Definition demo_base_event : WideEvent :=
  set_request
    {| method := "UNKNOWN"; path := "/"; query := None; duration_ms := 0;
       status_code := 200; ip := None; user_agent := None |}
    demo_event.

Definition demo_enrichment : EnrichmentData.t :=
  {| EnrichmentData.user := Some {[ "id" := JStr "user_1" ]};
     EnrichmentData.business :=
       Some {[ "dealId" := JStr "deal_456"; "action" := JStr "quote_sent" ]};
     EnrichmentData.performance := None;
     EnrichmentData.feature_flags := Some {[ "new_quotes" := true ]} |}.

(** An event [JSON.stringify] rejects. *)
Definition demo_bigint_event : WideEvent :=
  set_business (Some {[ "amountCents" := JBigInt 129900 ]}) demo_event.

(** A process holding three events. *)
Definition demo_events : World :=
  with_heap {[ 0%nat := demo_event; 1%nat := demo_base_event;
               2%nat := demo_bigint_event ]} demo_world.


(** ** Notions used to state the properties *)

(** The outcome [withStatusCode] leaves behind, as a function of the code and
    of the outcome before the call. *)
Definition outcome_after_status (statusCode : Z) (before : Outcome) : Outcome :=
  if 500 <=? statusCode then Error
  else if 400 <=? statusCode then Warning
  else before.

(** Only [fromRequest] and [fromRawRequest] assign [trace_id]. *)
Definition assigns_trace_id (op : Op) : bool :=
  match op with
  | OpFromRequest _ _ | OpFromRawRequest _ => true
  | _ => false
  end.

(** The upstream correlation id [fromRequest] finds, if any. *)
Definition upstream_id (req : WebRequest.t) (traceId : option string)
    : option string :=
  or_else traceId
    (or_else (WebRequest.headers req !! "x-trace-id")
       (or_else (WebRequest.headers req !! "x-request-id") None)).

(** What one call writes into [business], [performance] and
    [feature_flags]; [None] when the call does not touch the field. *)
Definition business_input (op : Op) : option JsObject :=
  match op with
  | OpWithBusiness x => Some (spread x)
  | OpEnrich d | OpEnrichEvent d => EnrichmentData.business d
  | _ => None
  end.

Definition performance_input (op : Op) : option JsObject :=
  match op with
  | OpWithPerformance x => Some (spread x)
  | OpEnrich d | OpEnrichEvent d => EnrichmentData.performance d
  | _ => None
  end.

Definition feature_flags_input (op : Op) : option (gmap string bool) :=
  match op with
  | OpWithFeatureFlags x => Some x
  | OpEnrich d | OpEnrichEvent d => EnrichmentData.feature_flags d
  | _ => None
  end.

(** The key-wise last-write-wins union of an initial mapping and a sequence
    of inputs: a key has the value of the last input that mentions it, and
    the initial value when no input does. *)
Definition last_write {V} (k : string) (init : gmap string V)
    (inputs : list (gmap string V)) : option V :=
  match find (fun m => present (m !! k)) (reverse inputs) with
  | Some m => m !! k
  | None => init !! k
  end.

(** The inputs spread one after the other over the initial mapping. *)
Definition spread_all {V} (init : gmap string V)
    (inputs : list (gmap string V)) : gmap string V :=
  foldl (fun acc m => m ∪ acc) init inputs.

(** The effect of one call on the three mappings of the builder's event,
    when that event is also the one in scope. *)
Definition after_input {V} (input : option (gmap string V))
    (before : gmap string V) : gmap string V :=
  match input with
  | Some m => m ∪ before
  | None => before
  end.

(** Key-wise shallow merge: a key of the input takes the input's value, any
    other key keeps the value it had. *)
Definition shallow_merge_lookup {V} (input : option (gmap string V))
    (before : option (gmap string V)) (k : string) : option V :=
  match input with
  | Some m =>
      match m !! k with
      | Some v => Some v
      | None => spread before !! k
      end
  | None => spread before !! k
  end.

(** The "always keep" rules in the order the specification lists them. *)
Definition subscription_in (keep : list string) (e : WideEvent) : bool :=
  match user e with
  | Some u =>
      match u !! "subscription" with
      | Some (JStr s) => negb (String.eqb s "") && bool_decide (s ∈ keep)
      | _ => false
      end
  | None => false
  end.

Definition keep_rules (slow : Z) (keep : list string)
    : list (WideEvent -> bool) :=
  [ fun e => bool_decide (outcome e = Error);
    fun e => 500 <=? status_code (request e);
    fun e => present (error e);
    fun e => slow <? duration_ms (request e);
    subscription_in keep ].

(** First matching rule wins; the random draw decides when none matches. *)
Definition first_match (rules : list (WideEvent -> bool)) (e : WideEvent)
    (otherwise : bool) : bool :=
  match find (fun rule => rule e) rules with
  | Some _ => true
  | None => otherwise
  end.

(** What holds of the adapter between any two synchronous sections: without
    a token nothing is queued, and the only pending timeout is the one
    [flushTimeout] remembers, set for 100 ms. *)
Record adapter_ok (s : Sys) : Prop := {
  ok_no_token : token (adapter s) = ""%string -> pendingEvents (adapter s) = [];
  ok_timers :
    timers (world s) =
      match flushTimeout (adapter s) with
      | Some id => {[ id := 100 ]}
      | None => ∅
      end;
}.

(** The queue between any two sections: it is empty exactly when no flush is
    remembered as scheduled, it holds fewer than 10 references, and every
    reference names an object. *)
Record queue_ok (s : Sys) : Prop := {
  ok_scheduled :
    pendingEvents (adapter s) = [] <-> flushTimeout (adapter s) = None;
  ok_short : (length (pendingEvents (adapter s)) < 10)%nat;
  ok_allocated :
    Forall (fun l => is_Some (heap (world s) !! l)) (pendingEvents (adapter s));
}.

(** [send(event)] reaches the queue: a token is configured, and the debug
    line, when debug logging is on, can be written. *)
Definition accepts (s : Sys) (ev : loc) : bool :=
  negb (String.eqb (token (adapter s)) "")
  && match heap (world s) !! ev with
     | Some e => negb (debug (adapter s)) || serializable e
     | None => false
     end.

(** The references a sequence of sections starting in [s] puts in the
    queue, in order. *)
Fixpoint accepted (s : Sys) (acts : list Action) : list loc :=
  match acts with
  | [] => []
  | act :: acts =>
      match act with
      | ASend ev => if accepts s ev then [ev] else []
      | _ => []
      end ++ accepted (step s act) acts
  end.

(** A response that is not a success, or no response at all. *)
Definition failed (r : FetchResult) : bool :=
  match r with
  | NetworkError => true
  | HttpResponse ok _ _ _ => negb ok
  end.

Definition error_line (l : LogLine) : Prop :=
  l = ErrorSending \/ exists status text, l = ErrorFailedToSend status text.

(** ** Notions used to state further properties *)

(** The event [enrichEvent(data)] leaves behind in place of [e]. *)
Definition enriched (data : EnrichmentData.t) (e : WideEvent) : WideEvent :=
  {| event_id := event_id e; trace_id := trace_id e; timestamp := timestamp e;
     request := request e; service := service e;
     user := match EnrichmentData.user data with
             | Some m => Some (m ∪ spread (user e))
             | None => user e
             end;
     business := match EnrichmentData.business data with
                 | Some m => Some (m ∪ spread (business e))
                 | None => business e
                 end;
     performance := match EnrichmentData.performance data with
                    | Some m => Some (m ∪ spread (performance e))
                    | None => performance e
                    end;
     error := error e;
     feature_flags := match EnrichmentData.feature_flags data with
                      | Some m => Some (m ∪ spread (feature_flags e))
                      | None => feature_flags e
                      end;
     outcome := outcome e |}.

(** Two enrichment inputs that mention no common key in any field. *)
Definition disjoint_inputs (d1 d2 : EnrichmentData.t) : Prop :=
  spread (EnrichmentData.user d1) ##ₘ spread (EnrichmentData.user d2) /\
  spread (EnrichmentData.business d1) ##ₘ spread (EnrichmentData.business d2) /\
  spread (EnrichmentData.performance d1)
    ##ₘ spread (EnrichmentData.performance d2) /\
  spread (EnrichmentData.feature_flags d1)
    ##ₘ spread (EnrichmentData.feature_flags d2).

(** Number of ["-"] characters in a string. *)
Fixpoint count_dashes (s : string) : nat :=
  match s with
  | EmptyString => 0
  | String c r => (if Ascii.eqb c "-"%char then 1 else 0) + count_dashes r
  end.

(** [Date.now()] never goes back. *)
Definition monotone_clock (w : World) : Prop :=
  forall i j : nat, (i <= j)%nat -> clock w i <= clock w j.

(** An unset or empty optional string: falsy in [a || b]. *)
Definition unset (o : option string) : Prop := o = None \/ o = Some ""%string.

(** *** The module-level default adapter of [src/adapters/axiom.ts] *)

Inductive LoggerError :=
| AdapterNotInitialized.
    (* "[@sas/logger] AxiomAdapter not initialized. Call initLogger first." *)

(** [getAxiomAdapter(config?)]: [slot] is the module variable
    [defaultAdapter]; the result carries the new value of the variable. *)
Definition getAxiomAdapter (cfg : option WideEventConfig.t)
    (slot : option AxiomAdapter)
    : M ((LoggerError + AxiomAdapter) * option AxiomAdapter) :=
  slot <- match slot, cfg with
          | None, Some c => a <- newAxiomAdapter c ;; ret (Some a)
          | _, _ => ret slot
          end ;;
  match slot with
  | None => ret (inl AdapterNotInitialized, slot)
  | Some a => ret (inr a, slot)
  end.

(** [initAxiomAdapter(config)] *)
Definition initAxiomAdapter (cfg : WideEventConfig.t)
    (slot : option AxiomAdapter) : M (AxiomAdapter * option AxiomAdapter) :=
  a <- newAxiomAdapter cfg ;;
  ret (a, Some a).

(** The settings an adapter is constructed with. *)
Definition same_settings (a a' : AxiomAdapter) : Prop :=
  dataset a' = dataset a /\ token a' = token a /\
  debug a' = debug a /\ baseUrl a' = baseUrl a.

(** An ingest request as adapter [a] issues them: its endpoint, its
    credential, and between 1 and 10 events. *)
Definition request_of (a : AxiomAdapter) (r : IngestRequest) : Prop :=
  r = ingest_request a (body r) /\
  (1 <= length (body r) <= 10)%nat.

(** ** Framework glue: [src/middleware/next.ts], [vercel.ts], [express.ts]

    One request is followed from the wrapper's entry to its exit.  Of the
    wrapped handler only what the logger can observe is kept: the calls it
    makes through the context while it runs, and how it ends. *)

Inductive Call :=
| CallEnrichEvent (data : EnrichmentData.t)
| CallSetEventError (err : JsError.t) (retriable : option bool)
| CallGetCurrentEvent.

Definition run_call (store : option loc) (c : Call) : M unit :=
  match c with
  | CallEnrichEvent data => enrichEvent store data
  | CallSetEventError err retriable => setEventError store err retriable
  | CallGetCurrentEvent => getCurrentEvent store ;;; ret tt
  end.

Definition run_calls (store : option loc) (cs : list Call) : M unit :=
  fun w => (tt, foldl (fun w c => exec (run_call store c) w) w cs).

(** [error instanceof Error ? error : new Error(String(error))] *)
Definition as_error (t : Thrown) : JsError.t :=
  match t with
  | ThrownError err => err
  | ThrownValue text stack =>
      {| JsError.name := "Error"; JsError.message := text;
         JsError.stack := stack |}
  end.

(** The module variables [adapter] and [globalConfig] of a glue module. *)
Module Glue.
Record t := {
  adapter : option AxiomAdapter;
  globalConfig : option WideEventConfig.t;
}.
Definition uninitialized : t := {| adapter := None; globalConfig := None |}.
End Glue.

(** Console lines of the glue itself, returned in call order. *)
Inductive GlueLog :=
| WarnLoggerNotInitialized.

(** [initLogger(config)]; [slot] is [defaultAdapter] of the adapter module. *)
Definition initLogger (cfg : WideEventConfig.t) (slot : option AxiomAdapter)
    : M (Glue.t * option AxiomAdapter) :=
  r <- initAxiomAdapter cfg slot ;;
  ret ({| Glue.adapter := Some r.1; Glue.globalConfig := Some cfg |}, r.2).

(** [globalConfig?.shouldSample ? globalConfig.shouldSample(finalEvent)
                                : defaultShouldSample(finalEvent)] *)
Definition shouldKeep (g : Glue.t) (e : WideEvent) (random : Q)
    : Thrown + bool :=
  match Glue.globalConfig g with
  | Some cfg =>
      match WideEventConfig.shouldSample cfg with
      | Some f => f e
      | None => inr (defaultShouldSample e SampleOptions.empty random)
      end
  | None => inr (defaultShouldSample e SampleOptions.empty random)
  end.

(** What the code after the handler can throw: the configured sampler's
    exception, or the [TypeError] of [adapter.send]. *)
Inductive GlueError :=
| SamplerThrew (t : Thrown)
| SendThrew (e : TypeError).

(** [adapter.send(finalEvent); await adapter.flush()]: [answer] is the
    backend's answer to the awaited flush; a flush started by [send] itself
    is not awaited and its batch is returned as still in flight.  When
    [send] throws, [flush] is not reached. *)
Definition send_and_flush (a : AxiomAdapter) (event : loc)
    (answer : FetchResult)
    : M (TypeError + AxiomAdapter * list (list loc)) :=
  r1 <- send a event ;;
  match r1 with
  | inl err => ret (inl err)
  | inr r1 =>
      r2 <- flush_begin r1.1 ;;
      match r2.2 with
      | Some batch => flush_resume r2.1 batch answer
      | None => ret tt
      end ;;;
      ret (inr (r2.1, option_list r1.2))
  end.

(** How the code after the handler leaves the module, and ends. *)
Record Finished := {
  glue_after : Glue.t;
  unawaited : list (list loc);   (* batches in flight that nobody awaits *)
  raised : option GlueError;     (* the exception it ends with, if any *)
}.

(** The [finally] block shared by the Next.js and Vercel wrappers. *)
Definition finish (b : WideEventBuilder) (g : Glue.t) (random : Q)
    (answer : FetchResult) : M Finished :=
  final <- build b ;;
  e <- deref final ;;
  match e with
  | None =>  (* the builder's event always exists *)
      ret {| glue_after := g; unawaited := []; raised := None |}
  | Some e =>
      match shouldKeep g e random with
      | inl t =>
          ret {| glue_after := g; unawaited := [];
                 raised := Some (SamplerThrew t) |}
      | inr keep =>
          match keep, Glue.adapter g with
          | true, Some a =>
              r <- send_and_flush a final answer ;;
              match r with
              | inl err =>
                  ret {| glue_after := g; unawaited := [];
                         raised := Some (SendThrew err) |}
              | inr r =>
                  ret {| glue_after :=
                           {| Glue.adapter := Some r.1;
                              Glue.globalConfig := Glue.globalConfig g |};
                         unawaited := r.2; raised := None |}
              end
          | _, _ => ret {| glue_after := g; unawaited := []; raised := None |}
          end
      end
  end.

(** *** Next.js: [withWideEvents], [createHandler], [compose] *)

Module Next.

Inductive Ending :=
| Responds (status : Z)
| Throws (t : Thrown).

Record Handler := {
  calls : list Call;
  ending : Ending;
}.

(** What the caller of the wrapped handler gets: what the handler gave,
    or the exception of the [finally] block, which replaces it. *)
Inductive Result :=
| Passed (e : Ending)
| Raised (x : GlueError).

Record Served := {
  result : Result;
  glue : Glue.t;
  log : list GlueLog;
  in_flight : list (list loc);
}.

Definition withWideEvents (h : Handler) (request : WebRequest.t)
    (g : Glue.t) (random : Q) (answer : FetchResult) : M Served :=
  match Glue.globalConfig g with
  | None =>
      run_calls None (calls h) ;;;
      ret {| result := Passed (ending h); glue := g;
             log := [WarnLoggerNotInitialized]; in_flight := [] |}
  | Some cfg =>
      b <- newWideEventBuilder cfg ;;
      fromRequest b request None ;;;
      ev <- getEvent b ;;
      run_calls (Some ev) (calls h) ;;;
      match ending h with
      | Responds status => withStatusCode b status
      | Throws t => withError b (as_error t) None
      end ;;;
      r <- finish b g random answer ;;
      ret {| result := match raised r with
                       | Some x => Raised x
                       | None => Passed (ending h)
                       end;
             glue := glue_after r; log := []; in_flight := unawaited r |}
  end.

Definition createHandler (enrichment : EnrichmentData.t) (h : Handler)
    : Handler :=
  {| calls := CallEnrichEvent enrichment :: calls h; ending := ending h |}.

(** [wrappers.reduceRight((h, wrapper) => wrapper(h), handler)] *)
Definition compose {H} (wrappers : list (H -> H)) (handler : H) : H :=
  foldr (fun wrapper h => wrapper h) handler wrappers.

End Next.

(** *** Vercel functions: [withWideEvents] *)

(** [s.split(",")[0]] *)
Fixpoint before_comma (s : string) : string :=
  match s with
  | EmptyString => EmptyString
  | String c r =>
      if Ascii.eqb c ","%char then EmptyString else String c (before_comma r)
  end.

Module Vercel.

Record Request := {
  method : option string;
  url : option string;
  query : option (gmap string string);
  headers : gmap string string;
  remoteAddress : option string;  (* [req.socket?.remoteAddress] *)
}.

(** How the handler ends, with what it left in the response object. *)
Inductive Ending :=
| Finishes (statusCode : Z)
| Throws (t : Thrown) (headersSent : bool).

Record Handler := {
  calls : list Call;
  ending : Ending;
}.

Record Served := {
  sent_500 : bool;          (* the wrapper answered 500 itself *)
  rejected : option GlueError;  (* the wrapper's promise rejects with it *)
  glue : Glue.t;
  slot : option AxiomAdapter;
  in_flight : list (list loc);
}.

Definition details (req : Request) : RawRequest.t :=
  {| RawRequest.method := or_str (method req) "UNKNOWN";
     RawRequest.path := or_str (url req) "/";
     RawRequest.query := Some (default ∅ (query req));
     RawRequest.ip :=
       or_else (before_comma <$> headers req !! "x-forwarded-for")
               (remoteAddress req);
     RawRequest.userAgent := headers req !! "user-agent";
     RawRequest.traceId :=
       or_else (headers req !! "x-trace-id")
         (or_else (headers req !! "x-request-id")
                  (headers req !! "x-vercel-id")) |}.

(** The wrapper once [globalConfig] is known to be [cfg]. *)
Definition serve (cfg : WideEventConfig.t) (h : Handler) (req : Request)
    (g : Glue.t) (slot : option AxiomAdapter) (random : Q)
    (answer : FetchResult) : M Served :=
  b <- newWideEventBuilder cfg ;;
  fromRawRequest b (details req) ;;;
  ev <- getEvent b ;;
  run_calls (Some ev) (calls h) ;;;
  sent <- match ending h with
          | Finishes statusCode =>
              withStatusCode b (if statusCode =? 0 then 200 else statusCode) ;;;
              ret false
          | Throws t headersSent =>
              withError b (as_error t) None ;;;
              ret (negb headersSent)
          end ;;
  r <- finish b g random answer ;;
  ret {| sent_500 := sent; rejected := raised r; glue := glue_after r;
         slot := slot; in_flight := unawaited r |}.

Definition withWideEvents (h : Handler) (req : Request) (g : Glue.t)
    (slot : option AxiomAdapter) (random : Q) (answer : FetchResult)
    : M Served :=
  match Glue.globalConfig g with
  | Some cfg => serve cfg h req g slot random answer
  | None =>
      service_name <- getenv "SERVICE_NAME" ;;
      let cfg :=
        {| WideEventConfig.serviceName := or_str service_name "vercel-function";
           WideEventConfig.serviceVersion := None;
           WideEventConfig.environment := None;
           WideEventConfig.dataset := None;
           WideEventConfig.token := None;
           WideEventConfig.debug := None;
           WideEventConfig.shouldSample := None |} in
      r <- initLogger cfg slot ;;
      serve cfg h req r.1 r.2 random answer
  end.

End Vercel.

(** *** Express: the pieces around a request *)

Module Express.

(** [wideEventErrorMiddleware()(err, req, res, next)]: [attached] is
    [req.wideEvent]. *)
Definition wideEventErrorMiddleware (attached : option loc) (err : JsError.t)
    : M unit :=
  match attached with
  | Some ev =>
      update ev (set_outcome Error) ;;;
      update ev (set_error
                   (Some {| type := or_str (Some (JsError.name err)) "Error";
                            message := JsError.message err;
                            code := None;
                            stack := JsError.stack err;
                            retriable := false |}))
  | None => ret tt
  end.

(** [withEnrichment(enrichment)(req, res, next)] *)
Definition withEnrichment (store : option loc) (enrichment : EnrichmentData.t)
    : M unit :=
  enrichEvent store enrichment.

(** The replacement of [res.end] installed by [wideEventMiddleware]:
    everything it does before calling the original [end]; the flush it
    starts is not awaited.  When it ends with an exception the original
    [end] is not called. *)
Definition on_end (b : WideEventBuilder) (g : Glue.t) (statusCode : Z)
    (random : Q) : M Finished :=
  withStatusCode b statusCode ;;;
  final <- build b ;;
  e <- deref final ;;
  match e with
  | None =>  (* the builder's event always exists *)
      ret {| glue_after := g; unawaited := []; raised := None |}
  | Some e =>
      match shouldKeep g e random with
      | inl t =>
          ret {| glue_after := g; unawaited := [];
                 raised := Some (SamplerThrew t) |}
      | inr keep =>
          match keep, Glue.adapter g with
          | true, Some a =>
              r1 <- send a final ;;
              match r1 with
              | inl err =>
                  ret {| glue_after := g; unawaited := [];
                         raised := Some (SendThrew err) |}
              | inr r1 =>
                  r2 <- flush_begin r1.1 ;;
                  ret {| glue_after :=
                           {| Glue.adapter := Some r2.1;
                              Glue.globalConfig := Glue.globalConfig g |};
                         unawaited := option_list r1.2 ++ option_list r2.2;
                         raised := None |}
              end
          | _, _ => ret {| glue_after := g; unawaited := []; raised := None |}
          end
      end
  end.

End Express.

(** A handler's call, as the corresponding entry of a call sequence. *)
Definition call_op (c : Call) : Op :=
  match c with
  | CallEnrichEvent data => OpEnrichEvent data
  | CallSetEventError err retriable => OpSetEventError err retriable
  | CallGetCurrentEvent => OpGetCurrentEvent
  end.

(** What the Next.js wrapper calls on its builder and lets the handler call
    in the builder's scope, before the [finally] block. *)
Definition next_observed (h : Next.Handler) (req : WebRequest.t) : list Op :=
  OpFromRequest req None
    :: (call_op <$> Next.calls h)
    ++ [match Next.ending h with
        | Next.Responds status => OpWithStatusCode status
        | Next.Throws t => OpWithError (as_error t) None
        end].

(** The same for the Vercel wrapper. *)
Definition vercel_observed (h : Vercel.Handler) (req : Vercel.Request)
    : list Op :=
  OpFromRawRequest (Vercel.details req)
    :: (call_op <$> Vercel.calls h)
    ++ [match Vercel.ending h with
        | Vercel.Finishes statusCode =>
            OpWithStatusCode (if statusCode =? 0 then 200 else statusCode)
        | Vercel.Throws t _ => OpWithError (as_error t) None
        end].


(** A glue module initialised with [demo_config] in [demo_world]. *)
Definition demo_adapter : AxiomAdapter :=
  (newAxiomAdapter demo_config demo_world).1.

Definition demo_glue : Glue.t :=
  {| Glue.adapter := Some demo_adapter; Glue.globalConfig := Some demo_config |}.


(** The part of [request] the request setters write. *)
Definition request_details (e : WideEvent)
    : string * string * option (gmap string string) * option string
      * option string :=
  (method (request e), path (request e), query (request e), ip (request e),
   user_agent (request e)).

(** Number of [","] characters in a string. *)
Fixpoint count_commas (s : string) : nat :=
  match s with
  | EmptyString => 0
  | String c r => (if Ascii.eqb c ","%char then 1 else 0) + count_commas r
  end.

(** * Properties *)

(** ** Running computations *)

Lemma exec_ret {A} (a : A) w : exec (ret a) w = w.
Proof. reflexivity. Qed.

Lemma exec_seq {A B} (m : M A) (k : M B) w :
  exec (m ;;; k) w = exec k (exec m w).
Proof. unfold exec, bind. now destruct (m w). Qed.

Lemma heap_update l f w :
  heap (exec (update l f) w) = alter f l (heap w).
Proof. reflexivity. Qed.

(** An update keeps the object in the heap. *)
Lemma update_lookup l g w e :
  heap w !! l = Some e -> heap (exec (update l g) w) !! l = Some (g e).
Proof. intros H. now rewrite heap_update, lookup_alter_eq, H. Qed.

(** ** The status-code setter *)

Lemma withStatusCode_lookup b statusCode w e :
  heap w !! event b = Some e ->
  heap (exec (withStatusCode b statusCode) w) !! event b =
    Some (set_outcome (outcome_after_status statusCode (outcome e))
            (set_request (set_status_code statusCode (request e)) e)).
Proof.
  intros H. unfold withStatusCode, outcome_after_status.
  rewrite exec_seq.
  pose proof (update_lookup (event b)
    (fun e => set_request (set_status_code statusCode (request e)) e) w e H) as H1.
  destruct (500 <=? statusCode); [| destruct (400 <=? statusCode)].
  - now rewrite (update_lookup _ _ _ _ H1).
  - now rewrite (update_lookup _ _ _ _ H1).
  - rewrite exec_ret, H1. now destruct e.
Qed.

(** C1, as the code has it: [withStatusCode(code)] stores the code in
    [request.status_code]; a code of 500 or more makes the outcome "error";
    a code from 400 to 499 makes it "warning" whatever it was before, an
    earlier "error" included; a code below 400 leaves the outcome as it was.
    Hence no call turns an outcome into "success", and an "error" survives
    every call whose code is outside 400..499. *)
Theorem withStatusCode_sets_code_and_outcome
    (b : WideEventBuilder) (statusCode : Z) (w : World) (e : WideEvent) :
  heap w !! event b = Some e ->
  exists e',
    heap (exec (withStatusCode b statusCode) w) !! event b = Some e' /\
    status_code (request e') = statusCode /\
    (500 <= statusCode -> outcome e' = Error) /\
    (400 <= statusCode <= 499 -> outcome e' = Warning) /\
    (statusCode < 400 -> outcome e' = outcome e) /\
    (outcome e' = Success -> outcome e = Success) /\
    (outcome e = Error -> ~ 400 <= statusCode <= 499 -> outcome e' = Error).
Proof.
  intros H. eexists. split; [apply (withStatusCode_lookup _ _ _ _ H) |].
  simpl. unfold outcome_after_status.
  destruct (Z.leb_spec 500 statusCode), (Z.leb_spec 400 statusCode);
    repeat split; intros; try lia; try congruence.
Qed.

Lemma withStatusCode_sets_code_and_outcome_witness :
  exists e',
    heap (exec (withStatusCode demo_builder 503) demo_started)
      !! event demo_builder = Some e' /\
    status_code (request e') = 503 /\ outcome e' = Error.
Proof.
  destruct (withStatusCode_sets_code_and_outcome demo_builder 503 demo_started
              demo_base_event)
    as (e' & Hl & Hc & H5 & _).
  - vm_compute. reflexivity.
  - exists e'. split; [exact Hl |]. split; [exact Hc |]. apply H5. lia.
Defined.

(** C1 as stated fails: after [withError] has made the outcome "error",
    [withStatusCode(404)] makes it "warning". *)
Lemma withStatusCode_404_downgrades_error :
  let w_err := exec (withError demo_builder demo_error None) demo_started in
  field outcome (event demo_builder) w_err = Some Error /\
  field outcome (event demo_builder)
    (exec (withStatusCode demo_builder 404) w_err) = Some Warning.
Proof. split; vm_compute; reflexivity. Qed.

(** ** Identifiers *)

Lemma exec_bind {A B} (m : M A) (k : A -> M B) w :
  exec (x <- m ;; k x) w = exec (k (m w).1) (m w).2.
Proof. unfold exec, bind. now destruct (m w). Qed.

(** An update that does not change what [f] reads is invisible through [f],
    at every location. *)
Lemma fmap_alter_preserved {A} (f : WideEvent -> A) g (l l' : loc)
    (h : gmap loc WideEvent) :
  (forall e, f (g e) = f e) -> f <$> alter g l h !! l' = f <$> h !! l'.
Proof.
  intros Hfg. destruct (decide (l = l')) as [->|Hne].
  - rewrite lookup_alter_eq. destruct (h !! l'); simpl; [| reflexivity].
    now rewrite Hfg.
  - now rewrite lookup_alter_ne.
Qed.

(** Unfold a computation down to the heap updates it performs. *)
Ltac to_heap :=
  unfold field, exec, run_op, fromRequest, fromRawRequest, withUser,
    withBusiness, withPerformance, withFeatureFlags, withError,
    withStatusCode, enrich, build, getEvent, getCurrentEvent, enrichEvent,
    setEventError, generateTraceId, generateEventId, randomUUID, dateNow,
    getenv, console_write, update, bind, ret;
  simpl.

Ltac preserved :=
  repeat (rewrite fmap_alter_preserved; [| intros ?; reflexivity]);
  try reflexivity.

Ltac split_cases :=
  repeat match goal with
    | |- context [decide ?P] => destruct (decide P); simpl
    | |- context [match ?x with Some _ => _ | None => _ end] =>
        destruct x; simpl
    | |- context [if ?x then _ else _] => destruct x; simpl
    end.

Lemma run_op_event_id b store op l w :
  field event_id l (exec (run_op b store op) w) = field event_id l w.
Proof. destruct op; to_heap; split_cases; preserved. Qed.

Lemma run_op_trace_id b store op l w :
  assigns_trace_id op = false ->
  field trace_id l (exec (run_op b store op) w) = field trace_id l w.
Proof.
  destruct op; intros Hop; try discriminate Hop;
    to_heap; split_cases; preserved.
Qed.

Lemma fromRequest_trace_id b req traceId w :
  field trace_id (event b) (exec (fromRequest b req traceId) w) =
    (fun _ => default (remove_dashes (uuids w (uuids_drawn w)))
                      (upstream_id req traceId))
      <$> field trace_id (event b) w.
Proof.
  unfold upstream_id. to_heap.
  destruct (or_else traceId _); simpl;
    rewrite !lookup_alter_eq; now destruct (heap w !! event b).
Qed.

Lemma fromRawRequest_trace_id b details w :
  field trace_id (event b) (exec (fromRawRequest b details) w) =
    (fun old => default old (or_else (RawRequest.traceId details) None))
      <$> field trace_id (event b) w.
Proof.
  to_heap.
  destruct (or_else (RawRequest.traceId details) None); simpl;
    rewrite !lookup_alter_eq; now destruct (heap w !! event b).
Qed.

Lemma run_ops_event_id b store ops l w :
  field event_id l (run_ops b store ops w) = field event_id l w.
Proof.
  revert w. induction ops as [|op ops IH]; intros w; [reflexivity |].
  change (run_ops b store (op :: ops) w)
    with (run_ops b store ops (exec (run_op b store op) w)).
  rewrite IH. apply run_op_event_id.
Qed.

Lemma newWideEventBuilder_ids cfg w :
  let b := (newWideEventBuilder cfg w).1 in
  let w' := (newWideEventBuilder cfg w).2 in
  field event_id (event b) w' =
    Some (String.append "evt_"
            (slice0 16 (remove_dashes (uuids w (uuids_drawn w))))) /\
  field trace_id (event b) w' =
    Some (remove_dashes (uuids w (S (uuids_drawn w)))).
Proof.
  unfold newWideEventBuilder, createBaseEvent, alloc. to_heap.
  rewrite lookup_insert_eq. simpl. split; reflexivity.
Qed.

(** C2, as the code has it.  Construction assigns [event_id] and [trace_id]
    from two fresh UUIDs.  No later call, on the builder or through the
    context, assigns [event_id].  [trace_id] is assigned by [fromRequest]
    and [fromRawRequest] only: [fromRawRequest] replaces it by a non-empty
    [details.traceId] and otherwise keeps it; [fromRequest] always replaces
    it, by the first non-empty one of the [traceId] argument, the
    [x-trace-id] header and the [x-request-id] header, and, when there is
    none, by a newly generated id. *)
Theorem event_id_fixed_trace_id_set_by_request_setters
    (cfg : WideEventConfig.t) (w0 : World) :
  (let b := (newWideEventBuilder cfg w0).1 in
   let w1 := (newWideEventBuilder cfg w0).2 in
   field event_id (event b) w1 =
     Some (String.append "evt_"
             (slice0 16 (remove_dashes (uuids w0 (uuids_drawn w0))))) /\
   field trace_id (event b) w1 =
     Some (remove_dashes (uuids w0 (S (uuids_drawn w0))))) /\
  forall (b : WideEventBuilder) (store : option loc) (w : World),
    (forall ops l,
        field event_id l (run_ops b store ops w) = field event_id l w) /\
    (forall op l,
        assigns_trace_id op = false ->
        field trace_id l (exec (run_op b store op) w) = field trace_id l w) /\
    (forall details,
        field trace_id (event b) (exec (fromRawRequest b details) w) =
          (fun old => default old (or_else (RawRequest.traceId details) None))
            <$> field trace_id (event b) w) /\
    (forall req traceId,
        field trace_id (event b) (exec (fromRequest b req traceId) w) =
          (fun _ => default (remove_dashes (uuids w (uuids_drawn w)))
                            (upstream_id req traceId))
            <$> field trace_id (event b) w).
Proof.
  split; [apply newWideEventBuilder_ids |].
  intros b store w. split; [| split; [| split]].
  - intros ops l. apply run_ops_event_id.
  - intros op l Hop. now apply run_op_trace_id.
  - intros details. apply fromRawRequest_trace_id.
  - intros req traceId. apply fromRequest_trace_id.
Qed.

(** C2 as stated fails for [fromRequest]: with no [traceId] argument and no
    correlation header, it replaces the [trace_id] given at construction by a
    newly generated one. *)
Lemma fromRequest_without_upstream_id_reassigns_trace_id :
  upstream_id demo_request None = None /\
  field trace_id (event demo_builder) demo_started =
    Some "3f2b8c1e7a4d4e9b9c550d6f1a2b3c41"%string /\
  field trace_id (event demo_builder)
    (exec (fromRequest demo_builder demo_request None) demo_started) =
    Some "3f2b8c1e7a4d4e9b9c550d6f1a2b3c42"%string.
Proof. repeat split; vm_compute; reflexivity. Qed.

Lemma event_id_fixed_trace_id_set_by_request_setters_witness :
  field trace_id (event demo_builder)
    (exec (run_op demo_builder None (OpWithStatusCode 404)) demo_started) =
  field trace_id (event demo_builder) demo_started.
Proof.
  apply (proj1 (proj2 (proj2
           (event_id_fixed_trace_id_set_by_request_setters demo_config demo_world)
           demo_builder None demo_started))).
  reflexivity.
Defined.

(** ** Merging by key *)

Lemma spread_all_lookup {V} k (init : gmap string V) inputs :
  spread_all init inputs !! k = last_write k init inputs.
Proof.
  unfold spread_all, last_write.
  induction inputs as [|m inputs IH] using rev_ind; [reflexivity |].
  rewrite foldl_snoc, reverse_snoc. simpl.
  destruct (m !! k) as [v|] eqn:Hm; simpl.
  - rewrite Hm. apply lookup_union_Some_l. exact Hm.
  - rewrite lookup_union_r by exact Hm. exact IH.
Qed.

Lemma last_write_keeps_keys {V} k (init : gmap string V) inputs :
  is_Some (init !! k) -> is_Some (last_write k init inputs).
Proof.
  intros Hk. unfold last_write.
  destruct (find _ (reverse inputs)) as [m|] eqn:Hf; [| exact Hk].
  apply find_some in Hf as [_ Hp].
  destruct (m !! k); [eauto | discriminate].
Qed.

Lemma run_op_merges b op w e :
  heap w !! event b = Some e ->
  exists e',
    heap (exec (run_op b (Some (event b)) op) w) !! event b = Some e' /\
    spread (business e') = after_input (business_input op) (spread (business e)) /\
    spread (performance e') =
      after_input (performance_input op) (spread (performance e)) /\
    spread (feature_flags e') =
      after_input (feature_flags_input op) (spread (feature_flags e)).
Proof.
  intros H.
  destruct op as [| | | | | | | | [du db dp df] | | | | [du db dp df] |];
    to_heap; split_cases; rewrite ?lookup_alter_eq, ?H; simpl;
    eexists; (split; [reflexivity |]); simpl; auto.
Qed.

Lemma run_ops_merge b ops w e :
  heap w !! event b = Some e ->
  exists e',
    heap (run_ops b (Some (event b)) ops w) !! event b = Some e' /\
    spread (business e') =
      spread_all (spread (business e)) (omap business_input ops) /\
    spread (performance e') =
      spread_all (spread (performance e)) (omap performance_input ops) /\
    spread (feature_flags e') =
      spread_all (spread (feature_flags e)) (omap feature_flags_input ops).
Proof.
  revert w e. induction ops as [|op ops IH]; intros w e H.
  - exists e. auto.
  - change (run_ops b (Some (event b)) (op :: ops) w)
      with (run_ops b (Some (event b)) ops
              (exec (run_op b (Some (event b)) op) w)).
    destruct (run_op_merges b op w e H) as (e1 & H1 & Hb & Hp & Hf).
    destruct (IH _ _ H1) as (e' & H' & Hb' & Hp' & Hf').
    exists e'. split; [exact H' |].
    rewrite Hb', Hp', Hf', Hb, Hp, Hf. simpl.
    split; [| split].
    + now destruct (business_input op).
    + now destruct (performance_input op).
    + now destruct (feature_flags_input op).
Qed.

(** C3: starting from any event, after any finite sequence of calls made on
    the builder and, inside the builder's scope, through the context, the
    [business], [performance] and [feature_flags] mappings are each the
    key-wise last-write-wins union of the initial mapping and the inputs of
    the merging calls ([withBusiness], [withPerformance], [withFeatureFlags],
    [enrich], [enrichEvent]), in call order; a key present before is present
    after. *)
Theorem merge_calls_give_last_write_wins_union
    (b : WideEventBuilder) (ops : list Op) (w : World) (e : WideEvent) :
  heap w !! event b = Some e ->
  exists e',
    heap (run_ops b (Some (event b)) ops w) !! event b = Some e' /\
    (forall k,
        spread (business e') !! k =
          last_write k (spread (business e)) (omap business_input ops)) /\
    (forall k,
        spread (performance e') !! k =
          last_write k (spread (performance e)) (omap performance_input ops)) /\
    (forall k,
        spread (feature_flags e') !! k =
          last_write k (spread (feature_flags e))
            (omap feature_flags_input ops)) /\
    (forall k,
        is_Some (spread (business e) !! k) ->
        is_Some (spread (business e') !! k)) /\
    (forall k,
        is_Some (spread (performance e) !! k) ->
        is_Some (spread (performance e') !! k)) /\
    (forall k,
        is_Some (spread (feature_flags e) !! k) ->
        is_Some (spread (feature_flags e') !! k)).
Proof.
  intros H.
  destruct (run_ops_merge b ops w e H) as (e' & H' & Hb & Hp & Hf).
  exists e'. split; [exact H' |].
  rewrite Hb, Hp, Hf.
  repeat split; intros k; rewrite ?spread_all_lookup;
    try reflexivity; apply last_write_keeps_keys.
Qed.

Lemma merge_calls_give_last_write_wins_union_witness :
  exists e',
    heap (run_ops demo_builder (Some (event demo_builder))
            [OpWithBusiness (Some {[ "dealId" := JStr "deal_123";
                                     "amount" := JNum 5 ]});
             OpWithStatusCode 200;
             OpEnrichEvent demo_enrichment]
            demo_started) !! event demo_builder = Some e' /\
    spread (business e') !! "dealId" = Some (JStr "deal_456") /\
    spread (business e') !! "amount" = Some (JNum 5) /\
    spread (business e') !! "action" = Some (JStr "quote_sent").
Proof.
  destruct (merge_calls_give_last_write_wins_union demo_builder
              [OpWithBusiness (Some {[ "dealId" := JStr "deal_123";
                                       "amount" := JNum 5 ]});
               OpWithStatusCode 200;
               OpEnrichEvent demo_enrichment]
              demo_started demo_base_event)
    as (e' & H' & Hb & _).
  - vm_compute. reflexivity.
  - exists e'. split; [exact H' |].
    rewrite !Hb. repeat split; vm_compute; reflexivity.
Defined.

(** ** Errors *)

Lemma withError_lookup b err retriable w e :
  heap w !! event b = Some e ->
  heap (exec (withError b err retriable) w) !! event b =
    Some (set_error (Some (error_info err (default false retriable)))
            (set_outcome Error e)).
Proof.
  intros H. to_heap. now rewrite !lookup_alter_eq, H.
Qed.

(** C7: [withError(error, retriable)], with [retriable] false when omitted,
    makes the outcome "error" whatever it was and stores the record made of
    the error's name (or "Error" when the name is empty), message and stack
    and of the retriable flag.  [setEventError] does exactly the same to the
    event in scope, and changes nothing when no event is in scope. *)
Theorem withError_and_setEventError_force_error_outcome
    (b : WideEventBuilder) (err : JsError.t) (retriable : option bool)
    (w : World) (e : WideEvent) :
  heap w !! event b = Some e ->
  (exists e',
      heap (exec (withError b err retriable) w) !! event b = Some e' /\
      outcome e' = Error /\
      error e' =
        Some {| type := if String.eqb (JsError.name err) "" then "Error"
                        else JsError.name err;
                message := JsError.message err;
                code := None;
                stack := JsError.stack err;
                retriable := match retriable with
                             | Some r => r
                             | None => false
                             end |}) /\
  exec (setEventError (Some (event b)) err retriable) w =
    exec (withError b err retriable) w /\
  exec (setEventError None err retriable) w = w.
Proof.
  intros H. split; [| split; reflexivity].
  eexists. split; [apply (withError_lookup _ _ _ _ _ H) |].
  split; [reflexivity |]. simpl. unfold error_info, or_str, or_else.
  now destruct (String.eqb (JsError.name err) ""), retriable.
Qed.

Lemma withError_and_setEventError_force_error_outcome_witness :
  exists e',
    heap (exec (withError demo_builder demo_error None)
            (exec (withStatusCode demo_builder 404) demo_started))
      !! event demo_builder = Some e' /\
    outcome e' = Error /\
    (message <$> error e') = Some "db timeout"%string /\
    (retriable <$> error e') = Some false.
Proof.
  destruct (withError_and_setEventError_force_error_outcome demo_builder
              demo_error None
              (exec (withStatusCode demo_builder 404) demo_started)
              (set_outcome Warning
                 (set_request (set_status_code 404 (request demo_base_event))
                    demo_base_event)))
    as ((e' & H' & Ho & He) & _).
  - vm_compute. reflexivity.
  - exists e'. rewrite He. repeat split; assumption || reflexivity.
Defined.

(** ** Enrichment through the context *)

Lemma spread2_lookup {V} (before : option (gmap string V)) m k :
  spread2 before (Some m) !! k = shallow_merge_lookup (Some m) before k.
Proof.
  unfold spread2, shallow_merge_lookup. simpl.
  destruct (m !! k) as [v|] eqn:Hm.
  - now apply lookup_union_Some_l.
  - now rewrite lookup_union_r.
Qed.

Lemma enrichEvent_lookup l data w e :
  heap w !! l = Some e ->
  exists e',
    heap (exec (enrichEvent (Some l) data) w) !! l = Some e' /\
    (forall k, spread (user e') !! k =
               shallow_merge_lookup (EnrichmentData.user data) (user e) k) /\
    (forall k, spread (business e') !! k =
               shallow_merge_lookup (EnrichmentData.business data)
                 (business e) k) /\
    (forall k, spread (performance e') !! k =
               shallow_merge_lookup (EnrichmentData.performance data)
                 (performance e) k) /\
    (forall k, spread (feature_flags e') !! k =
               shallow_merge_lookup (EnrichmentData.feature_flags data)
                 (feature_flags e) k).
Proof.
  intros H. destruct data as [du db dp df].
  to_heap. split_cases; rewrite ?lookup_alter_eq, ?H; simpl;
    eexists; (split; [reflexivity |]); simpl;
    repeat split; intros k; rewrite ?spread2_lookup; reflexivity.
Qed.

(** C8: outside any scope [enrichEvent] returns normally for every input and
    leaves every event as it is (it only writes a console warning when
    [NODE_ENV] is "development"); inside a scope it merges [user],
    [business], [performance] and [feature_flags] key by key: keys of the
    input are written, all other keys keep their values. *)
Theorem enrichEvent_noop_outside_scope_shallow_merge_inside
    (data : EnrichmentData.t) (w : World) :
  (heap (exec (enrichEvent None data) w) = heap w /\
   (env w !! "NODE_ENV" <> Some "development"%string ->
    exec (enrichEvent None data) w = w) /\
   (env w !! "NODE_ENV" = Some "development"%string ->
    exec (enrichEvent None data) w =
      with_console (console w ++ [WarnEnrichOutsideContext]) w)) /\
  forall l e,
    heap w !! l = Some e ->
    exists e',
      heap (exec (enrichEvent (Some l) data) w) !! l = Some e' /\
      (forall k, spread (user e') !! k =
                 shallow_merge_lookup (EnrichmentData.user data) (user e) k) /\
      (forall k, spread (business e') !! k =
                 shallow_merge_lookup (EnrichmentData.business data)
                   (business e) k) /\
      (forall k, spread (performance e') !! k =
                 shallow_merge_lookup (EnrichmentData.performance data)
                   (performance e) k) /\
      (forall k, spread (feature_flags e') !! k =
                 shallow_merge_lookup (EnrichmentData.feature_flags data)
                   (feature_flags e) k) /\
      (forall k, is_Some (spread (user e) !! k) ->
                 is_Some (spread (user e') !! k)).
Proof.
  split.
  - to_heap. destruct (decide (env w !! "NODE_ENV" = Some "development"%string));
      simpl; repeat split; intros; try reflexivity; try contradiction.
  - intros l e H.
    destruct (enrichEvent_lookup l data w e H) as (e' & H' & Hu & Hrest).
    exists e'. split; [exact H' |]. split; [exact Hu |].
    destruct Hrest as (Hb & Hp & Hf). repeat split; try assumption.
    intros k Hk. rewrite Hu. unfold shallow_merge_lookup.
    destruct (EnrichmentData.user data) as [m|]; [| exact Hk].
    destruct (m !! k); [eauto | exact Hk].
Qed.

Lemma enrichEvent_noop_outside_scope_shallow_merge_inside_witness :
  exec (enrichEvent None demo_enrichment) demo_started = demo_started /\
  exists e',
    heap (exec (enrichEvent (Some (event demo_builder)) demo_enrichment)
            demo_started) !! event demo_builder = Some e' /\
    spread (user e') !! "id" = Some (JStr "user_1").
Proof.
  destruct (enrichEvent_noop_outside_scope_shallow_merge_inside
              demo_enrichment demo_started) as ((_ & Hq & _) & Hin).
  split.
  - apply Hq. vm_compute. discriminate.
  - destruct (Hin (event demo_builder) demo_base_event) as (e' & H' & Hu & _).
    + vm_compute. reflexivity.
    + exists e'. split; [exact H' |]. rewrite Hu. vm_compute. reflexivity.
Defined.

(** C10: [enrichEvent] writes [user], [business], [performance] and
    [feature_flags] only: for every input, whatever the scope holds, every
    event keeps its [event_id], [trace_id], [timestamp], [request],
    [service], [error] and [outcome]. *)
Theorem enrichEvent_frame
    (store : option loc) (data : EnrichmentData.t) (w : World) (l : loc) :
  field event_id l (exec (enrichEvent store data) w) = field event_id l w /\
  field trace_id l (exec (enrichEvent store data) w) = field trace_id l w /\
  field timestamp l (exec (enrichEvent store data) w) = field timestamp l w /\
  field request l (exec (enrichEvent store data) w) = field request l w /\
  field service l (exec (enrichEvent store data) w) = field service l w /\
  field error l (exec (enrichEvent store data) w) = field error l w /\
  field outcome l (exec (enrichEvent store data) w) = field outcome l w.
Proof.
  destruct data as [du db dp df], store as [ev|];
    repeat split; to_heap; split_cases; preserved.
Qed.

(** ** Tail sampling *)

Lemma subscription_rule keep e :
  truthy (user_subscription e) && includes keep (user_subscription e) =
  subscription_in keep e.
Proof.
  unfold user_subscription, subscription_in.
  destruct (user e) as [u|]; [| reflexivity].
  destruct (u !! "subscription") as [[]|]; simpl;
    rewrite ?andb_false_r; reflexivity.
Qed.

Lemma subscription_in_spec keep e :
  subscription_in keep e = true <->
  exists s, user_subscription e = JStr s /\ s <> ""%string /\ s ∈ keep.
Proof.
  unfold user_subscription, subscription_in.
  destruct (user e) as [u|];
    [destruct (u !! "subscription") as [[]|] |]; simpl;
    try (split; [discriminate | intros (s & Hs & _); discriminate]).
  rewrite andb_true_iff, negb_true_iff, String.eqb_neq, bool_decide_eq_true.
  split.
  - intros [Hne Hin]. eauto.
  - intros (s' & Hs & Hne & Hin). injection Hs as ->. auto.
Qed.

Lemma Qltb_spec x y : Qltb x y = true <-> (x < y)%Q.
Proof.
  unfold Qltb. destruct (Qlt_le_dec x y) as [Hlt|Hle].
  - tauto.
  - split; [discriminate |]. intros Hlt. now apply Qle_not_lt in Hle.
Qed.

Lemma defaultShouldSample_first_match e options random :
  defaultShouldSample e options random =
  first_match
    (keep_rules (default 2000 (SampleOptions.slowThresholdMs options))
       (default ["enterprise"; "premium"]%string
          (SampleOptions.alwaysKeepSubscriptions options)))
    e
    (Qltb random (default (1 # 10)%Q (SampleOptions.sampleRate options))).
Proof.
  unfold defaultShouldSample, first_match, keep_rules. simpl.
  rewrite subscription_rule.
  destruct (decide (outcome e = Error)) as [Ho|Ho].
  - now rewrite bool_decide_eq_true_2.
  - rewrite bool_decide_eq_false_2 by exact Ho.
    destruct (500 <=? status_code (request e)); [reflexivity |].
    destruct (present (error e)); [reflexivity |].
    destruct (_ <? duration_ms (request e)); [reflexivity |].
    now destruct (subscription_in _ e).
Qed.

Lemma defaultShouldSample_true e options random :
  defaultShouldSample e options random = true <->
  outcome e = Error \/
  500 <= status_code (request e) \/
  is_Some (error e) \/
  default 2000 (SampleOptions.slowThresholdMs options)
    < duration_ms (request e) \/
  (exists s, user_subscription e = JStr s /\ s <> ""%string /\
             s ∈ default ["enterprise"; "premium"]%string
                   (SampleOptions.alwaysKeepSubscriptions options)) \/
  (random < default (1 # 10) (SampleOptions.sampleRate options))%Q.
Proof.
  rewrite <- subscription_in_spec, <- Qltb_spec.
  unfold defaultShouldSample. rewrite subscription_rule.
  destruct (decide (outcome e = Error)) as [Ho|Ho]; [tauto |].
  destruct (Z.leb_spec 500 (status_code (request e))) as [Hs|Hs]; [tauto |].
  destruct (error e) as [x|] eqn:He; simpl.
  { split; [| reflexivity]. intros _. right. right. left. eauto. }
  destruct (Z.ltb_spec (default 2000 (SampleOptions.slowThresholdMs options))
              (duration_ms (request e))) as [Hd|Hd]; [tauto |].
  destruct (subscription_in _ e) eqn:Hsub; [tauto |].
  split.
  - intros Hr. do 5 right. exact Hr.
  - intros [?|[?|[Hx|[?|[?|Hr]]]]]; try contradiction; try lia;
      try discriminate; try exact Hr.
    destruct Hx as [? Hx]. discriminate Hx.
Qed.

(** C4: [defaultShouldSample] keeps an event exactly when the first matching
    rule of the list below says so: (1) the outcome is "error"; (2)
    [request.status_code >= 500]; (3) [error] is present; (4)
    [request.duration_ms] exceeds [slowThresholdMs] (2000 when omitted); (5)
    [user.subscription] is present (a non-empty string) and a member of
    [alwaysKeepSubscriptions] (enterprise and premium when omitted); (6)
    otherwise the draw of [Math.random()] is below [sampleRate] (0.1 when
    omitted).  With [sampleRate = 0] and a draw in [0, 1): an event whose
    outcome is "error" is kept; one with [duration_ms = 2500] or with
    subscription "enterprise" is kept under the default threshold and list;
    an ordinary event with status 200, [duration_ms = 500] and no user is
    dropped. *)
Theorem defaultShouldSample_priority_rules
    (e : WideEvent) (options : SampleOptions.t) (random : Q) :
  let slow := default 2000 (SampleOptions.slowThresholdMs options) in
  let keep := default ["enterprise"; "premium"]%string
                (SampleOptions.alwaysKeepSubscriptions options) in
  let rate := default (1 # 10)%Q (SampleOptions.sampleRate options) in
  defaultShouldSample e options random =
    first_match (keep_rules slow keep) e (Qltb random rate) /\
  (defaultShouldSample e options random = true <->
     outcome e = Error \/
     500 <= status_code (request e) \/
     is_Some (error e) \/
     slow < duration_ms (request e) \/
     (exists s, user_subscription e = JStr s /\ s <> ""%string /\ s ∈ keep) \/
     (random < rate)%Q) /\
  (SampleOptions.sampleRate options = Some 0%Q ->
   (0 <= random)%Q ->
   (outcome e = Error -> defaultShouldSample e options random = true) /\
   (SampleOptions.slowThresholdMs options = None ->
    duration_ms (request e) = 2500 ->
    defaultShouldSample e options random = true) /\
   (SampleOptions.alwaysKeepSubscriptions options = None ->
    user_subscription e = JStr "enterprise" ->
    defaultShouldSample e options random = true) /\
   (SampleOptions.slowThresholdMs options = None ->
    SampleOptions.alwaysKeepSubscriptions options = None ->
    outcome e <> Error ->
    error e = None ->
    status_code (request e) = 200 ->
    duration_ms (request e) = 500 ->
    user e = None ->
    defaultShouldSample e options random = false)).
Proof.
  intros slow keep rate.
  split; [apply defaultShouldSample_first_match |].
  split; [apply defaultShouldSample_true |].
  intros Hrate Hrandom. repeat split.
  - intros Ho. apply defaultShouldSample_true. now left.
  - intros Hslow Hd. apply defaultShouldSample_true.
    do 3 right. left. rewrite Hslow, Hd. simpl. lia.
  - intros Hkeep Hs. apply defaultShouldSample_true.
    do 4 right. left. exists "enterprise"%string.
    rewrite Hkeep. simpl. repeat split; [exact Hs | discriminate |].
    apply list_elem_of_In. simpl. now left.
  - intros Hslow Hkeep Ho He Hs Hd Hu.
    destruct (defaultShouldSample e options random) eqn:Hk; [| reflexivity].
    apply defaultShouldSample_true in Hk.
    rewrite Hslow, Hrate, He, Hs, Hd in Hk. simpl in Hk.
    unfold user_subscription in Hk. rewrite Hu in Hk.
    destruct Hk as [?|[?|[[? Hx]|[?|[(s & Hx & _)|Hr]]]]];
      try contradiction; try lia; try discriminate.
    now apply Qle_not_lt in Hrandom.
Qed.

Lemma defaultShouldSample_priority_rules_witness :
  defaultShouldSample demo_event
    {| SampleOptions.slowThresholdMs := None;
       SampleOptions.alwaysKeepSubscriptions := None;
       SampleOptions.sampleRate := Some 0%Q |} (1 # 2)%Q = false /\
  defaultShouldSample (set_outcome Error demo_event)
    {| SampleOptions.slowThresholdMs := None;
       SampleOptions.alwaysKeepSubscriptions := None;
       SampleOptions.sampleRate := Some 0%Q |} (1 # 2)%Q = true.
Proof.
  assert (Hdraw : (0 <= 1 # 2)%Q) by (vm_compute; discriminate).
  split.
  - destruct (defaultShouldSample_priority_rules demo_event
                {| SampleOptions.slowThresholdMs := None;
                   SampleOptions.alwaysKeepSubscriptions := None;
                   SampleOptions.sampleRate := Some 0%Q |} (1 # 2)%Q)
      as (_ & _ & Hzero).
    destruct (Hzero eq_refl Hdraw) as (_ & _ & _ & Hdrop).
    apply Hdrop; reflexivity || discriminate.
  - destruct (defaultShouldSample_priority_rules
                (set_outcome Error demo_event)
                {| SampleOptions.slowThresholdMs := None;
                   SampleOptions.alwaysKeepSubscriptions := None;
                   SampleOptions.sampleRate := Some 0%Q |} (1 # 2)%Q)
      as (_ & _ & Hzero).
    destruct (Hzero eq_refl Hdraw) as (Hkeep & _).
    apply Hkeep. reflexivity.
Defined.

(** ** Events of different requests *)

Lemma run_op_frame b store op l w :
  l <> event b -> store <> Some l ->
  heap (exec (run_op b store op) w) !! l = heap w !! l.
Proof.
  intros Hb Hs.
  assert (Hst : forall ev, store = Some ev -> ev <> l) by congruence.
  destruct op; destruct store as [ev|]; try specialize (Hst ev eq_refl);
    to_heap; split_cases; rewrite ?lookup_alter_ne by congruence; reflexivity.
Qed.

Lemma run_op_transport b store op w :
  requests (exec (run_op b store op) w) = requests w /\
  timers (exec (run_op b store op) w) = timers w /\
  timers_made (exec (run_op b store op) w) = timers_made w.
Proof. destruct op; destruct store; to_heap; split_cases; auto. Qed.

Lemma run_ops_frame b store ops l w :
  l <> event b -> store <> Some l ->
  heap (run_ops b store ops w) !! l = heap w !! l.
Proof.
  intros Hb Hs. revert w. induction ops as [|op ops IH]; intros w; [reflexivity |].
  change (run_ops b store (op :: ops) w)
    with (run_ops b store ops (exec (run_op b store op) w)).
  rewrite IH. now apply run_op_frame.
Qed.

Lemma run_ops_transport b store ops w :
  requests (run_ops b store ops w) = requests w /\
  timers (run_ops b store ops w) = timers w.
Proof.
  revert w. induction ops as [|op ops IH]; intros w; [auto |].
  change (run_ops b store (op :: ops) w)
    with (run_ops b store ops (exec (run_op b store op) w)).
  destruct (IH (exec (run_op b store op) w)) as [-> ->].
  destruct (run_op_transport b store op w) as (-> & -> & _). auto.
Qed.

(** Calls keep every event object allocated. *)
Lemma run_op_allocated b store op l w :
  is_Some (heap (exec (run_op b store op) w) !! l) <-> is_Some (heap w !! l).
Proof.
  assert (H : field (fun _ => tt) l (exec (run_op b store op) w) =
              field (fun _ => tt) l w).
  { destruct op; to_heap; split_cases; preserved. }
  unfold field in H.
  destruct (heap (exec (run_op b store op) w) !! l), (heap w !! l);
    try discriminate H; split; intros Hs; eauto; now destruct Hs.
Qed.

Lemma run_ops_allocated b store ops l w :
  is_Some (heap (run_ops b store ops w) !! l) <-> is_Some (heap w !! l).
Proof.
  revert w. induction ops as [|op ops IH]; intros w; [reflexivity |].
  change (run_ops b store (op :: ops) w)
    with (run_ops b store ops (exec (run_op b store op) w)).
  rewrite IH. apply run_op_allocated.
Qed.

(** The constructor allocates a new object and touches no other one. *)
Lemma newWideEventBuilder_heap cfg w :
  let b := (newWideEventBuilder cfg w).1 in
  let w' := (newWideEventBuilder cfg w).2 in
  heap w !! event b = None /\
  is_Some (heap w' !! event b) /\
  forall l, l <> event b -> heap w' !! l = heap w !! l.
Proof.
  unfold newWideEventBuilder, createBaseEvent, alloc. to_heap.
  pose proof (is_fresh (dom (heap w))) as Hf.
  split; [now apply not_elem_of_dom |].
  split; [rewrite lookup_insert_eq; eauto |].
  intros l Hl. now rewrite lookup_insert_ne.
Qed.

Lemma newWideEventBuilder_transport cfg w :
  requests (newWideEventBuilder cfg w).2 = requests w /\
  timers (newWideEventBuilder cfg w).2 = timers w.
Proof. split; reflexivity. Qed.

Lemma newWideEventBuilder_allocated cfg w l :
  is_Some (heap w !! l) -> is_Some (heap (newWideEventBuilder cfg w).2 !! l).
Proof.
  intros Hl. destruct (newWideEventBuilder_heap cfg w) as (Hfresh & _ & Hkeep).
  rewrite Hkeep; [exact Hl |]. intros ->. rewrite Hfresh in Hl. now destruct Hl.
Qed.

(** ** The batching transport *)

#[local] Arguments serializable : simpl never.
#[local] Arguments objects : simpl never.

Ltac to_world :=
  unfold launched, elsewhere, send, flush_begin, flush_resume, setTimeout,
    clearTimeout, fetch, deref, deref_all, getenv, console_write, exec, bind,
    ret;
  simpl.

Lemma with_console_same w : with_console (console w) w = w.
Proof. now destruct w. Qed.

(** Everything the synchronous part of [flush()] does. *)
Lemma flush_begin_spec a w :
  let r := flush_begin a w in
  let states := objects (heap w) (pendingEvents a) in
  let tries :=
    negb (bool_decide (pendingEvents a = []))
    && negb (String.eqb (token a) "") in
  let sends := tries && forallb serializable states in
  r.1.1 = set_pendingEvents [] (set_flushTimeout None a) /\
  timers r.2 = match flushTimeout a with
               | Some id => delete id (timers w)
               | None => timers w
               end /\
  timers_made r.2 = timers_made w /\
  heap r.2 = heap w /\
  r.1.2 = (if sends then Some (pendingEvents a) else None) /\
  requests r.2 =
    requests w ++ (if sends then [ingest_request a states] else []) /\
  console r.2 =
    console w ++ (if tries && negb (forallb serializable states)
                  then [ErrorSending] else []).
Proof.
  destruct a as [ds tok dbg base q [id|]]; to_world;
    (destruct q as [|ev q]; simpl; rewrite ?app_nil_r;
     [repeat split; reflexivity |]);
    (destruct (String.eqb tok ""); simpl; rewrite ?app_nil_r;
     [repeat split; reflexivity |]);
    unfold JSON_stringify;
    destruct (forallb serializable _); simpl; rewrite ?app_nil_r;
    repeat split; reflexivity.
Qed.

Lemma boot_world cfg w :
  requests (world (boot cfg w)) = requests w /\
  timers (world (boot cfg w)) = timers w /\
  heap (world (boot cfg w)) = heap w /\
  pendingEvents (adapter (boot cfg w)) = [] /\
  flushTimeout (adapter (boot cfg w)) = None /\
  inflight (boot cfg w) = [] /\
  token (adapter (boot cfg w)) =
    or_str (or_else (WideEventConfig.token cfg) (env w !! "AXIOM_TOKEN")) "".
Proof.
  unfold boot, newAxiomAdapter. to_world.
  destruct (_ && _); simpl; repeat split; reflexivity.
Qed.

#[local] Opaque Nat.leb.

(** [send(event)] on a location that holds no object. *)
Lemma send_dangling a ev w :
  heap w !! ev = None -> send a ev w = (inr (a, None), w).
Proof. intros He. unfold send, deref, bind, ret. now rewrite He. Qed.

(** [send(event)] throws exactly when the debug line cannot be written, and
    then nothing has changed. *)
Lemma send_throws a ev w e :
  heap w !! ev = Some e -> debug a = true -> serializable e = false ->
  send a ev w = (inl CannotSerialize, w).
Proof.
  intros He Hd Hs. unfold send, deref, bind, ret. now rewrite He, Hd, Hs.
Qed.

(** Everything [send(event)] does when it returns. *)
Lemma send_returns a ev w e :
  heap w !! ev = Some e ->
  debug a = false \/ serializable e = true ->
  exists c,
    let w1 := with_console c w in
    let q := pendingEvents a ++ [ev] in
    send a ev w =
      if String.eqb (token a) "" then (inr (a, None), w1)
      else if (10 <=? length q)%nat then
        (inr (flush_begin (set_pendingEvents q a) w1).1,
         (flush_begin (set_pendingEvents q a) w1).2)
      else
        match flushTimeout a with
        | Some _ => (inr (set_pendingEvents q a, None), w1)
        | None =>
            (inr (set_flushTimeout (Some (timers_made w)) (set_pendingEvents q a),
                  None),
             with_timers (<[timers_made w := 100]> (timers w))
                         (S (timers_made w)) w1)
        end.
Proof.
  intros He Hok.
  assert (Hgo : debug a && negb (serializable e) = false).
  { destruct Hok as [-> | ->]; [reflexivity | apply andb_false_r]. }
  exists (console w ++ (if debug a then [LogEvent e] else [])
                    ++ (if String.eqb (token a) ""
                           && bool_decide (env w !! "NODE_ENV" = Some "development")
                        then [LogLocal (outcome e) (method (request e))
                                (path (request e)) (duration_ms (request e))]
                        else [])).
  cbv zeta. unfold send, deref. unfold bind at 1. cbn [fst snd]. rewrite He, Hgo.
  destruct a as [ds tok dbg base q t]. cbn [debug token pendingEvents flushTimeout].
  destruct (String.eqb tok "") eqn:Htok.
  - unfold getenv, console_write, bind, ret. cbn [fst snd].
    destruct dbg; cbn [fst snd];
      (destruct (decide (env _ !! "NODE_ENV" = Some "development")) as [Hdev|Hdev];
       [rewrite (bool_decide_eq_true_2 _ Hdev)
       | rewrite (bool_decide_eq_false_2 _ Hdev)]);
      cbn [andb app]; unfold with_console; cbn; rewrite ?app_nil_r, <- ?app_assoc;
      try reflexivity; destruct w; reflexivity.
  - cbn [andb]. rewrite app_nil_r.
    destruct (10 <=? length (q ++ [ev]))%nat eqn:Hlen.
    + unfold console_write, bind, ret. cbn [fst snd set_pendingEvents pendingEvents].
      rewrite Hlen.
      destruct dbg; cbn [fst snd]; rewrite ?app_nil_r, ?with_console_same;
        now destruct (flush_begin _ _) as [[a' b'] w'].
    + unfold console_write, setTimeout, bind, ret.
      cbn [fst snd set_pendingEvents pendingEvents flushTimeout]. rewrite Hlen.
      destruct dbg, t; cbn [fst snd]; rewrite ?app_nil_r, ?with_console_same;
        try reflexivity; destruct w; reflexivity.
Qed.

(** One [send] section of the adapter, by case. *)
Lemma step_send s ev :
  exists c,
    let w1 := with_console c (world s) in
    let q := pendingEvents (adapter s) ++ [ev] in
    let a := set_pendingEvents q (adapter s) in
    step s (ASend ev) =
      if accepts s ev then
        if (10 <=? length q)%nat then launched s (flush_begin a w1)
        else
          match flushTimeout (adapter s) with
          | Some _ => {| adapter := a; world := w1; inflight := inflight s |}
          | None =>
              {| adapter := set_flushTimeout (Some (timers_made (world s))) a;
                 world := with_timers
                            (<[timers_made (world s) := 100]> (timers (world s)))
                            (S (timers_made (world s))) w1;
                 inflight := inflight s |}
          end
      else elsewhere s w1.
Proof.
  unfold accepts. cbn [step].
  destruct (heap (world s) !! ev) as [e|] eqn:He.
  - destruct (decide (debug (adapter s) = true /\ serializable e = false))
      as [[Hd Hs] | Hno].
    + exists (console (world s)).
      rewrite (send_throws _ _ _ _ He Hd Hs), with_console_same, Hd, Hs.
      cbn [negb orb]. now rewrite andb_false_r.
    + assert (Hok : debug (adapter s) = false \/ serializable e = true).
      { destruct (debug (adapter s)), (serializable e); auto.
        all: exfalso; now apply Hno. }
      destruct (send_returns (adapter s) ev (world s) e He Hok) as [c Hc].
      exists c. cbv zeta in *. rewrite Hc.
      assert (Hyes : negb (debug (adapter s)) || serializable e = true).
      { destruct Hok as [-> | ->]; [reflexivity | apply orb_true_r]. }
      rewrite Hyes, andb_true_r.
      destruct (String.eqb (token (adapter s)) ""); cbn [negb];
        [unfold launched, elsewhere; cbn [fst snd option_list];
         now rewrite app_nil_r |].
      destruct (10 <=? _)%nat;
        [now destruct (flush_begin _ _) as [[a' b'] w'] |].
      destruct (flushTimeout (adapter s));
        unfold launched; cbn [fst snd option_list];
        now rewrite app_nil_r.
  - exists (console (world s)).
    rewrite (send_dangling _ _ _ He), with_console_same, andb_false_r.
    unfold launched, elsewhere. cbn [fst snd option_list]. now rewrite app_nil_r.
Qed.

Lemma boot_ok cfg w : timers w = ∅ -> adapter_ok (boot cfg w).
Proof.
  intros Ht. unfold boot, newAxiomAdapter. to_world.
  destruct (_ && _); simpl; split; simpl; auto.
Qed.

Lemma flush_begin_ok s w :
  (timers w = timers (world s) \/
   exists id, flushTimeout (adapter s) = Some id /\
              timers w = delete id (timers (world s))) ->
  adapter_ok s ->
  adapter_ok (launched s (flush_begin (adapter s) w)).
Proof.
  intros Hw [Htok Htim].
  destruct (flush_begin_spec (adapter s) w) as (Ha & Ht & _).
  split; unfold launched; simpl; rewrite Ha; simpl; [reflexivity |].
  rewrite Ht. destruct Hw as [-> | (id & Hid & ->)]; rewrite Htim.
  - destruct (flushTimeout (adapter s)); [apply delete_singleton_eq | reflexivity].
  - rewrite Hid, delete_singleton_eq. apply delete_empty.
Qed.

Lemma flush_resume_world a events r w :
  heap (exec (flush_resume a events r) w) = heap w /\
  timers (exec (flush_resume a events r) w) = timers w /\
  timers_made (exec (flush_resume a events r) w) = timers_made w /\
  requests (exec (flush_resume a events r) w) = requests w.
Proof.
  destruct r as [|[] status [t|] [rem|]]; to_world;
    try destruct (debug a); try destruct (String.eqb rem "");
    repeat split; reflexivity.
Qed.

Lemma step_ok s act : adapter_ok s -> adapter_ok (step s act).
Proof.
  intros Hok. destruct act as [ev| |id|i r|cfg|b store ops]; cbn [step].
  - destruct (step_send s ev) as [c Hc]. cbv zeta in Hc. cbn [step] in Hc.
    rewrite Hc. clear Hc. destruct Hok as [Htok Htim].
    destruct (accepts s ev) eqn:Hacc; [| now split].
    destruct (10 <=? _)%nat.
    + destruct (flush_begin_spec
                  (set_pendingEvents (pendingEvents (adapter s) ++ [ev])
                     (adapter s)) (with_console c (world s)))
        as (Ha & Ht & _).
      split; unfold launched; cbn [adapter world fst snd]; rewrite Ha;
        [reflexivity |].
      rewrite Ht. cbn [set_pendingEvents set_flushTimeout flushTimeout
                       with_console timers].
      rewrite Htim.
      destruct (flushTimeout (adapter s));
        [apply delete_singleton_eq | reflexivity].
    + unfold accepts in Hacc. apply andb_true_iff in Hacc as [Hne _].
      apply negb_true_iff, String.eqb_neq in Hne.
      destruct (flushTimeout (adapter s)) as [id|] eqn:Hid;
        split; cbn; try contradiction; rewrite ?Hid, Htim;
        [reflexivity | apply insert_empty].
  - apply flush_begin_ok; [now left | exact Hok].
  - destruct (timers (world s) !! id) as [d|] eqn:Hd; [| exact Hok].
    apply flush_begin_ok; [| exact Hok].
    right. exists id. split; [| reflexivity].
    destruct Hok as [_ Htim]. rewrite Htim in Hd.
    destruct (flushTimeout (adapter s)) as [id'|]; [| now rewrite lookup_empty in Hd].
    apply lookup_singleton_Some in Hd as [-> _]. reflexivity.
  - destruct (inflight s !! i) as [events|]; [| exact Hok].
    destruct Hok as [Htok Htim]. split; simpl; [exact Htok |].
    now rewrite (proj1 (proj2 (flush_resume_world _ _ _ _))).
  - destruct Hok as [Htok Htim]. split; [exact Htok |]. exact Htim.
  - destruct Hok as [Htok Htim]. split; [exact Htok |]. cbn [elsewhere world adapter].
    now rewrite (proj2 (run_ops_transport b store ops (world s))).
Qed.

Lemma run_ok acts s : adapter_ok s -> adapter_ok (run acts s).
Proof.
  revert s. induction acts as [|act acts IH]; intros s Hok; [exact Hok |].
  apply IH. now apply step_ok.
Qed.

Lemma reachable_ok cfg w0 acts :
  timers w0 = ∅ -> adapter_ok (run acts (boot cfg w0)).
Proof. intros Ht. apply run_ok, boot_ok, Ht. Qed.


(** The queue between two sections: it is empty exactly when no flush is
    scheduled, it holds fewer than 10 references, and every one of them
    names an object. *)
Lemma boot_queue_ok cfg w : queue_ok (boot cfg w).
Proof.
  destruct (boot_world cfg w) as (_ & _ & _ & Hq & Hto & _).
  split; rewrite ?Hq, ?Hto; simpl; [tauto | lia | constructor].
Qed.

Lemma flush_begin_queue_ok s w :
  queue_ok (launched s (flush_begin (adapter s) w)).
Proof.
  destruct (flush_begin_spec (adapter s) w) as (Ha & _).
  split; unfold launched; cbn [adapter world fst snd]; rewrite Ha; simpl;
    [tauto | lia | constructor].
Qed.

Lemma step_queue_ok s act : queue_ok s -> queue_ok (step s act).
Proof.
  intros Hok. destruct act as [ev| |id|i r|cfg|b store ops]; cbn [step].
  - destruct (step_send s ev) as [c Hc]. cbv zeta in Hc. cbn [step] in Hc.
    rewrite Hc. clear Hc. destruct Hok as [Hiff Hlen Hall].
    destruct (accepts s ev) eqn:Hacc; [| now split].
    destruct (Nat.leb_spec 10 (length (pendingEvents (adapter s) ++ [ev])))
      as [Hl|Hl].
    + destruct (flush_begin_spec
                  (set_pendingEvents (pendingEvents (adapter s) ++ [ev])
                     (adapter s)) (with_console c (world s)))
        as (Ha & _).
      split; unfold launched; cbn [adapter world fst snd]; rewrite Ha; simpl;
        [tauto | lia | constructor].
    + assert (Hev : is_Some (heap (world s) !! ev)).
      { unfold accepts in Hacc. apply andb_true_iff in Hacc as [_ Hacc].
        destruct (heap (world s) !! ev); [eauto | discriminate Hacc]. }
      destruct (flushTimeout (adapter s)) as [id|] eqn:Hid;
        split; cbn; rewrite ?Hid; try exact Hl;
        try (apply Forall_app; split; [exact Hall | now constructor]);
        split; intros H; try discriminate H;
        now destruct (pendingEvents (adapter s)).
  - apply flush_begin_queue_ok.
  - destruct (timers (world s) !! id); [apply flush_begin_queue_ok | exact Hok].
  - destruct (inflight s !! i) as [events|]; [| exact Hok].
    destruct Hok as [Hiff Hlen Hall]. split; cbn; try assumption.
    now rewrite (proj1 (flush_resume_world _ _ _ _)).
  - destruct Hok as [Hiff Hlen Hall]. split; cbn; try assumption.
    eapply Forall_impl; [exact Hall |]. intros l.
    apply newWideEventBuilder_allocated.
  - destruct Hok as [Hiff Hlen Hall]. split; cbn; try assumption.
    eapply Forall_impl; [exact Hall |]. intros l.
    apply run_ops_allocated.
Qed.

Lemma run_queue_ok acts s : queue_ok s -> queue_ok (run acts s).
Proof.
  revert s. induction acts as [|act acts IH]; intros s Hok; [exact Hok |].
  apply IH. now apply step_queue_ok.
Qed.

Lemma reachable_queue_ok cfg w0 acts : queue_ok (run acts (boot cfg w0)).
Proof. apply run_queue_ok, boot_queue_ok. Qed.

(** References that all name an object have as many objects behind them. *)
Lemma length_objects h refs :
  Forall (fun l => is_Some (h !! l)) refs ->
  length (objects h refs) = length refs.
Proof.
  unfold objects. induction 1 as [|l refs [e He] _ IH]; [reflexivity |].
  cbn [omap list_omap]. rewrite He. cbn [length]. now rewrite IH.
Qed.

(** The settings of the adapter never change. *)
Lemma step_settings a0 s act :
  same_settings a0 (adapter s) -> same_settings a0 (adapter (step s act)).
Proof.
  intros Hs.
  assert (Hflush : forall a w,
             same_settings a0 a ->
             same_settings a0 (adapter (launched s (flush_begin a w)))).
  { intros a w Ha. unfold launched; cbn [adapter].
    now rewrite (proj1 (flush_begin_spec a w)). }
  destruct act as [ev| |id|i r|cfg|b store ops]; cbn [step].
  - destruct (step_send s ev) as [c Hc]. cbv zeta in Hc. cbn [step] in Hc.
    rewrite Hc. clear Hc.
    destruct (accepts s ev); [| exact Hs].
    destruct (10 <=? _)%nat; [now apply Hflush |].
    now destruct (flushTimeout (adapter s)).
  - now apply Hflush.
  - destruct (timers (world s) !! id); [now apply Hflush | exact Hs].
  - now destruct (inflight s !! i).
  - exact Hs.
  - exact Hs.
Qed.

Lemma run_settings a0 acts s :
  same_settings a0 (adapter s) -> same_settings a0 (adapter (run acts s)).
Proof.
  revert s. induction acts as [|act acts IH]; intros s Hs; [exact Hs |].
  apply IH. now apply step_settings.
Qed.

Lemma ingest_request_settings a0 a q :
  same_settings a0 a -> ingest_request a q = ingest_request a0 q.
Proof. intros (Hd & Ht & _ & Hb). unfold ingest_request. now rewrite Hd, Ht, Hb. Qed.

(** The requests one section issues: none, or one carrying the objects of
    the whole queue. *)
Lemma step_new_requests a0 s act :
  same_settings a0 (adapter s) ->
  queue_ok s ->
  exists news,
    requests (world (step s act)) = requests (world s) ++ news /\
    Forall (request_of a0) news.
Proof.
  intros Hs [_ Hlen Hall].
  assert (Hflush : forall a w,
             same_settings a0 a ->
             requests w = requests (world s) ->
             (length (pendingEvents a) <= 10)%nat ->
             Forall (fun l => is_Some (heap w !! l)) (pendingEvents a) ->
             exists news,
               requests (world (launched s (flush_begin a w))) =
                 requests (world s) ++ news /\
               Forall (request_of a0) news).
  { intros a w Ha Hw Hl Hal.
    destruct (flush_begin_spec a w) as (_ & _ & _ & _ & _ & Hr & _).
    unfold launched; cbn [world snd]. rewrite Hr, Hw.
    eexists. split; [reflexivity |].
    destruct (_ && forallb _ _) eqn:Hsend; constructor; [| constructor].
    split; [apply (ingest_request_settings a0 _ _ Ha) |].
    cbn [ingest_request body]. rewrite (length_objects _ _ Hal).
    split; [| exact Hl].
    apply andb_true_iff in Hsend as [Htry _].
    apply andb_true_iff in Htry as [Hne _].
    destruct (pendingEvents a); [discriminate Hne | simpl; lia]. }
  assert (Hnone : forall w,
             requests w = requests (world s) ->
             exists news,
               requests w = requests (world s) ++ news /\
               Forall (request_of a0) news).
  { intros w ->. exists []. now rewrite app_nil_r. }
  destruct act as [ev| |id|i r|cfg|b store ops]; cbn [step].
  - destruct (step_send s ev) as [c Hc]. cbv zeta in Hc. cbn [step] in Hc.
    rewrite Hc. clear Hc.
    destruct (accepts s ev) eqn:Hacc; [| now apply Hnone].
    destruct (10 <=? _)%nat.
    + apply Hflush; [exact Hs | reflexivity | |].
      * cbn. rewrite length_app. simpl. lia.
      * cbn. apply Forall_app. split; [exact Hall |]. constructor; [| constructor].
        unfold accepts in Hacc. apply andb_true_iff in Hacc as [_ Hacc].
        destruct (heap (world s) !! ev); [eauto | discriminate Hacc].
    + destruct (flushTimeout (adapter s)); now apply Hnone.
  - apply Hflush; [exact Hs | reflexivity | lia | exact Hall].
  - destruct (timers (world s) !! id); [| now apply Hnone].
    apply Hflush; [exact Hs | reflexivity | lia | exact Hall].
  - destruct (inflight s !! i); [| now apply Hnone].
    apply Hnone. cbn [world].
    now rewrite (proj2 (proj2 (proj2 (flush_resume_world _ _ _ _)))).
  - now apply Hnone.
  - apply Hnone. cbn [elsewhere world].
    now rewrite (proj1 (run_ops_transport b store ops (world s))).
Qed.

(** Requests already issued are never changed, only followed by new ones,
    each for the adapter's endpoint and holding between 1 and 10 events. *)
Lemma run_new_requests a0 acts s :
  same_settings a0 (adapter s) ->
  queue_ok s ->
  exists news,
    requests (world (run acts s)) = requests (world s) ++ news /\
    Forall (request_of a0) news.
Proof.
  revert s. induction acts as [|act acts IH]; intros s Hs Hok.
  - exists []. now rewrite app_nil_r.
  - change (run (act :: acts) s) with (run acts (step s act)).
    destruct (step_new_requests a0 s act Hs Hok) as (n1 & Hr1 & Hf1).
    destruct (IH (step s act) (step_settings _ _ _ Hs) (step_queue_ok _ _ Hok))
      as (n2 & Hr2 & Hf2).
    exists (n1 ++ n2). rewrite Hr2, Hr1, app_assoc.
    split; [reflexivity | now apply Forall_app].
Qed.

Lemma run_requests_prefix acts s :
  queue_ok s ->
  requests (world s) `prefix_of` requests (world (run acts s)).
Proof.
  intros Hok.
  destruct (run_new_requests (adapter s) acts s) as (news & -> & _);
    [now repeat split | exact Hok |].
  now apply prefix_app_r.
Qed.

(** The queue only ever grows by the references [send] accepts, at its end,
    and shrinks by being emptied: what is queued is always the last part of
    what was queued before followed by what was accepted since. *)
Lemma step_accepted s act :
  pendingEvents (adapter (step s act))
    `suffix_of` pendingEvents (adapter s) ++ accepted s [act].
Proof.
  assert (Hflush : forall a w k,
             pendingEvents (adapter (launched s (flush_begin a w)))
               `suffix_of` k).
  { intros a w k. unfold launched; cbn [adapter].
    rewrite (proj1 (flush_begin_spec a w)). apply suffix_nil. }
  destruct act as [ev| |id|i r|cfg|b store ops]; cbn [accepted];
    rewrite ?app_nil_r; cbn [step].
  - destruct (step_send s ev) as [c Hc]. cbv zeta in Hc. cbn [step] in Hc.
    rewrite Hc. clear Hc.
    destruct (accepts s ev); [| now rewrite app_nil_r].
    destruct (10 <=? _)%nat; [apply Hflush |].
    now destruct (flushTimeout (adapter s)).
  - apply Hflush.
  - destruct (timers (world s) !! id); [apply Hflush | reflexivity].
  - now destruct (inflight s !! i).
  - reflexivity.
  - reflexivity.
Qed.

Lemma accepted_cons s act acts :
  accepted s (act :: acts) = accepted s [act] ++ accepted (step s act) acts.
Proof. cbn [accepted]. now rewrite app_nil_r. Qed.

Lemma run_accepted acts s :
  pendingEvents (adapter (run acts s))
    `suffix_of` pendingEvents (adapter s) ++ accepted s acts.
Proof.
  revert s. induction acts as [|act acts IH]; intros s.
  - simpl. now rewrite app_nil_r.
  - change (run (act :: acts) s) with (run acts (step s act)).
    etransitivity; [apply IH |].
    rewrite accepted_cons, app_assoc.
    apply suffix_app, step_accepted.
Qed.

(** Where the references go: after any section the queue is the queue
    before followed by what the section accepted, or it is empty and all of
    those were handed to one [flush], which issued one request with the
    objects behind them unless [JSON.stringify] threw. *)
Lemma step_accounting s act :
  adapter_ok s ->
  let q := pendingEvents (adapter s) ++ accepted s [act] in
  let states := objects (heap (world s)) q in
  (pendingEvents (adapter (step s act)) = q /\
   requests (world (step s act)) = requests (world s)) \/
  (q <> [] /\
   pendingEvents (adapter (step s act)) = [] /\
   requests (world (step s act)) =
     requests (world s)
       ++ (if forallb serializable states
           then [ingest_request (adapter s) states] else [])).
Proof.
  intros [Htok _]. cbv zeta.
  assert (Hflush : forall a w,
             pendingEvents a <> [] -> token a <> ""%string ->
             pendingEvents (adapter (launched s (flush_begin a w))) = [] /\
             requests (world (launched s (flush_begin a w))) =
               requests w
                 ++ (if forallb serializable (objects (heap w) (pendingEvents a))
                     then [ingest_request a (objects (heap w) (pendingEvents a))]
                     else [])).
  { intros a w Hne Ht.
    destruct (flush_begin_spec a w) as (Ha & _ & _ & _ & _ & Hr & _).
    unfold launched; cbn [adapter world fst snd]. rewrite Ha, Hr.
    rewrite bool_decide_eq_false_2 by exact Hne.
    rewrite (proj2 (String.eqb_neq _ _) Ht). now split. }
  assert (Hidle : forall w,
             pendingEvents (adapter s) = [] ->
             pendingEvents (adapter (launched s (flush_begin (adapter s) w))) = [] /\
             requests (world (launched s (flush_begin (adapter s) w))) =
               requests w).
  { intros w Hq.
    destruct (flush_begin_spec (adapter s) w) as (Ha & _ & _ & _ & _ & Hr & _).
    unfold launched; cbn [adapter world fst snd]. rewrite Ha, Hr, Hq.
    simpl. now rewrite app_nil_r. }
  assert (Hnow : forall w,
             requests w = requests (world s) ->
             heap w = heap (world s) ->
             (pendingEvents (adapter (launched s (flush_begin (adapter s) w)))
                = pendingEvents (adapter s) ++ [] /\
              requests (world (launched s (flush_begin (adapter s) w)))
                = requests (world s)) \/
             (pendingEvents (adapter s) ++ [] <> [] /\
              pendingEvents (adapter (launched s (flush_begin (adapter s) w)))
                = [] /\
              requests (world (launched s (flush_begin (adapter s) w))) =
                requests (world s)
                  ++ (if forallb serializable
                           (objects (heap (world s))
                              (pendingEvents (adapter s) ++ []))
                      then [ingest_request (adapter s)
                              (objects (heap (world s))
                                 (pendingEvents (adapter s) ++ []))]
                      else []))).
  { intros w Hw Hh. rewrite app_nil_r.
    destruct (decide (pendingEvents (adapter s) = [])) as [Hq|Hq].
    - left. rewrite <- Hw. destruct (Hidle w Hq) as [H1 H2].
      split; [congruence | exact H2].
    - right. split; [exact Hq |]. rewrite <- Hw, <- Hh.
      apply Hflush; [exact Hq |].
      intros Ht. apply Hq, Htok, Ht. }
  destruct act as [ev| |id|i r|cfg|b store ops]; cbn [accepted];
    cbn [step].
  - destruct (step_send s ev) as [c Hc]. cbv zeta in Hc. cbn [step] in Hc.
    rewrite Hc. clear Hc.
    destruct (accepts s ev) eqn:Hacc.
    + cbn [app]. destruct (10 <=? _)%nat.
      * right. split; [now destruct (pendingEvents (adapter s)) |].
        apply (Hflush (set_pendingEvents (pendingEvents (adapter s) ++ [ev])
                         (adapter s)) (with_console c (world s))).
        -- cbn. now destruct (pendingEvents (adapter s)).
        -- unfold accepts in Hacc. apply andb_true_iff in Hacc as [Hne _].
           now apply negb_true_iff, String.eqb_neq in Hne.
      * left. now destruct (flushTimeout (adapter s)).
    + left. cbn. now rewrite app_nil_r.
  - now apply Hnow.
  - destruct (timers (world s) !! id); [now apply Hnow |].
    left. now rewrite app_nil_r.
  - left. rewrite app_nil_r. destruct (inflight s !! i); [| now split].
    cbn [adapter world]. split; [reflexivity |].
    now rewrite (proj2 (proj2 (proj2 (flush_resume_world _ _ _ _)))).
  - left. rewrite app_nil_r. now split.
  - left. rewrite app_nil_r. cbn [elsewhere adapter world].
    now rewrite (proj1 (run_ops_transport b store ops (world s))).
Qed.

Lemma flush_resume_logs_failure a events r w :
  failed r = true ->
  exists line rest,
    console (exec (flush_resume a events r) w) = console w ++ line :: rest /\
    error_line line.
Proof.
  destruct r as [|[] status [t|] rem]; intros Hf; try discriminate Hf;
    to_world; unfold error_line.
  - exists ErrorSending, []. auto.
  - destruct (or_else rem None); simpl.
    + eexists _, [_]. rewrite <- app_assoc. simpl. split; [reflexivity |].
      right. eauto.
    + eexists _, []. split; [reflexivity |]. right. eauto.
  - exists ErrorSending, []. auto.
Qed.

(** When the timeout [flushTimeout] remembers fires, [flush] is what runs. *)
Lemma timeout_runs_flush s id :
  flushTimeout (adapter s) = Some id ->
  is_Some (timers (world s) !! id) ->
  step s (ATimeout id) = step s AFlush.
Proof.
  intros Hto [d Hd]. cbn [step]. rewrite Hd.
  destruct s as [[ds tok dbg base q t] w fl]. simpl in *. subst t.
  unfold launched, flush_begin. to_world.
  rewrite delete_delete_eq.
  destruct q as [|x q]; simpl; [reflexivity |].
  destruct (String.eqb tok ""); [reflexivity |].
  unfold JSON_stringify. now destruct (forallb serializable _).
Qed.





(** C5, as the code has it.  [flush()] always cancels the scheduled flush
    and leaves the queue empty.  With an empty queue it issues no request.
    Otherwise the whole queue is swapped out: when [JSON.stringify] can
    encode the objects behind it, one ingest request carrying all of them is
    issued; when it throws, no request is issued, the failure is written to
    the console and the batch is gone.  Whatever runs later leaves the
    requests issued as they are, and the queue then holds only references
    accepted since, so nothing of the batch returns to it; every later
    section either leaves in the queue what was there and what it accepted,
    or empties the queue into exactly one batch.  When the answer
    arrives, the adapter is left untouched (nothing is put back in the queue,
    nothing is sent again), and a failure, whether a non-success response or
    a rejected call, is written to the console. *)
Theorem flush_swaps_queue_out_and_never_requeues
    (cfg : WideEventConfig.t) (w0 : World) (acts : list Action) :
  timers w0 = ∅ ->
  let s := run acts (boot cfg w0) in
  let s' := step s AFlush in
  let batch := pendingEvents (adapter s) in
  let states := objects (heap (world s)) batch in
  (flushTimeout (adapter s') = None /\ timers (world s') = ∅) /\
  pendingEvents (adapter s') = [] /\
  (batch = [] ->
   requests (world s') = requests (world s) /\ inflight s' = inflight s) /\
  length states = length batch /\
  (batch <> [] -> forallb serializable states = true ->
   requests (world s') =
     requests (world s) ++ [ingest_request (adapter s) states] /\
   inflight s' = inflight s ++ [batch]) /\
  (batch <> [] -> forallb serializable states = false ->
   requests (world s') = requests (world s) /\
   inflight s' = inflight s /\
   console (world s') = console (world s) ++ [ErrorSending]) /\
  (forall more,
      requests (world s') `prefix_of` requests (world (run more s')) /\
      pendingEvents (adapter (run more s')) `suffix_of` accepted s' more) /\
  (forall more act,
      let s1 := run more s' in
      let s2 := step s1 act in
      let q := pendingEvents (adapter s1) ++ accepted s1 [act] in
      let later := objects (heap (world s1)) q in
      (pendingEvents (adapter s2) = q /\
       requests (world s2) = requests (world s1)) \/
      (q <> [] /\
       pendingEvents (adapter s2) = [] /\
       requests (world s2) =
         requests (world s1)
           ++ (if forallb serializable later
               then [ingest_request (adapter s) later] else []))) /\
  (forall more i r,
      let s1 := run more s' in
      let s2 := step s1 (ASettle i r) in
      adapter s2 = adapter s1 /\
      requests (world s2) = requests (world s1) /\
      timers (world s2) = timers (world s1) /\
      (forall batch1,
          inflight s1 !! i = Some batch1 ->
          failed r = true ->
          exists line rest,
            console (world s2) = console (world s1) ++ line :: rest /\
            error_line line)).
Proof.
  intros Ht s s' batch states.
  pose proof (reachable_ok cfg w0 acts Ht) as Hok. fold s in Hok.
  pose proof (reachable_queue_ok cfg w0 acts) as Hqok. fold s in Hqok.
  pose proof (step_ok s AFlush Hok) as Hok'. fold s' in Hok'.
  pose proof (step_queue_ok s AFlush Hqok) as Hqok'. fold s' in Hqok'.
  destruct (flush_begin_spec (adapter s) (world s))
    as (Ha & _ & _ & _ & Hb & Hr & Hcon).
  fold batch states in Hb, Hr, Hcon.
  assert (Ha' : adapter s' = set_pendingEvents [] (set_flushTimeout None (adapter s)))
    by exact Ha.
  assert (Htries : batch <> [] ->
                   negb (bool_decide (batch = []))
                   && negb (String.eqb (token (adapter s)) "") = true).
  { intros Hne. rewrite bool_decide_eq_false_2 by exact Hne.
    destruct (String.eqb (token (adapter s)) "") eqn:Htok; [| reflexivity].
    apply String.eqb_eq in Htok. now apply (ok_no_token s Hok) in Htok. }
  split; [| split; [| split; [| split; [| split; [| split; [| split; [| split]]]]]]].
  - pose proof (ok_timers s' Hok') as Htim. rewrite Ha' in Htim.
    rewrite Ha'. split; [reflexivity | exact Htim].
  - now rewrite Ha'.
  - intros Hq. subst s'. cbn [step]. unfold launched. cbn [world inflight].
    rewrite Hr, Hb, Hq. simpl. now rewrite !app_nil_r.
  - apply length_objects, (ok_allocated s Hqok).
  - intros Hq Hser. subst s'. cbn [step]. unfold launched. cbn [world inflight].
    rewrite Hr, Hb, (Htries Hq), Hser. split; reflexivity.
  - intros Hq Hser. subst s'. cbn [step]. unfold launched. cbn [world inflight].
    rewrite Hr, Hb, Hcon, (Htries Hq), Hser. simpl. now rewrite !app_nil_r.
  - intros more. split; [now apply run_requests_prefix |].
    pose proof (run_accepted more s') as Hacc.
    now rewrite Ha' in Hacc.
  - intros more act s1 s2 q later.
    assert (Hset : same_settings (adapter s) (adapter s1)).
    { subst s1. apply run_settings. subst s'. apply step_settings.
      now repeat split. }
    rewrite <- (ingest_request_settings (adapter s) (adapter s1) later Hset).
    apply (step_accounting s1 act). subst s1. now apply run_ok.
  - intros more i r s1 s2. subst s2. cbn [step].
    destruct (inflight s1 !! i) as [events|] eqn:Hi.
    + cbn [adapter world].
      destruct (flush_resume_world (adapter s1) events r (world s1))
        as (_ & Hti & _ & Hreq).
      repeat split; try assumption.
      intros batch1 _ Hf. now apply flush_resume_logs_failure.
    + repeat split. intros batch1 Hbatch. discriminate Hbatch.
Qed.

Lemma flush_swaps_queue_out_and_never_requeues_witness :
  body <$> requests
             (world (step (run [ASend 0%nat; ASend 1%nat]
                             (boot demo_config demo_events)) AFlush)) =
    [[demo_event; demo_base_event]] /\
  pendingEvents
    (adapter (step (run [ASend 0%nat; ASend 1%nat]
                      (boot demo_config demo_events)) AFlush)) = [].
Proof.
  destruct (flush_swaps_queue_out_and_never_requeues demo_config demo_events
              [ASend 0%nat; ASend 1%nat] eq_refl)
    as (_ & Hq & _ & _ & Hne & _).
  split; [| exact Hq].
  destruct Hne as (Hreq & _);
    [vm_compute; discriminate | vm_compute; reflexivity |].
  rewrite Hreq. vm_compute. reflexivity.
Defined.

(** C5 as stated fails: a queued event whose [business] holds a BigInt
    makes [JSON.stringify] throw inside [flush()]; the queue was not empty,
    yet no ingest request is issued, and the queue is empty afterwards. *)
Lemma flush_drops_a_batch_it_cannot_serialize :
  pendingEvents
    (adapter (run [ASend 0%nat; ASend 2%nat] (boot demo_config demo_events)))
    = [0; 2]%nat /\
  requests
    (world (step (run [ASend 0%nat; ASend 2%nat] (boot demo_config demo_events))
                 AFlush)) = [] /\
  pendingEvents
    (adapter (step (run [ASend 0%nat; ASend 2%nat]
                      (boot demo_config demo_events)) AFlush)) = [] /\
  console
    (world (step (run [ASend 0%nat; ASend 2%nat] (boot demo_config demo_events))
                 AFlush)) = [ErrorSending] /\
  requests
    (world (step (run [ASend 0%nat; ASend 2%nat] (boot demo_config demo_events))
                 AFlush))
  = requests
      (world (run [ASend 0%nat; ASend 2%nat] (boot demo_config demo_events))).
Proof.
  split; [vm_compute; reflexivity |].
  split; [vm_compute; reflexivity |].
  split; [vm_compute; reflexivity |].
  split; [vm_compute; reflexivity |].
  vm_compute. reflexivity.
Qed.

(** * Further properties *)

(** ** Events of different requests, again *)

(** X1: calls made for one request leave every other event in the heap as
    it is, and never touch the transport: whatever is called on a builder,
    and through the context in that builder's scope or outside any scope, an
    event other than the builder's reads the same afterwards, and no ingest
    request or timeout is created. *)
Theorem calls_on_one_event_leave_the_others
    (b : WideEventBuilder) (store : option loc) (ops : list Op) (l : loc)
    (w : World) :
  l <> event b ->
  store <> Some l ->
  heap (run_ops b store ops w) !! l = heap w !! l /\
  requests (run_ops b store ops w) = requests w /\
  timers (run_ops b store ops w) = timers w.
Proof.
  intros Hb Hs. split; [now apply run_ops_frame | apply run_ops_transport].
Qed.

Lemma calls_on_one_event_leave_the_others_witness :
  heap (run_ops demo_builder (Some (event demo_builder))
          [OpWithStatusCode 503; OpEnrichEvent demo_enrichment]
          (with_heap (<[7%nat := demo_event]> (heap demo_started)) demo_started))
    !! 7%nat = Some demo_event.
Proof.
  rewrite (proj1 (calls_on_one_event_leave_the_others demo_builder
                    (Some (event demo_builder))
                    [OpWithStatusCode 503; OpEnrichEvent demo_enrichment]
                    7%nat
                    (with_heap (<[7%nat := demo_event]> (heap demo_started))
                       demo_started)
                    ltac:(vm_compute; discriminate)
                    ltac:(vm_compute; discriminate))).
  vm_compute. reflexivity.
Defined.

(** X2: two builders constructed one after the other hold different event
    objects, the second construction leaves the first event as it is, and
    so does every call made on the second builder and in its scope. *)
Theorem successive_builders_do_not_share_events
    (cfg1 cfg2 : WideEventConfig.t) (w0 : World) (ops : list Op) :
  let b1 := (newWideEventBuilder cfg1 w0).1 in
  let w1 := (newWideEventBuilder cfg1 w0).2 in
  let b2 := (newWideEventBuilder cfg2 w1).1 in
  let w2 := (newWideEventBuilder cfg2 w1).2 in
  event b1 <> event b2 /\
  is_Some (heap w1 !! event b1) /\
  heap w2 !! event b1 = heap w1 !! event b1 /\
  heap (run_ops b2 (Some (event b2)) ops w2) !! event b1 =
    heap w1 !! event b1.
Proof.
  intros b1 w1 b2 w2.
  destruct (newWideEventBuilder_heap cfg1 w0) as (_ & Hin1 & _).
  destruct (newWideEventBuilder_heap cfg2 w1) as (Hfresh2 & _ & Hkeep2).
  fold b1 w1 in Hin1. fold b2 w2 in Hfresh2, Hkeep2.
  assert (Hne : event b1 <> event b2).
  { intros Heq. rewrite Heq, Hfresh2 in Hin1. now destruct Hin1. }
  split; [exact Hne |]. split; [exact Hin1 |].
  split; [now apply Hkeep2 |].
  rewrite run_ops_frame; [now apply Hkeep2 | exact Hne | congruence].
Qed.

(** ** A recorded error stays *)

Lemma fmap_alter_true (p : WideEvent -> bool) g (l l' : loc)
    (h : gmap loc WideEvent) :
  (forall e, p e = true -> p (g e) = true) ->
  p <$> h !! l' = Some true -> p <$> alter g l h !! l' = Some true.
Proof.
  intros Hg Hp. destruct (decide (l = l')) as [->|Hne].
  - rewrite lookup_alter_eq. destruct (h !! l') as [e|]; simpl in *; [| discriminate].
    injection Hp as Hp. now rewrite Hg.
  - now rewrite lookup_alter_ne.
Qed.

Lemma run_op_error_stays b store op l w :
  field (fun e => present (error e)) l w = Some true ->
  field (fun e => present (error e)) l (exec (run_op b store op) w) = Some true.
Proof.
  intros H. destruct op; destruct store; unfold field in H; to_heap;
    split_cases;
    repeat (apply fmap_alter_true; [intros ? ?; simpl; auto |]);
    assumption.
Qed.

Lemma run_ops_error_stays b store ops l w :
  field (fun e => present (error e)) l w = Some true ->
  field (fun e => present (error e)) l (run_ops b store ops w) = Some true.
Proof.
  revert w. induction ops as [|op ops IH]; intros w H; [exact H |].
  change (run_ops b store (op :: ops) w)
    with (run_ops b store ops (exec (run_op b store op) w)).
  now apply IH, run_op_error_stays.
Qed.

(** X3: no call removes a recorded error.  Once [error] is present on an
    event it is present after any further calls on any builder or through
    the context, so the default sampler keeps the event for every option
    and every draw, and so does [keepOnlyErrors], even if a later
    [withStatusCode] has moved the outcome away from "error". *)
Theorem recorded_error_stays_and_is_always_kept
    (b : WideEventBuilder) (store : option loc) (ops : list Op) (l : loc)
    (w : World) (e : WideEvent) :
  heap w !! l = Some e ->
  is_Some (error e) ->
  exists e',
    heap (run_ops b store ops w) !! l = Some e' /\
    is_Some (error e') /\
    (forall options random, defaultShouldSample e' options random = true) /\
    keepOnlyErrors e' = true.
Proof.
  intros He [x Hx].
  assert (H : field (fun e => present (error e)) l w = Some true).
  { unfold field. rewrite He. simpl. now rewrite Hx. }
  apply (run_ops_error_stays b store ops) in H. unfold field in H.
  destruct (heap (run_ops b store ops w) !! l) as [e'|]; [| discriminate].
  injection H as H. exists e'. split; [reflexivity |].
  assert (His : is_Some (error e')) by (destruct (error e'); [eauto | discriminate]).
  split; [exact His |]. split.
  - intros options random. apply defaultShouldSample_true. tauto.
  - unfold keepOnlyErrors. rewrite H. apply orb_true_r.
Qed.

Lemma recorded_error_stays_and_is_always_kept_witness :
  exists e',
    heap (run_ops demo_builder None [OpWithStatusCode 404]
            (exec (withError demo_builder demo_error None) demo_started))
      !! event demo_builder = Some e' /\
    defaultShouldSample e'
      {| SampleOptions.slowThresholdMs := None;
         SampleOptions.alwaysKeepSubscriptions := None;
         SampleOptions.sampleRate := Some 0%Q |} (1 # 2)%Q = true.
Proof.
  destruct (recorded_error_stays_and_is_always_kept demo_builder None
              [OpWithStatusCode 404] (event demo_builder)
              (exec (withError demo_builder demo_error None) demo_started)
              (set_error (Some (error_info demo_error false))
                 (set_outcome Error demo_base_event)))
    as (e' & H' & _ & Hk & _).
  - vm_compute. reflexivity.
  - simpl. eauto.
  - exists e'. split; [exact H' | apply Hk].
Defined.

(** ** Finalising *)

Lemma run_op_clock b store op w :
  clock (exec (run_op b store op) w) = clock w /\
  (clock_read w <= clock_read (exec (run_op b store op) w))%nat.
Proof.
  destruct op; destruct store; to_heap; split_cases; split; auto with arith.
Qed.

Lemma run_ops_clock b store ops w :
  clock (run_ops b store ops w) = clock w /\
  (clock_read w <= clock_read (run_ops b store ops w))%nat.
Proof.
  revert w. induction ops as [|op ops IH]; intros w; [auto |].
  change (run_ops b store (op :: ops) w)
    with (run_ops b store ops (exec (run_op b store op) w)).
  destruct (IH (exec (run_op b store op) w)) as [-> Hle].
  destruct (run_op_clock b store op w) as [-> Hle']. split; [reflexivity | lia].
Qed.

Lemma newWideEventBuilder_clock cfg w :
  let b := (newWideEventBuilder cfg w).1 in
  let w' := (newWideEventBuilder cfg w).2 in
  startTime b = clock w (clock_read w) /\
  clock w' = clock w /\
  clock_read w' = S (S (clock_read w)).
Proof. unfold newWideEventBuilder, createBaseEvent, alloc. to_heap. auto. Qed.

Lemma build_lookup b w :
  heap (exec (build b) w) =
  alter (fun e => set_request
                    (set_duration_ms (clock w (clock_read w) - startTime b)
                       (request e)) e)
        (event b) (heap w).
Proof. reflexivity. Qed.

(** X4: [build()] stores in [request.duration_ms] the clock reading taken by
    that call minus the reading taken by the constructor, whatever was
    called in between, and changes nothing else in any event; with a clock
    that never goes back the duration is not negative. *)
Theorem build_stamps_elapsed_time
    (cfg : WideEventConfig.t) (w0 : World) (store : option loc)
    (ops : list Op) :
  let b := (newWideEventBuilder cfg w0).1 in
  let w1 := (newWideEventBuilder cfg w0).2 in
  let w2 := run_ops b store ops w1 in
  let w3 := exec (build b) w2 in
  let d := clock w0 (clock_read w2) - clock w0 (clock_read w0) in
  field (fun e => duration_ms (request e)) (event b) w3 = Some d /\
  (monotone_clock w0 -> 0 <= d) /\
  forall l,
    field (fun e => set_request (set_duration_ms 0 (request e)) e) l w3 =
    field (fun e => set_request (set_duration_ms 0 (request e)) e) l w2.
Proof.
  intros b w1 w2 w3 d.
  destruct (newWideEventBuilder_clock cfg w0) as (Hstart & Hclock & Hread).
  destruct (newWideEventBuilder_heap cfg w0) as (_ & Halloc & _).
  fold b w1 in Hstart, Hclock, Hread, Halloc.
  destruct (run_ops_clock b store ops w1) as [Hclock2 Hread2]. fold w2 in Hclock2, Hread2.
  apply (run_ops_allocated b store ops) in Halloc. fold w2 in Halloc.
  destruct Halloc as [e He].
  split; [| split].
  - unfold field. subst w3.
    rewrite build_lookup, lookup_alter_eq, He, Hclock2, Hclock, Hstart.
    reflexivity.
  - intros Hmono. subst d. specialize (Hmono (clock_read w0) (clock_read w2)).
    lia.
  - intros l. unfold field. subst w3. rewrite build_lookup.
    apply fmap_alter_preserved. intros e0. reflexivity.
Qed.

Lemma build_stamps_elapsed_time_witness :
  field (fun e => duration_ms (request e)) (event demo_builder)
    (exec (build demo_builder)
       (run_ops demo_builder None [OpBuild; OpWithStatusCode 200] demo_started))
  = Some 3 /\ 0 <= 3.
Proof.
  destruct (build_stamps_elapsed_time demo_config demo_world None
              [OpBuild; OpWithStatusCode 200]) as (Hd & Hpos & _).
  split; [exact Hd |].
  apply Hpos. intros i j Hij. simpl. lia.
Defined.

(** ** Request details *)

Lemma fromRawRequest_request b details w :
  field request (event b) (exec (fromRawRequest b details) w) =
    (fun e => {| method := RawRequest.method details;
                 path := RawRequest.path details;
                 query := RawRequest.query details;
                 duration_ms := duration_ms (request e);
                 status_code := status_code (request e);
                 ip := RawRequest.ip details;
                 user_agent := RawRequest.userAgent details |})
      <$> heap w !! event b.
Proof.
  to_heap. destruct (or_else (RawRequest.traceId details) None); simpl;
    rewrite ?lookup_alter_eq; now destruct (heap w !! event b).
Qed.

Lemma fromRequest_request b req traceId w :
  field request (event b) (exec (fromRequest b req traceId) w) =
    (fun e => {| method := WebRequest.method req;
                 path := WebRequest.pathname req;
                 query := Some (fromEntries (WebRequest.searchParams req));
                 duration_ms := duration_ms (request e);
                 status_code := status_code (request e);
                 ip := ip (request e);
                 user_agent :=
                   or_else (WebRequest.headers req !! "user-agent") None |})
      <$> heap w !! event b.
Proof.
  to_heap. destruct (or_else traceId _); simpl;
    rewrite ?lookup_alter_eq; now destruct (heap w !! event b).
Qed.

(** X5: the request setters do not merge.  After two [fromRawRequest] calls
    the [request] record is the one the second call alone would leave, and
    likewise for two [fromRequest] calls; both keep [status_code] and
    [duration_ms]; [fromRequest] keeps the [ip] an earlier [fromRawRequest]
    stored, while [fromRawRequest] overwrites [query], [ip] and
    [user_agent] even with absent values. *)
Theorem request_setters_last_call_wins
    (b : WideEventBuilder) (w : World) :
  (forall d1 d2,
      field request (event b)
        (exec (fromRawRequest b d2) (exec (fromRawRequest b d1) w)) =
      field request (event b) (exec (fromRawRequest b d2) w)) /\
  (forall r1 t1 r2 t2,
      field request (event b)
        (exec (fromRequest b r2 t2) (exec (fromRequest b r1 t1) w)) =
      field request (event b) (exec (fromRequest b r2 t2) w)) /\
  (forall d r t,
      field (fun e => ip (request e)) (event b)
        (exec (fromRequest b r t) (exec (fromRawRequest b d) w)) =
      (fun _ => RawRequest.ip d) <$> heap w !! event b) /\
  (forall d,
      field (fun e => (status_code (request e), duration_ms (request e)))
        (event b) (exec (fromRawRequest b d) w) =
      field (fun e => (status_code (request e), duration_ms (request e)))
        (event b) w) /\
  (forall r t,
      field (fun e => (status_code (request e), duration_ms (request e)))
        (event b) (exec (fromRequest b r t) w) =
      field (fun e => (status_code (request e), duration_ms (request e)))
        (event b) w).
Proof.
  split; [| split; [| split; [| split]]].
  - intros d1 d2. rewrite !fromRawRequest_request.
    pose proof (fromRawRequest_request b d1 w) as H1. unfold field in H1.
    destruct (heap (exec (fromRawRequest b d1) w) !! event b) as [e1|],
      (heap w !! event b) as [e|]; try discriminate H1; [| reflexivity].
    injection H1 as H1. simpl. now rewrite H1.
  - intros r1 t1 r2 t2. rewrite !fromRequest_request.
    pose proof (fromRequest_request b r1 t1 w) as H1. unfold field in H1.
    destruct (heap (exec (fromRequest b r1 t1) w) !! event b) as [e1|],
      (heap w !! event b) as [e|]; try discriminate H1; [| reflexivity].
    injection H1 as H1. simpl. now rewrite H1.
  - intros d r t.
    pose proof (fromRequest_request b r t (exec (fromRawRequest b d) w)) as H2.
    pose proof (fromRawRequest_request b d w) as H1. unfold field in H1, H2.
    unfold field.
    destruct (heap (exec (fromRequest b r t) (exec (fromRawRequest b d) w))
                !! event b) as [e2|],
      (heap (exec (fromRawRequest b d) w) !! event b) as [e1|],
      (heap w !! event b) as [e|]; try discriminate H1; try discriminate H2;
      [| reflexivity].
    injection H1 as H1. injection H2 as H2. simpl. now rewrite H2, H1.
  - intros d. to_heap. destruct (or_else (RawRequest.traceId d) None); simpl;
      preserved.
  - intros r t. to_heap. destruct (or_else t _); simpl; preserved.
Qed.

(** ** Enriching twice, and in either order *)

Lemma enrichEvent_heap l data w :
  heap (exec (enrichEvent (Some l) data) w) = alter (enriched data) l (heap w).
Proof.
  destruct data as [du db dp df]. to_heap. unfold enriched. simpl.
  destruct du, db, dp, df; simpl; rewrite ?alter_alter_eq;
    try (apply alter_ext; intros e _; reflexivity);
    symmetry; apply alter_id; intros e _; now destruct e.
Qed.

Lemma enriched_twice data e : enriched data (enriched data e) = enriched data e.
Proof.
  destruct data as [du db dp df]. unfold enriched. simpl.
  destruct du, db, dp, df; simpl;
    rewrite ?(assoc_L (∪)), ?(idemp_L (∪)); reflexivity.
Qed.

Lemma enriched_swap d1 d2 e :
  disjoint_inputs d1 d2 ->
  enriched d1 (enriched d2 e) = enriched d2 (enriched d1 e).
Proof.
  destruct d1 as [u1 b1 p1 f1], d2 as [u2 b2 p2 f2].
  unfold disjoint_inputs, enriched. simpl. intros (Hu & Hb & Hp & Hf).
  f_equal.
  - destruct u1, u2; simpl in *; try reflexivity.
    now rewrite !(assoc_L (∪)), (map_union_comm g g0).
  - destruct b1, b2; simpl in *; try reflexivity.
    now rewrite !(assoc_L (∪)), (map_union_comm g g0).
  - destruct p1, p2; simpl in *; try reflexivity.
    now rewrite !(assoc_L (∪)), (map_union_comm g g0).
  - destruct f1, f2; simpl in *; try reflexivity.
    now rewrite !(assoc_L (∪)), (map_union_comm g g0).
Qed.

(** X6: enriching with the same data twice leaves every event as enriching
    once does, inside a scope and outside. *)
Theorem enrichEvent_idempotent
    (store : option loc) (data : EnrichmentData.t) (w : World) :
  heap (exec (enrichEvent store data) (exec (enrichEvent store data) w)) =
  heap (exec (enrichEvent store data) w).
Proof.
  destruct store as [l|].
  - rewrite !enrichEvent_heap, alter_alter_eq.
    apply alter_ext. intros e _. apply enriched_twice.
  - to_heap. now destruct (decide _); simpl; destruct (decide _).
Qed.

(** X7: two enrichments whose inputs share no key in any field can be made
    in either order: the events are the same afterwards. *)
Theorem enrichEvent_commutes_on_disjoint_keys
    (store : option loc) (d1 d2 : EnrichmentData.t) (w : World) :
  disjoint_inputs d1 d2 ->
  heap (exec (enrichEvent store d1) (exec (enrichEvent store d2) w)) =
  heap (exec (enrichEvent store d2) (exec (enrichEvent store d1) w)).
Proof.
  intros Hd. destruct store as [l|].
  - rewrite !enrichEvent_heap, !alter_alter_eq.
    apply alter_ext. intros e _. now apply enriched_swap.
  - to_heap. now destruct (decide _); simpl; destruct (decide _).
Qed.

Lemma enrichEvent_commutes_on_disjoint_keys_witness :
  heap (exec (enrichEvent (Some (event demo_builder)) demo_enrichment)
          (exec (enrichEvent (Some (event demo_builder))
                   {| EnrichmentData.user := None;
                      EnrichmentData.business := Some {[ "amount" := JNum 5 ]};
                      EnrichmentData.performance :=
                        Some {[ "db_queries" := JNum 2 ]};
                      EnrichmentData.feature_flags := None |})
             demo_started)) =
  heap (exec (enrichEvent (Some (event demo_builder))
                {| EnrichmentData.user := None;
                   EnrichmentData.business := Some {[ "amount" := JNum 5 ]};
                   EnrichmentData.performance :=
                     Some {[ "db_queries" := JNum 2 ]};
                   EnrichmentData.feature_flags := None |})
          (exec (enrichEvent (Some (event demo_builder)) demo_enrichment)
             demo_started)).
Proof.
  apply enrichEvent_commutes_on_disjoint_keys.
  unfold disjoint_inputs, demo_enrichment.
  cbn [EnrichmentData.user EnrichmentData.business EnrichmentData.performance
       EnrichmentData.feature_flags spread default].
  split; [apply map_disjoint_empty_r |].
  split; [apply map_disjoint_singleton_r; vm_compute; reflexivity |].
  split; [apply map_disjoint_empty_l | apply map_disjoint_empty_r].
Defined.

(** ** Identifiers *)

Lemma count_dashes_remove_dashes s : count_dashes (remove_dashes s) = 0%nat.
Proof.
  induction s as [|c r IH]; [reflexivity |]. simpl.
  destruct (Ascii.eqb c "-") eqn:Hc; [exact IH |]. simpl. now rewrite Hc.
Qed.

Lemma length_remove_dashes s :
  (String.length (remove_dashes s) + count_dashes s)%nat = String.length s.
Proof.
  induction s as [|c r IH]; [reflexivity |]. simpl.
  destruct (Ascii.eqb c "-"); simpl; lia.
Qed.

Lemma length_slice0 n s :
  String.length (slice0 n s) = Nat.min n (String.length s).
Proof.
  unfold slice0. revert n. induction s as [|c r IH]; intros [|n]; simpl; auto.
Qed.

Lemma count_dashes_slice0 n s :
  count_dashes s = 0%nat -> count_dashes (slice0 n s) = 0%nat.
Proof.
  unfold slice0. revert n. induction s as [|c r IH]; intros [|n]; simpl; auto.
  destruct (Ascii.eqb c "-"); [discriminate |]. simpl. apply IH.
Qed.

(** X8: a generated trace id is the UUID without its dashes, so it contains
    no dash and is shorter than the UUID by the number of dashes; a generated
    event id is "evt_" followed by at most 16 dash-free characters.  For a
    UUID of 36 characters with 4 dashes the trace id has 32 characters and
    the event id 20.  Each call draws exactly one UUID. *)
Theorem generated_ids_have_no_dashes (w : World) :
  let u := uuids w (uuids_drawn w) in
  let tid := (generateTraceId w).1 in
  let eid := (generateEventId w).1 in
  count_dashes tid = 0%nat /\
  (String.length tid + count_dashes u)%nat = String.length u /\
  (exists suffix,
      eid = String.append "evt_" suffix /\
      count_dashes suffix = 0%nat /\
      String.length suffix = Nat.min 16 (String.length tid)) /\
  (String.length u = 36%nat -> count_dashes u = 4%nat ->
   String.length tid = 32%nat /\ String.length eid = 20%nat) /\
  uuids_drawn (generateTraceId w).2 = S (uuids_drawn w) /\
  uuids_drawn (generateEventId w).2 = S (uuids_drawn w).
Proof.
  intros u tid eid.
  assert (Ht : tid = remove_dashes u) by reflexivity.
  assert (He : eid = String.append "evt_" (slice0 16 tid)) by reflexivity.
  pose proof (count_dashes_remove_dashes u) as Hno.
  pose proof (length_remove_dashes u) as Hlen.
  rewrite <- Ht in Hno, Hlen.
  split; [exact Hno |]. split; [exact Hlen |]. split; [| split].
  - exists (slice0 16 tid). split; [exact He |].
    split; [now apply count_dashes_slice0 | apply length_slice0].
  - intros H36 H4. split; [lia |].
    rewrite He.
    change (String.length (String.append "evt_" (slice0 16 tid)))
      with (4 + String.length (slice0 16 tid))%nat.
    rewrite length_slice0. lia.
  - split; reflexivity.
Qed.

Lemma generated_ids_have_no_dashes_witness :
  String.length (generateTraceId demo_world).1 = 32%nat /\
  String.length (generateEventId demo_world).1 = 20%nat.
Proof.
  apply (generated_ids_have_no_dashes demo_world); reflexivity.
Defined.

(** ** The freshly built event *)

Lemma or_str_not_empty o d : d <> ""%string -> or_str o d <> ""%string.
Proof.
  intros Hd. unfold or_str, or_else. destruct o as [s|]; simpl; [| exact Hd].
  destruct (String.eqb s "") eqn:Hs; simpl; [exact Hd |].
  now apply String.eqb_neq.
Qed.

Lemma or_else_set s rest : s <> ""%string -> or_else (Some s) rest = Some s.
Proof.
  intros Hs. unfold or_else. now rewrite (proj2 (String.eqb_neq s "") Hs).
Qed.

Lemma or_else_unset o rest : unset o -> or_else o rest = rest.
Proof. now intros [-> | ->]. Qed.

(** X9: the event the constructor creates has method "UNKNOWN", path "/",
    status 200, duration 0, outcome "success" and no optional part; its
    service name is the configured one; its service version and environment
    are never empty: a non-empty configured value wins, and when neither the
    configuration nor the process environment gives one they are "0.0.0"
    and "development". *)
Theorem constructed_event_defaults (cfg : WideEventConfig.t) (w : World) :
  let b := (newWideEventBuilder cfg w).1 in
  let w' := (newWideEventBuilder cfg w).2 in
  exists e,
    heap w' !! event b = Some e /\
    request e = {| method := "UNKNOWN"; path := "/"; query := None;
                   duration_ms := 0; status_code := 200; ip := None;
                   user_agent := None |} /\
    outcome e = Success /\
    (user e = None /\ business e = None /\ performance e = None /\
     error e = None /\ feature_flags e = None) /\
    name (service e) = WideEventConfig.serviceName cfg /\
    version (service e) <> ""%string /\
    environment (service e) <> ""%string /\
    (forall v, WideEventConfig.serviceVersion cfg = Some v -> v <> ""%string ->
               version (service e) = v) /\
    (forall v, WideEventConfig.environment cfg = Some v -> v <> ""%string ->
               environment (service e) = v) /\
    (unset (WideEventConfig.serviceVersion cfg) ->
     unset (env w !! "npm_package_version") ->
     version (service e) = "0.0.0"%string) /\
    (unset (WideEventConfig.environment cfg) ->
     unset (env w !! "VERCEL_ENV") -> unset (env w !! "NODE_ENV") ->
     environment (service e) = "development"%string).
Proof.
  unfold newWideEventBuilder, createBaseEvent, alloc. to_heap.
  eexists. split; [apply lookup_insert_eq |]. simpl.
  repeat split; try (apply or_str_not_empty; discriminate).
  - intros v Hv Hne. rewrite Hv. unfold or_str.
    now rewrite !(or_else_set v) by exact Hne.
  - intros v Hv Hne. rewrite Hv. unfold or_str.
    now rewrite !(or_else_set v) by exact Hne.
  - intros H1 H2. unfold or_str.
    now rewrite (or_else_unset _ _ H1), (or_else_unset _ _ H2).
  - intros H1 H2 H3. unfold or_str.
    now rewrite (or_else_unset _ _ H1), (or_else_unset _ _ H2),
      (or_else_unset _ _ H3).
Qed.

Lemma constructed_event_defaults_witness :
  exists e,
    heap demo_started !! event demo_builder = Some e /\
    version (service e) = "0.0.0"%string /\
    environment (service e) = "development"%string.
Proof.
  destruct (constructed_event_defaults demo_config demo_world)
    as (e & He & _ & _ & _ & _ & _ & _ & _ & _ & Hv & Henv).
  exists e. split; [exact He |]. split.
  - apply Hv; left; reflexivity.
  - apply Henv; left; reflexivity.
Defined.

(** ** Samplers *)

Lemma keepOnlyErrors_true e :
  keepOnlyErrors e = true <->
  outcome e = Error \/ 400 <= status_code (request e) \/ is_Some (error e).
Proof.
  unfold keepOnlyErrors.
  rewrite !orb_true_iff, bool_decide_eq_true, Z.leb_le.
  destruct (error e); simpl; split; intros H; try tauto.
  - right. eauto.
  - destruct H as [[?|?]|?]; try tauto. discriminate.
  - destruct H as [?|[?|[? ?]]]; try tauto. discriminate.
Qed.

(** X10: after [withStatusCode(code)], [keepOnlyErrors] keeps the event
    exactly when the code is 400 or more, or the outcome was already "error",
    or an error was already recorded. *)
Theorem keepOnlyErrors_after_withStatusCode
    (b : WideEventBuilder) (statusCode : Z) (w : World) (e : WideEvent) :
  heap w !! event b = Some e ->
  exists e',
    heap (exec (withStatusCode b statusCode) w) !! event b = Some e' /\
    (keepOnlyErrors e' = true <->
     400 <= statusCode \/ outcome e = Error \/ is_Some (error e)).
Proof.
  intros H. eexists. split; [apply (withStatusCode_lookup _ _ _ _ H) |].
  rewrite keepOnlyErrors_true. simpl. unfold outcome_after_status.
  destruct (Z.leb_spec 500 statusCode), (Z.leb_spec 400 statusCode);
    try lia; split; intros Hk; try tauto; try (left; lia).
Qed.

Lemma keepOnlyErrors_after_withStatusCode_witness :
  exists e',
    heap (exec (withStatusCode demo_builder 404) demo_started)
      !! event demo_builder = Some e' /\
    keepOnlyErrors e' = true.
Proof.
  destruct (keepOnlyErrors_after_withStatusCode demo_builder 404 demo_started
              demo_base_event) as (e' & H' & Hk).
  - vm_compute. reflexivity.
  - exists e'. split; [exact H' |]. apply Hk. left. lia.
Defined.

(** X11: the default sampler is monotone in [sampleRate]: with the other
    options and the draw fixed, an event kept at some rate is kept at every
    higher rate; at a rate of 1 or more every event is kept, the draw being
    below 1. *)
Theorem defaultShouldSample_monotone_in_rate
    (e : WideEvent) (o1 o2 : SampleOptions.t) (random : Q) :
  SampleOptions.slowThresholdMs o1 = SampleOptions.slowThresholdMs o2 ->
  SampleOptions.alwaysKeepSubscriptions o1 =
    SampleOptions.alwaysKeepSubscriptions o2 ->
  (default (1 # 10) (SampleOptions.sampleRate o1)
     <= default (1 # 10) (SampleOptions.sampleRate o2))%Q ->
  (defaultShouldSample e o1 random = true ->
   defaultShouldSample e o2 random = true) /\
  ((1 <= default (1 # 10) (SampleOptions.sampleRate o2))%Q ->
   (random < 1)%Q ->
   defaultShouldSample e o2 random = true).
Proof.
  intros Hslow Hkeep Hrate. split.
  - rewrite !defaultShouldSample_true, Hslow, Hkeep.
    intros [?|[?|[?|[?|[?|Hr]]]]]; try tauto.
    do 5 right. eapply Qlt_le_trans; eassumption.
  - intros H1 Hr. apply defaultShouldSample_true.
    do 5 right. eapply Qlt_le_trans; eassumption.
Qed.

Lemma defaultShouldSample_monotone_in_rate_witness :
  defaultShouldSample demo_event
    {| SampleOptions.slowThresholdMs := None;
       SampleOptions.alwaysKeepSubscriptions := None;
       SampleOptions.sampleRate := Some 1%Q |} (99 # 100)%Q = true.
Proof.
  apply (defaultShouldSample_monotone_in_rate demo_event SampleOptions.empty
           {| SampleOptions.slowThresholdMs := None;
              SampleOptions.alwaysKeepSubscriptions := None;
              SampleOptions.sampleRate := Some 1%Q |} (99 # 100)%Q);
    try reflexivity; vm_compute; congruence.
Defined.

Lemma sampling_reads e1 e2 options random :
  outcome e1 = outcome e2 ->
  status_code (request e1) = status_code (request e2) ->
  duration_ms (request e1) = duration_ms (request e2) ->
  error e1 = error e2 ->
  user e1 = user e2 ->
  defaultShouldSample e1 options random = defaultShouldSample e2 options random /\
  keepOnlyErrors e1 = keepOnlyErrors e2.
Proof.
  intros Ho Hs Hd He Hu.
  unfold defaultShouldSample, keepOnlyErrors, user_subscription.
  now rewrite Ho, Hs, Hd, He, Hu.
Qed.

(** X12: enrichment that carries no [user] data never changes a sampling
    decision: the event in scope, and every other event, is kept or dropped
    by the default sampler (same options, same draw) and by
    [keepOnlyErrors] exactly as before the call. *)
Theorem enrichment_without_user_keeps_sampling_decision
    (store : option loc) (data : EnrichmentData.t) (w : World) (l : loc)
    (e : WideEvent) :
  EnrichmentData.user data = None ->
  heap w !! l = Some e ->
  exists e',
    heap (exec (enrichEvent store data) w) !! l = Some e' /\
    (forall options random,
        defaultShouldSample e' options random =
        defaultShouldSample e options random) /\
    keepOnlyErrors e' = keepOnlyErrors e.
Proof.
  intros Hu He.
  assert (Hcase : heap (exec (enrichEvent store data) w) !! l = Some e \/
                  heap (exec (enrichEvent store data) w) !! l =
                    Some (enriched data e)).
  { destruct store as [l'|].
    - rewrite enrichEvent_heap. destruct (decide (l' = l)) as [->|Hne].
      + right. now rewrite lookup_alter_eq, He.
      + left. now rewrite lookup_alter_ne.
    - left. rewrite <- He. to_heap. now destruct (decide _). }
  destruct Hcase as [H|H]; eexists; (split; [exact H |]).
  - auto.
  - assert (Hr : forall options random,
               defaultShouldSample (enriched data e) options random =
                 defaultShouldSample e options random /\
               keepOnlyErrors (enriched data e) = keepOnlyErrors e).
    { intros options random. apply sampling_reads; try reflexivity.
      unfold enriched. cbn [user]. now rewrite Hu. }
    split; [intros options random; apply Hr |].
    apply (Hr SampleOptions.empty 0%Q).
Qed.

Lemma enrichment_without_user_keeps_sampling_decision_witness :
  exists e',
    heap (exec (enrichEvent (Some (event demo_builder))
                  {| EnrichmentData.user := None;
                     EnrichmentData.business := Some {[ "amount" := JNum 5 ]};
                     EnrichmentData.performance := None;
                     EnrichmentData.feature_flags := None |})
            demo_started) !! event demo_builder = Some e' /\
    keepOnlyErrors e' = false.
Proof.
  destruct (enrichment_without_user_keeps_sampling_decision
              (Some (event demo_builder))
              {| EnrichmentData.user := None;
                 EnrichmentData.business := Some {[ "amount" := JNum 5 ]};
                 EnrichmentData.performance := None;
                 EnrichmentData.feature_flags := None |}
              demo_started (event demo_builder) demo_base_event)
    as (e' & H' & _ & Hk).
  - reflexivity.
  - vm_compute. reflexivity.
  - exists e'. split; [exact H' |]. rewrite Hk. reflexivity.
Defined.

(** ** More on the transport *)

Lemma idle_without_token_step s act :
  token (adapter s) = ""%string ->
  pendingEvents (adapter s) = [] ->
  flushTimeout (adapter s) = None ->
  timers (world s) = ∅ ->
  inflight s = [] ->
  adapter (step s act) = adapter s /\
  requests (world (step s act)) = requests (world s) /\
  timers (world (step s act)) = ∅ /\
  inflight (step s act) = [].
Proof.
  intros Htok Hq Hto Hti Hin.
  destruct act as [ev| |id|i r|cfg|b store ops]; cbn [step].
  - destruct (step_send s ev) as [c Hc]. cbv zeta in Hc. cbn [step] in Hc.
    rewrite Hc. unfold accepts. rewrite Htok. cbn. auto.
  - destruct (flush_begin_spec (adapter s) (world s))
      as (Ha & Ht & _ & _ & Hb & Hreq & _).
    unfold launched; cbn [adapter world inflight].
    rewrite Ha, Ht, Hreq, Hb, Hq, Hto, Hin, Hti. simpl. rewrite app_nil_r.
    repeat split. destruct (adapter s); simpl in *; now subst.
  - rewrite Hti, lookup_empty. auto.
  - rewrite Hin. simpl. auto.
  - cbn. auto.
  - cbn [elsewhere adapter world inflight].
    destruct (run_ops_transport b store ops (world s)) as [-> ->]. auto.
Qed.

(** X13: an adapter constructed without a token, neither in the
    configuration nor in [AXIOM_TOKEN], never sends anything: whatever is
    sent to it, flushed or fired afterwards, no ingest request is issued, no
    timeout is created, the queue stays empty and the adapter stays as
    constructed. *)
Theorem adapter_without_token_never_sends
    (cfg : WideEventConfig.t) (w0 : World) (acts : list Action) :
  unset (WideEventConfig.token cfg) ->
  unset (env w0 !! "AXIOM_TOKEN") ->
  timers w0 = ∅ ->
  let s := run acts (boot cfg w0) in
  adapter s = adapter (boot cfg w0) /\
  pendingEvents (adapter s) = [] /\
  requests (world s) = requests w0 /\
  timers (world s) = ∅ /\
  inflight s = [].
Proof.
  intros Hcfg Henv Ht s.
  destruct (boot_world cfg w0) as (Hreq & Hti & _ & Hq & Hto & Hin & Htok).
  rewrite (or_else_unset _ _ Hcfg) in Htok.
  assert (Htok0 : token (adapter (boot cfg w0)) = ""%string).
  { rewrite Htok. unfold or_str. now rewrite (or_else_unset _ _ Henv). }
  rewrite Ht in Hti. rewrite <- Hreq, <- Hq. clear Htok Hreq.
  subst s. generalize dependent (boot cfg w0). intros s0.
  induction acts as [|act acts IH] using rev_ind; intros Hti Hq Hto Hin Htok0.
  - rewrite Hq. auto.
  - unfold run in *. rewrite foldl_snoc.
    destruct (IH Hti Hq Hto Hin Htok0) as (Ha & Hq' & Hr' & Ht' & Hi').
    destruct (idle_without_token_step (foldl step s0 acts) act)
      as (Ha2 & Hr2 & Ht2 & Hi2); try assumption.
    + now rewrite Ha.
    + now rewrite Hq', Hq.
    + now rewrite Ha.
    + rewrite Ha2, Hr2. repeat split; assumption.
Qed.

Lemma adapter_without_token_never_sends_witness :
  requests
    (world (run [ASend 0%nat; AFlush; ASend 1%nat]
              (boot {| WideEventConfig.serviceName := "internal-tools";
                       WideEventConfig.serviceVersion := None;
                       WideEventConfig.environment := None;
                       WideEventConfig.dataset := None;
                       WideEventConfig.token := Some "";
                       WideEventConfig.debug := None;
                       WideEventConfig.shouldSample := None |}
                    demo_events))) = [].
Proof.
  apply (adapter_without_token_never_sends
           {| WideEventConfig.serviceName := "internal-tools";
              WideEventConfig.serviceVersion := None;
              WideEventConfig.environment := None;
              WideEventConfig.dataset := None;
              WideEventConfig.token := Some "";
              WideEventConfig.debug := None;
              WideEventConfig.shouldSample := None |}
           demo_events [ASend 0%nat; AFlush; ASend 1%nat]).
  - right. reflexivity.
  - left. reflexivity.
  - reflexivity.
Defined.

(** X14: events never wait without a flush being scheduled.  In every state
    the adapter can reach, the queue is empty exactly when no flush is
    scheduled; a non-empty queue holds fewer than 10 events and comes with
    exactly one pending timeout, of 100 ms. *)
Theorem queued_events_always_have_a_scheduled_flush
    (cfg : WideEventConfig.t) (w0 : World) (acts : list Action) :
  timers w0 = ∅ ->
  let s := run acts (boot cfg w0) in
  (pendingEvents (adapter s) = [] <-> timers (world s) = ∅) /\
  (pendingEvents (adapter s) <> [] ->
   exists id, flushTimeout (adapter s) = Some id /\
              timers (world s) = {[ id := 100 ]}) /\
  (length (pendingEvents (adapter s)) < 10)%nat.
Proof.
  intros Ht s.
  pose proof (reachable_ok cfg w0 acts Ht) as [_ Htim]. fold s in Htim.
  destruct (reachable_queue_ok cfg w0 acts) as [Hiff Hlen _].
  fold s in Hiff, Hlen.
  split; [| split; [| exact Hlen]].
  - rewrite Hiff, Htim. destruct (flushTimeout (adapter s)) as [id|].
    + split; [discriminate |]. intros He.
      apply (f_equal (fun m => m !! id)) in He.
      now rewrite lookup_singleton_eq, lookup_empty in He.
    + tauto.
  - intros Hne. destruct (flushTimeout (adapter s)) as [id|] eqn:Hto.
    + exists id. auto.
    + exfalso. apply Hne, Hiff. reflexivity.
Qed.

Lemma queued_events_always_have_a_scheduled_flush_witness :
  timers (world (run [ASend 0%nat; AFlush; ASend 1%nat]
                   (boot demo_config demo_events))) <> ∅.
Proof.
  destruct (queued_events_always_have_a_scheduled_flush demo_config demo_events
              [ASend 0%nat; AFlush; ASend 1%nat] eq_refl)
    as (Hiff & _).
  intros He. apply Hiff in He. vm_compute in He. discriminate He.
Defined.

(** X15: every ingest request an adapter issues goes to the endpoint of the
    dataset fixed at construction, carries the token fixed at construction,
    and holds at least 1 and at most 10 events; requests issued earlier are
    never altered. *)
Theorem issued_requests_are_bounded_batches
    (cfg : WideEventConfig.t) (w0 : World) (acts : list Action) :
  let s0 := boot cfg w0 in
  let s := run acts s0 in
  same_settings (adapter s0) (adapter s) /\
  exists news,
    requests (world s) = requests w0 ++ news /\
    Forall (request_of (adapter s0)) news.
Proof.
  intros s0 s.
  assert (Hs0 : same_settings (adapter s0) (adapter s0)) by now repeat split.
  split; [now apply run_settings |].
  destruct (run_new_requests (adapter s0) acts s0 Hs0 (boot_queue_ok cfg w0))
    as (news & Hreq & Hall).
  exists news. split; [| exact Hall].
  subst s. rewrite Hreq. f_equal. apply (boot_world cfg w0).
Qed.

Lemma flush_begin_idle a w :
  pendingEvents a = [] -> flushTimeout a = None ->
  flush_begin a w = ((a, None), w).
Proof.
  destruct a as [ds tok dbg base q t]. simpl. intros -> ->. reflexivity.
Qed.

(** X16: a second [flush()] right after a first one does nothing: it issues
    no request, creates no timeout and leaves the adapter and the world as
    the first flush left them, in any state whatever. *)
Theorem flush_twice_is_flush_once (s : Sys) :
  step (step s AFlush) AFlush = step s AFlush.
Proof.
  cbn [step].
  set (s1 := launched s (flush_begin (adapter s) (world s))).
  assert (Ha : adapter s1 = set_pendingEvents [] (set_flushTimeout None (adapter s)))
    by apply (flush_begin_spec (adapter s) (world s)).
  rewrite (flush_begin_idle (adapter s1) (world s1))
    by (rewrite Ha; reflexivity).
  unfold launched at 1. simpl. rewrite app_nil_r. reflexivity.
Qed.

(** X17: when the scheduled timeout fires, the adapter does exactly what a
    manual [flush()] does at that moment: same adapter, same request issued,
    same world. *)
Theorem fired_timeout_flushes_like_flush (s : Sys) (id : nat) :
  flushTimeout (adapter s) = Some id ->
  is_Some (timers (world s) !! id) ->
  step s (ATimeout id) = step s AFlush.
Proof. apply timeout_runs_flush. Qed.

Lemma fired_timeout_flushes_like_flush_witness :
  step (run [ASend 0%nat] (boot demo_config demo_events)) (ATimeout 0) =
  step (run [ASend 0%nat] (boot demo_config demo_events)) AFlush.
Proof.
  apply fired_timeout_flushes_like_flush.
  - vm_compute. reflexivity.
  - vm_compute. eauto.
Defined.

(** ** The default adapter *)

(** X18: [getAxiomAdapter] fails with "not initialized" when no adapter
    exists and no configuration is given, and then changes nothing; when an
    adapter exists it returns that adapter and ignores the configuration it
    is given; after [initAxiomAdapter(c)] it returns the adapter built from
    [c], whatever configuration it is called with. *)
Theorem getAxiomAdapter_returns_the_initialized_adapter
    (w : World) (slot : option AxiomAdapter) :
  getAxiomAdapter None None w = ((inl AdapterNotInitialized, None), w) /\
  (forall a cfg, getAxiomAdapter cfg (Some a) w = ((inr a, Some a), w)) /\
  (forall c,
      getAxiomAdapter (Some c) None w =
        ((inr (newAxiomAdapter c w).1, Some (newAxiomAdapter c w).1),
         (newAxiomAdapter c w).2)) /\
  (forall c cfg,
      let r := initAxiomAdapter c slot w in
      r.1.2 = Some r.1.1 /\
      r.1.1 = (newAxiomAdapter c w).1 /\
      getAxiomAdapter cfg r.1.2 r.2 = ((inr r.1.1, Some r.1.1), r.2)).
Proof.
  split; [reflexivity |]. split; [now intros a [c|] |]. split.
  - intros c. unfold getAxiomAdapter, bind, ret.
    now destruct (newAxiomAdapter c w).
  - intros c cfg. unfold initAxiomAdapter, bind, ret.
    destruct (newAxiomAdapter c w) as [a w']. simpl.
    repeat split; now destruct cfg.
Qed.

(** ** The wrappers around a request *)

Lemma run_calls_ops b store cs w :
  exec (run_calls store cs) w = run_ops b store (call_op <$> cs) w.
Proof.
  unfold run_calls, exec. simpl. revert w.
  induction cs as [|c cs IH]; intros w; [reflexivity |].
  simpl. rewrite IH. now destruct c.
Qed.

Lemma run_calls_outside_scope cs w :
  heap (exec (run_calls None cs) w) = heap w /\
  requests (exec (run_calls None cs) w) = requests w /\
  timers (exec (run_calls None cs) w) = timers w.
Proof.
  change (exec (run_calls None cs) w)
    with (foldl (fun w c => exec (run_call None c) w) w cs).
  revert w. induction cs as [|c cs IH]; intros w; [auto |].
  cbn [foldl]. destruct (IH (exec (run_call None c) w)) as (-> & -> & ->).
  destruct c; unfold run_call; to_heap; try destruct (decide _); auto.
Qed.

Lemma bind_run {A B} (m : M A) (k : A -> M B) w :
  bind m k w = k (m w).1 (m w).2.
Proof. unfold bind. now destruct (m w). Qed.

Lemma objects_singleton h ev e : h !! ev = Some e -> objects h [ev] = [e].
Proof. intros He. unfold objects. cbn [omap list_omap]. now rewrite He. Qed.

(** [send] then [flush], on an adapter with a token and an empty queue: the
    event goes out alone, unless [JSON.stringify] rejects it. *)
Lemma send_then_flush_begin a ev w e :
  heap w !! ev = Some e ->
  debug a = false \/ serializable e = true ->
  token a <> ""%string ->
  pendingEvents a = [] ->
  exists a1 w1,
    send a ev w = (inr (a1, None), w1) /\
    let r2 := flush_begin a1 w1 in
    r2.1.1 = set_pendingEvents [] (set_flushTimeout None a) /\
    r2.1.2 = (if serializable e then Some [ev] else None) /\
    requests r2.2 =
      requests w ++ (if serializable e then [ingest_request a [e]] else []) /\
    heap r2.2 = heap w.
Proof.
  intros He Hok Htok Hq.
  destruct (send_returns a ev w e He Hok) as [c Hc]. cbv zeta in Hc.
  rewrite (proj2 (String.eqb_neq _ _) Htok), Hq in Hc.
  change (10 <=? length ([] ++ [ev]))%nat with (10 <=? 1)%nat in Hc.
  rewrite (proj2 (Nat.leb_gt 10 1)) in Hc by lia.
  assert (Hsend : exists a1 w1,
             send a ev w = (inr (a1, None), w1) /\
             pendingEvents a1 = [ev] /\ same_settings a a1 /\
             heap w1 = heap w /\ requests w1 = requests w).
  { destruct (flushTimeout a); eexists _, _; (split; [exact Hc |]);
      now repeat split. }
  destruct Hsend as (a1 & w1 & Hs & Hq1 & (Hd & Ht & Hdbg & Hbase) & Hh1 & Hr1).
  exists a1, w1. split; [exact Hs |]. cbv zeta.
  destruct (flush_begin_spec a1 w1) as (Ha2 & _ & _ & Hh2 & Hb2 & Hr2 & _).
  rewrite Hq1, Hh1, (objects_singleton _ _ _ He) in Hb2, Hr2.
  rewrite Ht in Hb2, Hr2.
  rewrite (proj2 (String.eqb_neq _ _) Htok) in Hb2, Hr2.
  cbn [bool_decide decide_rel negb andb forallb] in Hb2, Hr2.
  rewrite bool_decide_eq_false_2 in Hb2, Hr2 by discriminate.
  cbn [negb andb] in Hb2, Hr2. rewrite andb_true_r in Hb2, Hr2.
  rewrite Ha2, Hb2, Hr2, Hr1, Hh2, Hh1.
  split; [| split; [reflexivity | split; [| reflexivity]]].
  - unfold set_pendingEvents, set_flushTimeout. simpl. now f_equal.
  - destruct (serializable e); [| reflexivity].
    unfold ingest_request. now rewrite Hd, Ht, Hbase.
Qed.

Lemma send_heap a ev w : heap (send a ev w).2 = heap w.
Proof.
  destruct (heap w !! ev) as [e|] eqn:He;
    [| now rewrite (send_dangling _ _ _ He)].
  destruct (decide (debug a = true /\ serializable e = false)) as [[Hd Hs] | Hno].
  - now rewrite (send_throws _ _ _ _ He Hd Hs).
  - assert (Hok : debug a = false \/ serializable e = true).
    { destruct (debug a), (serializable e); auto.
      all: exfalso; now apply Hno. }
    destruct (send_returns a ev w e He Hok) as [c Hc]. cbv zeta in Hc.
    rewrite Hc.
    destruct (String.eqb (token a) ""); [reflexivity |].
    destruct (10 <=? _)%nat;
      [cbn [snd];
       now rewrite (proj1 (proj2 (proj2 (proj2 (flush_begin_spec _ _))))) |].
    now destruct (flushTimeout a).
Qed.

Lemma send_and_flush_eq a ev answer w :
  send_and_flush a ev answer w =
  match (send a ev w).1 with
  | inl err => (inl err, (send a ev w).2)
  | inr r1 =>
      let r2 := flush_begin r1.1 (send a ev w).2 in
      (inr (r2.1.1, option_list r1.2),
       exec (match r2.1.2 with
             | Some batch => flush_resume r2.1.1 batch answer
             | None => ret tt
             end) r2.2)
  end.
Proof.
  unfold send_and_flush, bind, exec, ret.
  destruct (send a ev w) as [[err|[a1 b1]] w1]; simpl; [reflexivity |].
  destruct (flush_begin a1 w1) as [[a2 [batch|]] w2]; simpl; [| reflexivity].
  now destruct (flush_resume a2 batch answer w2).
Qed.

(** Everything [adapter.send(event); await adapter.flush()] does. *)
Lemma send_and_flush_spec a ev answer w e :
  heap w !! ev = Some e ->
  let r := send_and_flush a ev answer w in
  heap r.2 = heap w /\
  (debug a = true -> serializable e = false ->
   r = (inl CannotSerialize, w)) /\
  (debug a = false \/ serializable e = true ->
   exists a' fl,
     r.1 = inr (a', fl) /\
     (token a <> ""%string -> pendingEvents a = [] ->
      a' = set_pendingEvents [] (set_flushTimeout None a) /\
      fl = [] /\
      requests r.2 =
        requests w ++ (if serializable e then [ingest_request a [e]] else []))).
Proof.
  intros He r. subst r. rewrite send_and_flush_eq.
  split; [| split].
  - pose proof (send_heap a ev w) as Hh.
    destruct (send a ev w) as [[err|[a1 b1]] w1]; cbn [fst snd] in *;
      [exact Hh |]. cbv zeta.
    pose proof (flush_begin_spec a1 w1) as (_ & _ & _ & Hh2 & _).
    destruct ((flush_begin a1 w1).1.2) as [batch|]; cbn [fst snd].
    + rewrite (proj1 (flush_resume_world _ _ _ _)). congruence.
    + rewrite exec_ret. congruence.
  - intros Hd Hs. now rewrite (send_throws _ _ _ _ He Hd Hs).
  - intros Hok.
    destruct (decide (token a <> ""%string /\ pendingEvents a = []))
      as [[Htok Hq] | Hno].
    + destruct (send_then_flush_begin a ev w e He Hok Htok Hq)
        as (a1 & w1 & Hs & Ha2 & Hb2 & Hr2 & _).
      rewrite Hs. cbn [fst snd]. cbv zeta. eexists _, _.
      split; [reflexivity |]. intros _ _.
      split; [exact Ha2 |]. split; [reflexivity |].
      destruct ((flush_begin a1 w1).1.2) as [batch|].
      * now rewrite (proj2 (proj2 (proj2 (flush_resume_world _ _ _ _)))).
      * now rewrite exec_ret.
    + destruct (send_returns a ev w e He Hok) as [c Hc]. cbv zeta in Hc.
      assert (Hr : exists r1 w1, send a ev w = (inr r1, w1)).
      { rewrite Hc. destruct (String.eqb (token a) ""); [eauto |].
        destruct (10 <=? _)%nat; [eauto |]. destruct (flushTimeout a); eauto. }
      destruct Hr as (r1 & w1 & ->). cbn [fst snd]. cbv zeta.
      eexists _, _. split; [reflexivity |].
      intros Htok Hq. exfalso. apply Hno. now split.
Qed.

Lemma finish_eq b g random answer w :
  finish b g random answer w =
  let w1 := exec (build b) w in
  match heap w1 !! event b with
  | None => ({| glue_after := g; unawaited := []; raised := None |}, w1)
  | Some e =>
      match shouldKeep g e random with
      | inl t =>
          ({| glue_after := g; unawaited := [];
              raised := Some (SamplerThrew t) |}, w1)
      | inr keep =>
          match keep, Glue.adapter g with
          | true, Some a =>
              let r := send_and_flush a (event b) answer w1 in
              match r.1 with
              | inl err =>
                  ({| glue_after := g; unawaited := [];
                      raised := Some (SendThrew err) |}, r.2)
              | inr r1 =>
                  ({| glue_after :=
                        {| Glue.adapter := Some r1.1;
                           Glue.globalConfig := Glue.globalConfig g |};
                      unawaited := r1.2; raised := None |}, r.2)
              end
          | _, _ => ({| glue_after := g; unawaited := []; raised := None |}, w1)
          end
      end
  end.
Proof.
  unfold finish, build, deref, exec, bind, ret, dateNow, update. simpl.
  destruct (alter _ (event b) (heap w) !! event b) as [e|]; [| reflexivity].
  destruct (shouldKeep g e random) as [t|[|]]; try reflexivity.
  destruct (Glue.adapter g) as [a|]; [| reflexivity].
  now destruct (send_and_flush a (event b) answer _) as [[err|[a' fl]] w2].
Qed.

(** The duration stamped by [build()], then sampling and delivery. *)
Lemma finish_spec b g random answer w e :
  heap w !! event b = Some e ->
  let e' := set_request
              (set_duration_ms (clock w (clock_read w) - startTime b)
                 (request e)) e in
  let r := finish b g random answer w in
  heap r.2 = <[event b := e']> (heap w) /\
  (forall x,
      shouldKeep g e' random = inl x ->
      r.1 = {| glue_after := g; unawaited := [];
               raised := Some (SamplerThrew x) |} /\
      requests r.2 = requests w) /\
  (forall keep,
      shouldKeep g e' random = inr keep ->
      keep = false \/ Glue.adapter g = None ->
      r.1 = {| glue_after := g; unawaited := []; raised := None |} /\
      requests r.2 = requests w) /\
  (forall a,
      shouldKeep g e' random = inr true ->
      Glue.adapter g = Some a ->
      (debug a = true -> serializable e' = false ->
       r.1 = {| glue_after := g; unawaited := [];
                raised := Some (SendThrew CannotSerialize) |} /\
       requests r.2 = requests w) /\
      (debug a = false \/ serializable e' = true ->
       raised r.1 = None /\
       (token a <> ""%string -> pendingEvents a = [] ->
        unawaited r.1 = [] /\
        glue_after r.1 =
          {| Glue.adapter := Some (set_pendingEvents [] (set_flushTimeout None a));
             Glue.globalConfig := Glue.globalConfig g |} /\
        requests r.2 =
          requests w
            ++ (if serializable e' then [ingest_request a [e']] else [])))).
Proof.
  intros He e' r.
  assert (Hb : heap (exec (build b) w) = <[event b := e']> (heap w)).
  { rewrite build_lookup. apply map_eq. intros l.
    destruct (decide (l = event b)) as [->|Hne].
    - now rewrite lookup_alter_eq, lookup_insert_eq, He.
    - now rewrite lookup_alter_ne, lookup_insert_ne by congruence. }
  assert (Hl : heap (exec (build b) w) !! event b = Some e')
    by (rewrite Hb; apply lookup_insert_eq).
  assert (Hreq : requests (exec (build b) w) = requests w) by reflexivity.
  subst r. rewrite finish_eq. cbv zeta. rewrite Hl.
  destruct (shouldKeep g e' random) as [x|[|]] eqn:Hkeep;
    [| destruct (Glue.adapter g) as [a|] eqn:Ha |]; cbn [fst snd].
  - split; [exact Hb |]. split; [| split].
    + intros x' Hx. injection Hx as <-. now split.
    + intros keep H. discriminate H.
    + intros a H. discriminate H.
  - destruct (send_and_flush_spec a (event b) answer (exec (build b) w) e' Hl)
      as (Hh & Hthrow & Hret).
    split; [| split; [| split]].
    + destruct (send_and_flush _ _ _ _) as [[err|r1] w2]; cbn [fst snd] in *;
        congruence.
    + intros x H. discriminate H.
    + intros keep Hk [-> | H]; [discriminate Hk | discriminate H].
    + intros a0 _ Ha0. injection Ha0 as <-. split.
      * intros Hd Hs. rewrite (Hthrow Hd Hs). cbn [fst snd]. now split.
      * intros Hok. destruct (Hret Hok) as (a' & fl & Hr & Hship).
        rewrite Hr. cbn [raised unawaited glue_after fst snd].
        split; [reflexivity |]. intros Htok Hq.
        destruct (Hship Htok Hq) as (-> & -> & Hrq).
        rewrite Hrq, Hreq. now repeat split.
  - split; [exact Hb |]. split; [| split].
    + intros x H. discriminate H.
    + intros keep _ _. now split.
    + intros a0 _ H. discriminate H.
  - split; [exact Hb |]. split; [| split].
    + intros x H. discriminate H.
    + intros keep _ _. now split.
    + intros a0 H. discriminate H.
Qed.

Lemma run_ops_app b store ops1 ops2 w :
  run_ops b store (ops1 ++ ops2) w = run_ops b store ops2 (run_ops b store ops1 w).
Proof. apply foldl_app. Qed.

Lemma next_withWideEvents_eq h req g cfg random answer w :
  Glue.globalConfig g = Some cfg ->
  Next.withWideEvents h req g random answer w =
  let b := (newWideEventBuilder cfg w).1 in
  let w1 := (newWideEventBuilder cfg w).2 in
  let w2 := run_ops b (Some (event b)) (next_observed h req) w1 in
  let r := finish b g random answer w2 in
  ({| Next.result := match raised r.1 with
                     | Some x => Next.Raised x
                     | None => Next.Passed (Next.ending h)
                     end;
      Next.glue := glue_after r.1; Next.log := [];
      Next.in_flight := unawaited r.1 |}, r.2).
Proof.
  intros Hcfg. unfold Next.withWideEvents. rewrite Hcfg.
  rewrite !bind_run. cbv zeta. unfold next_observed.
  change (run_ops ?b ?s (?op :: ?ops) ?w)
    with (run_ops b s ops (exec (run_op b s op) w)).
  rewrite run_ops_app, <- run_calls_ops.
  unfold getEvent, ret. cbn [fst snd].
  destruct (Next.ending h); reflexivity.
Qed.




(** A request served by a wrapper: the event is built, observed by [ops],
    finalised, sampled and delivered. *)
Lemma observe_and_finish cfg g ops random answer w :
  let b := (newWideEventBuilder cfg w).1 in
  let w1 := (newWideEventBuilder cfg w).2 in
  let w2 := run_ops b (Some (event b)) ops w1 in
  let r := finish b g random answer w2 in
  exists e2,
    heap w2 !! event b = Some e2 /\
    let e := set_request
               (set_duration_ms
                  (clock w (clock_read w2) - clock w (clock_read w))
                  (request e2)) e2 in
    heap w !! event b = None /\
    heap r.2 !! event b = Some e /\
    (forall l, l <> event b -> heap r.2 !! l = heap w !! l) /\
    (forall x,
        shouldKeep g e random = inl x ->
        r.1 = {| glue_after := g; unawaited := [];
                 raised := Some (SamplerThrew x) |} /\
        requests r.2 = requests w) /\
    (forall keep,
        shouldKeep g e random = inr keep ->
        keep = false \/ Glue.adapter g = None ->
        r.1 = {| glue_after := g; unawaited := []; raised := None |} /\
        requests r.2 = requests w) /\
    (forall a,
        shouldKeep g e random = inr true ->
        Glue.adapter g = Some a ->
        (debug a = true -> serializable e = false ->
         r.1 = {| glue_after := g; unawaited := [];
                  raised := Some (SendThrew CannotSerialize) |} /\
         requests r.2 = requests w) /\
        (debug a = false \/ serializable e = true ->
         raised r.1 = None /\
         (token a <> ""%string -> pendingEvents a = [] ->
          unawaited r.1 = [] /\
          glue_after r.1 =
            {| Glue.adapter :=
                 Some (set_pendingEvents [] (set_flushTimeout None a));
               Glue.globalConfig := Glue.globalConfig g |} /\
          requests r.2 =
            requests w
              ++ (if serializable e then [ingest_request a [e]] else [])))).
Proof.
  intros b w1 w2 r.
  destruct (newWideEventBuilder_heap cfg w) as (Hfresh & Halloc & Hkeep).
  destruct (newWideEventBuilder_clock cfg w) as (Hstart & Hclock & _).
  fold b w1 in Hfresh, Halloc, Hkeep, Hstart, Hclock.
  apply (run_ops_allocated b (Some (event b)) ops) in Halloc.
  fold w2 in Halloc. destruct Halloc as [e2 He2].
  destruct (run_ops_clock b (Some (event b)) ops w1) as [Hclock2 _].
  fold w2 in Hclock2.
  destruct (run_ops_transport b (Some (event b)) ops w1) as [Hreq2 _].
  fold w2 in Hreq2.
  destruct (finish_spec b g random answer w2 e2 He2)
    as (Hh & Hsam & Hdrop & Hship).
  fold r in Hh, Hsam, Hdrop, Hship.
  rewrite Hclock2, Hclock, Hstart, Hreq2 in *.
  change (requests w1) with (requests w) in *.
  exists e2. split; [exact He2 |]. cbv zeta.
  split; [exact Hfresh |].
  split; [rewrite Hh; apply lookup_insert_eq |].
  split; [| split; [exact Hsam | split; [exact Hdrop | exact Hship]]].
  intros l Hl. rewrite Hh, lookup_insert_ne by congruence.
  subst w2. rewrite run_ops_frame by congruence. now apply Hkeep.
Qed.

(** Whatever happens after the handler, the module keeps its configuration
    and an adapter it had. *)
Lemma finish_glue b g random answer w :
  Glue.globalConfig (glue_after (finish b g random answer w).1)
    = Glue.globalConfig g /\
  (is_Some (Glue.adapter (glue_after (finish b g random answer w).1)) <->
   is_Some (Glue.adapter g)).
Proof.
  rewrite finish_eq. cbv zeta.
  destruct (heap _ !! event b) as [e|]; [| split; reflexivity].
  destruct (shouldKeep g e random) as [x|[|]]; try (split; reflexivity).
  destruct (Glue.adapter g) as [a|] eqn:Ha; simpl; [| now rewrite Ha].
  destruct ((send_and_flush a (event b) answer _).1) as [err|r1]; simpl.
  - rewrite Ha. split; [reflexivity |]. split; eauto.
  - split; [reflexivity |]. split; eauto.
Qed.

Lemma run_ops_last b store ops op w :
  run_ops b store (ops ++ [op]) w =
  exec (run_op b store op) (run_ops b store ops w).
Proof. unfold run_ops. now rewrite foldl_snoc. Qed.

(** X19: when [initLogger] has not been called, the Next.js wrapper only
    warns and runs the handler: no event is created or changed, nothing is
    sent or scheduled, the glue state is as before, and the handler's result
    or error is passed on unchanged. *)
Theorem next_wrapper_uninitialized_is_transparent
    (h : Next.Handler) (req : WebRequest.t) (g : Glue.t) (random : Q)
    (answer : FetchResult) (w : World) :
  Glue.globalConfig g = None ->
  let r := Next.withWideEvents h req g random answer w in
  Next.result r.1 = Next.Passed (Next.ending h) /\
  Next.glue r.1 = g /\
  Next.log r.1 = [WarnLoggerNotInitialized] /\
  Next.in_flight r.1 = [] /\
  heap r.2 = heap w /\
  requests r.2 = requests w /\
  timers r.2 = timers w.
Proof.
  intros Hcfg r. subst r. unfold Next.withWideEvents. rewrite Hcfg.
  rewrite bind_run. cbn [fst snd ret Next.result Next.glue Next.log
                         Next.in_flight].
  repeat split; apply (run_calls_outside_scope (Next.calls h) w).
Qed.

Lemma next_wrapper_uninitialized_is_transparent_witness :
  heap (Next.withWideEvents
          {| Next.calls := [CallEnrichEvent demo_enrichment];
             Next.ending := Next.Responds 200 |}
          demo_request Glue.uninitialized (1 # 2)%Q NetworkError demo_world).2
  = ∅.
Proof.
  apply (next_wrapper_uninitialized_is_transparent
           {| Next.calls := [CallEnrichEvent demo_enrichment];
              Next.ending := Next.Responds 200 |}
           demo_request Glue.uninitialized (1 # 2)%Q NetworkError demo_world).
  reflexivity.
Defined.


Lemma ends_with_withStatusCode b ops statusCode w e2 :
  heap (run_ops b (Some (event b)) (ops ++ [OpWithStatusCode statusCode]) w)
    !! event b = Some e2 ->
  status_code (request e2) = statusCode /\
  (500 <= statusCode -> outcome e2 = Error) /\
  (400 <= statusCode <= 499 -> outcome e2 = Warning).
Proof.
  rewrite run_ops_last. intros He2.
  assert (Halloc : is_Some (heap (run_ops b (Some (event b)) ops w) !! event b)).
  { apply (run_op_allocated b (Some (event b)) (OpWithStatusCode statusCode)).
    rewrite He2. eauto. }
  destruct Halloc as [e1 He1].
  cbn [run_op] in He2. rewrite (withStatusCode_lookup _ _ _ _ He1) in He2.
  injection He2 as <-. simpl. unfold outcome_after_status.
  split; [reflexivity |].
  destruct (Z.leb_spec 500 statusCode), (Z.leb_spec 400 statusCode);
    split; intros; try lia; reflexivity.
Qed.

(** With no custom sampler an event with outcome "error" is kept, whatever
    the draw. *)
Lemma default_sampler_keeps_errors g cfg e random :
  Glue.globalConfig g = Some cfg ->
  WideEventConfig.shouldSample cfg = None ->
  outcome e = Error \/ is_Some (error e) ->
  shouldKeep g e random = inr true.
Proof.
  intros Hcfg Hsample He. unfold shouldKeep. rewrite Hcfg, Hsample. f_equal.
  apply defaultShouldSample_true. destruct He; [now left | right; right; now left].
Qed.

(** How the [finally] block ends, in terms of what it was given. *)
Lemma finish_raised (f : Finished) (g : Glue.t) (e : WideEvent) (random : Q)
    (before after : list IngestRequest) :
  (forall keep,
      shouldKeep g e random = inr keep ->
      keep = false \/ Glue.adapter g = None ->
      f = {| glue_after := g; unawaited := []; raised := None |} /\
      after = before) ->
  (forall a,
      shouldKeep g e random = inr true ->
      Glue.adapter g = Some a ->
      (debug a = true -> serializable e = false ->
       f = {| glue_after := g; unawaited := [];
              raised := Some (SendThrew CannotSerialize) |} /\
       after = before) /\
      (debug a = false \/ serializable e = true ->
       raised f = None /\
       (token a <> ""%string -> pendingEvents a = [] ->
        unawaited f = [] /\
        glue_after f =
          {| Glue.adapter := Some (set_pendingEvents [] (set_flushTimeout None a));
             Glue.globalConfig := Glue.globalConfig g |} /\
        after =
          before ++ (if serializable e then [ingest_request a [e]] else [])))) ->
  forall keep,
    shouldKeep g e random = inr keep ->
    (keep = true ->
     forall a, Glue.adapter g = Some a ->
               debug a = false \/ serializable e = true) ->
    raised f = None.
Proof.
  intros Hdrop Hship keep Hk Hok. destruct keep.
  - destruct (Glue.adapter g) as [a|] eqn:Ha.
    + destruct (Hship a Hk eq_refl) as [_ Hret].
      now destruct (Hret (Hok eq_refl a eq_refl)).
    + destruct (Hdrop true Hk) as [-> _]; auto.
  - destruct (Hdrop false Hk) as [-> _]; auto.
Qed.



(** X21: when the wrapped Next.js handler returns a response, its status is
    recorded on the request's event, with outcome "error" from 500 and
    "warning" from 400 to 499.  The wrapper returns the response whenever
    the code after the handler completes: the sampler returns and, if the
    event is kept and an adapter exists, debug logging is off or the event
    can be serialised; otherwise the caller gets the sampler's exception or
    the [TypeError] of [send] instead of the response.  When the event is
    dropped, or no adapter exists, nothing is sent and the glue state is
    unchanged; a kept event is sent by an adapter holding a token and an
    empty queue alone in one request, unless [JSON.stringify] rejects it. *)
Theorem next_wrapper_response_is_recorded_and_sampled
    (h : Next.Handler) (req : WebRequest.t) (g : Glue.t)
    (cfg : WideEventConfig.t) (status : Z) (random : Q)
    (answer : FetchResult) (w : World) :
  Glue.globalConfig g = Some cfg ->
  Next.ending h = Next.Responds status ->
  let r := Next.withWideEvents h req g random answer w in
  exists l e,
    heap w !! l = None /\
    heap r.2 !! l = Some e /\
    (forall l', l' <> l -> heap r.2 !! l' = heap w !! l') /\
    status_code (request e) = status /\
    (500 <= status -> outcome e = Error) /\
    (400 <= status <= 499 -> outcome e = Warning) /\
    (forall keep,
        shouldKeep g e random = inr keep ->
        (keep = true ->
         forall a, Glue.adapter g = Some a ->
                   debug a = false \/ serializable e = true) ->
        Next.result r.1 = Next.Passed (Next.Responds status)) /\
    (forall x,
        shouldKeep g e random = inl x ->
        Next.result r.1 = Next.Raised (SamplerThrew x) /\
        requests r.2 = requests w /\
        Next.glue r.1 = g) /\
    (forall keep,
        shouldKeep g e random = inr keep ->
        keep = false \/ Glue.adapter g = None ->
        requests r.2 = requests w /\ Next.glue r.1 = g) /\
    (forall a,
        shouldKeep g e random = inr true ->
        Glue.adapter g = Some a ->
        (debug a = true -> serializable e = false ->
         Next.result r.1 = Next.Raised (SendThrew CannotSerialize) /\
         requests r.2 = requests w /\
         Next.glue r.1 = g) /\
        (debug a = false \/ serializable e = true ->
         token a <> ""%string -> pendingEvents a = [] ->
         requests r.2 =
           requests w
             ++ (if serializable e then [ingest_request a [e]] else []))).
Proof.
  intros Hcfg Hend r. subst r.
  rewrite (next_withWideEvents_eq h req g cfg random answer w Hcfg). cbv zeta.
  destruct (observe_and_finish cfg g (next_observed h req) random answer w)
    as (e2 & He2 & Hfresh & Hl & Hframe & Hsam & Hdrop & Hship).
  cbn [fst snd Next.result Next.glue Next.in_flight].
  unfold next_observed in He2. rewrite Hend, app_comm_cons in He2.
  destruct (ends_with_withStatusCode _ _ _ _ _ He2) as (Hst & H5 & H4).
  eexists _, _. split; [exact Hfresh |]. split; [exact Hl |].
  split; [exact Hframe |]. split; [exact Hst |].
  split; [exact H5 |]. split; [exact H4 |].
  split.
  { intros keep Hk Hok.
    rewrite (finish_raised _ g _ random _ _ Hdrop Hship keep Hk Hok).
    now rewrite Hend. }
  split.
  { intros x Hx. destruct (Hsam x Hx) as [-> ->]. now repeat split. }
  split.
  { intros keep Hk Hno. destruct (Hdrop keep Hk Hno) as [-> ->]. now split. }
  intros a Hk Ha. destruct (Hship a Hk Ha) as [Hthrow Hret]. split.
  - intros Hd Hs. destruct (Hthrow Hd Hs) as [-> ->]. now repeat split.
  - intros Hok Htok Hq. destruct (Hret Hok) as [_ Hgo].
    now destruct (Hgo Htok Hq) as (_ & _ & Hreq).
Qed.

Lemma next_wrapper_response_is_recorded_and_sampled_witness :
  exists l e,
    heap (Next.withWideEvents
            {| Next.calls := []; Next.ending := Next.Responds 404 |}
            demo_request demo_glue (1 # 2)%Q NetworkError demo_world).2 !! l
      = Some e /\
    status_code (request e) = 404 /\ outcome e = Warning.
Proof.
  destruct (next_wrapper_response_is_recorded_and_sampled
              {| Next.calls := []; Next.ending := Next.Responds 404 |}
              demo_request demo_glue demo_config 404 (1 # 2)%Q NetworkError
              demo_world eq_refl eq_refl)
    as (l & e & _ & Hl & _ & Hst & _ & H4 & _).
  exists l, e. split; [exact Hl |]. split; [exact Hst |]. apply H4. lia.
Defined.

(** ** The Vercel wrapper *)

Lemma vercel_serve_eq cfg h req g slot random answer w :
  Vercel.serve cfg h req g slot random answer w =
  let b := (newWideEventBuilder cfg w).1 in
  let w1 := (newWideEventBuilder cfg w).2 in
  let w2 := run_ops b (Some (event b)) (vercel_observed h req) w1 in
  let r := finish b g random answer w2 in
  ({| Vercel.sent_500 := match Vercel.ending h with
                         | Vercel.Finishes _ => false
                         | Vercel.Throws _ headersSent => negb headersSent
                         end;
      Vercel.rejected := raised r.1;
      Vercel.glue := glue_after r.1; Vercel.slot := slot;
      Vercel.in_flight := unawaited r.1 |}, r.2).
Proof.
  unfold Vercel.serve.
  rewrite !bind_run. cbv zeta. unfold vercel_observed.
  change (run_ops ?b ?s (?op :: ?ops) ?w)
    with (run_ops b s ops (exec (run_op b s op) w)).
  rewrite run_ops_app, <- run_calls_ops.
  unfold getEvent, ret. cbn [fst snd].
  destruct (Vercel.ending h); rewrite !bind_run; reflexivity.
Qed.

Lemma run_ops_details b store ops l w :
  forallb (fun op => negb (assigns_trace_id op)) ops = true ->
  field (fun e => (request_details e, trace_id e)) l (run_ops b store ops w) =
  field (fun e => (request_details e, trace_id e)) l w.
Proof.
  revert w. induction ops as [|op ops IH]; intros w Hall; [reflexivity |].
  simpl in Hall. apply andb_true_iff in Hall as [Hop Hall].
  change (run_ops b store (op :: ops) w)
    with (run_ops b store ops (exec (run_op b store op) w)).
  rewrite (IH _ Hall).
  destruct op; try discriminate Hop; destruct store;
    to_heap; split_cases; preserved.
Qed.

Lemma calls_never_assign_trace_id cs :
  forallb (fun op => negb (assigns_trace_id op)) (call_op <$> cs) = true.
Proof. induction cs as [|[] cs IH]; simpl; auto. Qed.

Lemma count_commas_before_comma s : count_commas (before_comma s) = 0%nat.
Proof.
  induction s as [|c r IH]; [reflexivity |]. simpl.
  destruct (Ascii.eqb c ",") eqn:Hc; [reflexivity |]. simpl. now rewrite Hc.
Qed.

Lemma before_comma_without_comma s :
  count_commas s = 0%nat -> before_comma s = s.
Proof.
  induction s as [|c r IH]; [reflexivity |]. simpl.
  destruct (Ascii.eqb c ","); [discriminate |]. simpl. intros H. now rewrite IH.
Qed.



Lemma fromRawRequest_details b d w :
  field (fun e => (request_details e, trace_id e)) (event b)
    (exec (fromRawRequest b d) w) =
  (fun e => ((RawRequest.method d, RawRequest.path d, RawRequest.query d,
              RawRequest.ip d, RawRequest.userAgent d),
             default (trace_id e) (or_else (RawRequest.traceId d) None)))
    <$> heap w !! event b.
Proof.
  to_heap. destruct (or_else (RawRequest.traceId d) None); simpl;
    rewrite ?lookup_alter_eq; now destruct (heap w !! event b).
Qed.

(** X23: what the Vercel wrapper records of the request.  [method] and
    [path] are never empty ("UNKNOWN" and "/" stand in for missing ones) and
    [query] is always present; [ip] is the first comma-separated entry of
    [x-forwarded-for] when that is non-empty, and the socket address when
    the header is absent; [trace_id] is the first non-empty one of
    [x-trace-id], [x-request-id] and [x-vercel-id], and when none is set the
    id generated at construction is kept. *)
Theorem vercel_wrapper_records_request_details
    (h : Vercel.Handler) (req : Vercel.Request) (g : Glue.t)
    (slot : option AxiomAdapter) (cfg : WideEventConfig.t) (random : Q)
    (answer : FetchResult) (w : World) :
  Glue.globalConfig g = Some cfg ->
  let r := Vercel.withWideEvents h req g slot random answer w in
  exists l e,
    heap w !! l = None /\
    heap r.2 !! l = Some e /\
    method (request e) = or_str (Vercel.method req) "UNKNOWN" /\
    method (request e) <> ""%string /\
    path (request e) = or_str (Vercel.url req) "/" /\
    path (request e) <> ""%string /\
    query (request e) = Some (default ∅ (Vercel.query req)) /\
    (forall xff,
        Vercel.headers req !! "x-forwarded-for" = Some xff ->
        before_comma xff <> ""%string ->
        ip (request e) = Some (before_comma xff) /\
        count_commas (before_comma xff) = 0%nat) /\
    (Vercel.headers req !! "x-forwarded-for" = None ->
     ip (request e) = Vercel.remoteAddress req) /\
    (forall t,
        or_else (Vercel.headers req !! "x-trace-id")
          (or_else (Vercel.headers req !! "x-request-id")
                   (Vercel.headers req !! "x-vercel-id")) = Some t ->
        t <> ""%string ->
        trace_id e = t) /\
    (unset (Vercel.headers req !! "x-trace-id") ->
     unset (Vercel.headers req !! "x-request-id") ->
     unset (Vercel.headers req !! "x-vercel-id") ->
     trace_id e = remove_dashes (uuids w (S (uuids_drawn w)))).
Proof.
  intros Hcfg r. subst r.
  unfold Vercel.withWideEvents. rewrite Hcfg, vercel_serve_eq. cbv zeta.
  destruct (observe_and_finish cfg g (vercel_observed h req) random answer w)
    as (e2 & He2 & Hfresh & Hl & _).
  cbn [fst snd].
  set (b := (newWideEventBuilder cfg w).1) in *.
  set (w1 := (newWideEventBuilder cfg w).2) in *.
  assert (Hd : Some (request_details e2, trace_id e2) =
               (fun e => ((RawRequest.method (Vercel.details req),
                           RawRequest.path (Vercel.details req),
                           RawRequest.query (Vercel.details req),
                           RawRequest.ip (Vercel.details req),
                           RawRequest.userAgent (Vercel.details req)),
                          default (trace_id e)
                            (or_else (RawRequest.traceId (Vercel.details req))
                               None)))
                 <$> heap w1 !! event b).
  { rewrite <- fromRawRequest_details.
    unfold vercel_observed in He2.
    change (run_ops ?b ?s (?op :: ?ops) ?w)
      with (run_ops b s ops (exec (run_op b s op) w)) in He2.
    cbn [run_op] in He2.
    match type of He2 with
    | context [run_ops _ _ ?ops (exec _ _)] =>
        rewrite <- (run_ops_details b (Some (event b)) ops (event b))
    end.
    - unfold field. now rewrite He2.
    - rewrite forallb_app, calls_never_assign_trace_id. simpl.
      now destruct (Vercel.ending h). }
  destruct (newWideEventBuilder_ids cfg w) as [_ Htid].
  fold b w1 in Htid. unfold field in Htid.
  destruct (heap w1 !! event b) as [e0|]; [| discriminate Htid].
  injection Htid as Htid.
  cbn [fmap option_fmap option_map RawRequest.method RawRequest.path
       RawRequest.query RawRequest.ip RawRequest.userAgent RawRequest.traceId
       Vercel.details request_details] in Hd.
  injection Hd as Hm Hp Hq Hip _ Htr.
  eexists _, _. split; [exact Hfresh |]. split; [exact Hl |]. cbn [request].
  unfold set_duration_ms; cbn [method path query ip].
  split; [exact Hm |]. split; [rewrite Hm; apply or_str_not_empty; discriminate |].
  split; [exact Hp |]. split; [rewrite Hp; apply or_str_not_empty; discriminate |].
  split; [exact Hq |].
  split; [| split; [| split]].
  - intros xff Hx Hne. rewrite Hip, Hx.
    cbn [fmap option_fmap option_map].
    split; [now apply or_else_set | apply count_commas_before_comma].
  - intros Hx. now rewrite Hip, Hx.
  - intros t Ht Hne. unfold set_request; cbn [trace_id].
    rewrite Htr, Ht. now rewrite (or_else_set t None Hne).
  - intros H1 H2 H3. unfold set_request; cbn [trace_id]. rewrite Htr, Htid.
    rewrite (or_else_unset _ _ H1), (or_else_unset _ _ H2).
    now destruct H3 as [-> | ->].
Qed.

Lemma vercel_wrapper_records_request_details_witness :
  exists l e,
    heap (Vercel.withWideEvents
            {| Vercel.calls := []; Vercel.ending := Vercel.Finishes 200 |}
            {| Vercel.method := None; Vercel.url := Some "/api/form";
               Vercel.query := None;
               Vercel.headers :=
                 {[ "x-forwarded-for" := "203.0.113.7, 10.0.0.1" ]};
               Vercel.remoteAddress := Some "10.0.0.9" |}
            demo_glue None (1 # 2)%Q NetworkError demo_world).2 !! l = Some e /\
    ip (request e) = Some "203.0.113.7"%string /\
    method (request e) = "UNKNOWN"%string.
Proof.
  destruct (vercel_wrapper_records_request_details
              {| Vercel.calls := []; Vercel.ending := Vercel.Finishes 200 |}
              {| Vercel.method := None; Vercel.url := Some "/api/form";
                 Vercel.query := None;
                 Vercel.headers :=
                   {[ "x-forwarded-for" := "203.0.113.7, 10.0.0.1" ]};
                 Vercel.remoteAddress := Some "10.0.0.9" |}
              demo_glue None demo_config (1 # 2)%Q NetworkError demo_world
              eq_refl)
    as (l & e & _ & Hl & Hm & _ & _ & _ & _ & Hip & _).
  exists l, e. split; [exact Hl |]. split; [| exact Hm].
  apply (Hip "203.0.113.7, 10.0.0.1"%string).
  - vm_compute. reflexivity.
  - vm_compute. discriminate.
Defined.

Lemma newWideEventBuilder_service_name cfg w :
  field (fun e => name (service e))
    (event (newWideEventBuilder cfg w).1) (newWideEventBuilder cfg w).2 =
  Some (WideEventConfig.serviceName cfg).
Proof.
  unfold newWideEventBuilder, createBaseEvent, alloc. to_heap.
  now rewrite lookup_insert_eq.
Qed.

Lemma run_ops_service b store ops l w :
  field service l (run_ops b store ops w) = field service l w.
Proof.
  revert w. induction ops as [|op ops IH]; intros w; [reflexivity |].
  change (run_ops b store (op :: ops) w)
    with (run_ops b store ops (exec (run_op b store op) w)).
  rewrite IH. destruct op; destruct store; to_heap; split_cases; preserved.
Qed.

Lemma vercel_withWideEvents_uninitialized_eq h req g slot random answer w :
  Glue.globalConfig g = None ->
  Vercel.withWideEvents h req g slot random answer w =
  let cfg := {| WideEventConfig.serviceName :=
                  or_str (env w !! "SERVICE_NAME") "vercel-function";
                WideEventConfig.serviceVersion := None;
                WideEventConfig.environment := None;
                WideEventConfig.dataset := None;
                WideEventConfig.token := None;
                WideEventConfig.debug := None;
                WideEventConfig.shouldSample := None |} in
  let i := initLogger cfg slot w in
  Vercel.serve cfg h req i.1.1 i.1.2 random answer i.2.
Proof.
  intros Hcfg. unfold Vercel.withWideEvents. rewrite Hcfg.
  rewrite bind_run. unfold getenv. cbn [fst snd]. cbv zeta.
  now rewrite bind_run.
Qed.

(** X24: a Vercel function served before any [initLogger] call initialises
    the logger itself: the service is named after [SERVICE_NAME], or
    "vercel-function" when that is unset, no custom sampler is installed, an
    adapter exists afterwards, and the request's event carries that service
    name. *)
Theorem vercel_wrapper_initializes_itself
    (h : Vercel.Handler) (req : Vercel.Request) (g : Glue.t)
    (slot : option AxiomAdapter) (random : Q) (answer : FetchResult)
    (w : World) :
  Glue.globalConfig g = None ->
  let r := Vercel.withWideEvents h req g slot random answer w in
  exists cfg,
    Glue.globalConfig (Vercel.glue r.1) = Some cfg /\
    WideEventConfig.serviceName cfg =
      or_str (env w !! "SERVICE_NAME") "vercel-function" /\
    WideEventConfig.serviceName cfg <> ""%string /\
    WideEventConfig.shouldSample cfg = None /\
    is_Some (Glue.adapter (Vercel.glue r.1)) /\
    is_Some (Vercel.slot r.1) /\
    exists l e,
      heap w !! l = None /\
      heap r.2 !! l = Some e /\
      name (service e) = WideEventConfig.serviceName cfg.
Proof.
  intros Hcfg r. subst r.
  rewrite (vercel_withWideEvents_uninitialized_eq _ _ _ _ _ _ _ Hcfg).
  cbv zeta.
  set (cfg := {| WideEventConfig.serviceName :=
                   or_str (env w !! "SERVICE_NAME") "vercel-function";
                 WideEventConfig.serviceVersion := None;
                 WideEventConfig.environment := None;
                 WideEventConfig.dataset := None;
                 WideEventConfig.token := None;
                 WideEventConfig.debug := None;
                 WideEventConfig.shouldSample := None |}).
  assert (Hinit : exists a w',
             initLogger cfg slot w =
               (({| Glue.adapter := Some a; Glue.globalConfig := Some cfg |},
                 Some a), w') /\ heap w' = heap w).
  { unfold initLogger, initAxiomAdapter. rewrite !bind_run.
    unfold ret. cbn [fst snd].
    eexists _, _. split; [reflexivity |].
    unfold newAxiomAdapter. to_world. now destruct (_ && _). }
  destruct Hinit as (a & w' & Hinit & Hheap). rewrite Hinit. cbn [fst snd].
  rewrite vercel_serve_eq. cbv zeta. cbn [fst snd Vercel.glue Vercel.slot].
  destruct (finish_glue (newWideEventBuilder cfg w').1
              {| Glue.adapter := Some a; Glue.globalConfig := Some cfg |}
              random answer
              (run_ops (newWideEventBuilder cfg w').1
                 (Some (event (newWideEventBuilder cfg w').1))
                 (vercel_observed h req) (newWideEventBuilder cfg w').2))
    as [Hgc Had].
  destruct (observe_and_finish cfg
              {| Glue.adapter := Some a; Glue.globalConfig := Some cfg |}
              (vercel_observed h req) random answer w')
    as (e2 & He2 & Hfresh & Hl & _).
  exists cfg. split; [exact Hgc |]. split; [reflexivity |].
  split; [apply or_str_not_empty; discriminate |]. split; [reflexivity |].
  split; [apply Had; simpl; eauto |]. split; [eauto |].
  eexists _, _. split; [rewrite <- Hheap; exact Hfresh |]. split; [exact Hl |].
  pose proof (newWideEventBuilder_service_name cfg w') as Hname.
  unfold field in Hname.
  pose proof (run_ops_service (newWideEventBuilder cfg w').1
                (Some (event (newWideEventBuilder cfg w').1))
                (vercel_observed h req)
                (event (newWideEventBuilder cfg w').1)
                (newWideEventBuilder cfg w').2) as Hsvc.
  unfold field in Hsvc. rewrite He2 in Hsvc.
  destruct (heap (newWideEventBuilder cfg w').2
              !! event (newWideEventBuilder cfg w').1) as [e0|];
    [| discriminate Hname].
  injection Hname as Hname. injection Hsvc as Hsvc.
  unfold set_request; cbn [service]. now rewrite Hsvc.
Qed.

Lemma vercel_wrapper_initializes_itself_witness :
  exists cfg,
    Glue.globalConfig
      (Vercel.glue
         (Vercel.withWideEvents
            {| Vercel.calls := []; Vercel.ending := Vercel.Finishes 200 |}
            {| Vercel.method := Some "GET"; Vercel.url := Some "/";
               Vercel.query := None; Vercel.headers := ∅;
               Vercel.remoteAddress := None |}
            Glue.uninitialized None (1 # 2)%Q NetworkError demo_world).1)
      = Some cfg /\
    WideEventConfig.serviceName cfg = "vercel-function"%string.
Proof.
  destruct (vercel_wrapper_initializes_itself
              {| Vercel.calls := []; Vercel.ending := Vercel.Finishes 200 |}
              {| Vercel.method := Some "GET"; Vercel.url := Some "/";
                 Vercel.query := None; Vercel.headers := ∅;
                 Vercel.remoteAddress := None |}
              Glue.uninitialized None (1 # 2)%Q NetworkError demo_world
              eq_refl)
    as (cfg & Hg & Hn & _).
  exists cfg. split; [exact Hg |]. rewrite Hn. reflexivity.
Defined.

(** ** Express *)

Lemma on_end_eq b g statusCode random w :
  Express.on_end b g statusCode random w =
  let w1 := exec (build b) (exec (withStatusCode b statusCode) w) in
  match heap w1 !! event b with
  | None => ({| glue_after := g; unawaited := []; raised := None |}, w1)
  | Some e =>
      match shouldKeep g e random with
      | inl t =>
          ({| glue_after := g; unawaited := [];
              raised := Some (SamplerThrew t) |}, w1)
      | inr keep =>
          match keep, Glue.adapter g with
          | true, Some a =>
              match (send a (event b) w1).1 with
              | inl err =>
                  ({| glue_after := g; unawaited := [];
                      raised := Some (SendThrew err) |},
                   (send a (event b) w1).2)
              | inr r1 =>
                  let r2 := flush_begin r1.1 (send a (event b) w1).2 in
                  ({| glue_after :=
                        {| Glue.adapter := Some r2.1.1;
                           Glue.globalConfig := Glue.globalConfig g |};
                      unawaited := option_list r1.2 ++ option_list r2.1.2;
                      raised := None |}, r2.2)
              end
          | _, _ => ({| glue_after := g; unawaited := []; raised := None |}, w1)
          end
      end
  end.
Proof.
  unfold Express.on_end. rewrite !bind_run. cbv zeta.
  change ((withStatusCode b statusCode w).2)
    with (exec (withStatusCode b statusCode) w).
  change ((build b (exec (withStatusCode b statusCode) w)).1) with (event b).
  change ((build b (exec (withStatusCode b statusCode) w)).2)
    with (exec (build b) (exec (withStatusCode b statusCode) w)).
  unfold deref at 1 2. cbn [fst snd].
  destruct (heap _ !! event b) as [e|]; [| reflexivity].
  destruct (shouldKeep g e random) as [t|[|]]; try reflexivity.
  destruct (Glue.adapter g) as [a|]; [| reflexivity].
  rewrite bind_run.
  destruct ((send a (event b) _).1) as [err|r1]; [reflexivity |].
  now rewrite bind_run.
Qed.

(** X25: in Express, an error captured by the error middleware is still on
    the event when the response ends, whatever its status: [res.end] records
    the status, which for 400 to 499 turns the outcome into "warning", the
    error stays, and the default sampler keeps the event for every draw.  An
    adapter holding a token and an empty queue then issues one request
    carrying this event alone, whose answer is not awaited, unless
    [JSON.stringify] rejects the event: with debug logging off nothing is
    sent, with debug logging on [send] throws out of [res.end].  A custom
    sampler that throws does the same. *)
Theorem express_captured_error_is_shipped_on_end
    (b : WideEventBuilder) (g : Glue.t) (cfg : WideEventConfig.t)
    (err : JsError.t) (statusCode : Z) (random : Q)
    (w : World) (e : WideEvent) :
  heap w !! event b = Some e ->
  Glue.globalConfig g = Some cfg ->
  let w1 := exec (Express.wideEventErrorMiddleware (Some (event b)) err) w in
  let r := Express.on_end b g statusCode random w1 in
  exists e',
    heap r.2 !! event b = Some e' /\
    error e' = Some (error_info err false) /\
    status_code (request e') = statusCode /\
    (400 <= statusCode <= 499 -> outcome e' = Warning) /\
    (statusCode < 400 \/ 500 <= statusCode -> outcome e' = Error) /\
    (WideEventConfig.shouldSample cfg = None ->
     shouldKeep g e' random = inr true) /\
    (forall x,
        shouldKeep g e' random = inl x ->
        raised r.1 = Some (SamplerThrew x) /\
        requests r.2 = requests w /\
        glue_after r.1 = g) /\
    (forall a,
        shouldKeep g e' random = inr true ->
        Glue.adapter g = Some a ->
        (debug a = true -> serializable e' = false ->
         raised r.1 = Some (SendThrew CannotSerialize) /\
         requests r.2 = requests w /\
         glue_after r.1 = g) /\
        (debug a = false \/ serializable e' = true ->
         token a <> ""%string -> pendingEvents a = [] ->
         raised r.1 = None /\
         Glue.adapter (glue_after r.1) =
           Some (set_pendingEvents [] (set_flushTimeout None a)) /\
         (serializable e' = true ->
          requests r.2 = requests w ++ [ingest_request a [e']] /\
          unawaited r.1 = [[event b]]) /\
         (serializable e' = false ->
          requests r.2 = requests w /\ unawaited r.1 = []))).
Proof.
  intros He Hcfg w1 r.
  assert (H1 : heap w1 !! event b =
               Some (set_error (Some (error_info err false))
                       (set_outcome Error e))).
  { subst w1. apply (withError_lookup b err None w e He). }
  pose proof (withStatusCode_lookup b statusCode w1 _ H1) as H2.
  set (w2 := exec (withStatusCode b statusCode) w1) in *.
  assert (H3 : exists e',
             heap (exec (build b) w2) !! event b = Some e' /\
             error e' = Some (error_info err false) /\
             status_code (request e') = statusCode /\
             outcome e' = outcome_after_status statusCode Error).
  { rewrite build_lookup, lookup_alter_eq, H2. eexists. split; [reflexivity |].
    repeat split. }
  destruct H3 as (e' & He' & Herr & Hst & Hout).
  assert (Hreq : requests (exec (build b) w2) = requests w).
  { change (requests (exec (build b) w2)) with (requests w2). subst w2.
    rewrite (proj1 (run_op_transport b None (OpWithStatusCode statusCode) w1)
             : requests (exec (withStatusCode b statusCode) w1) = requests w1).
    reflexivity. }
  subst r. rewrite on_end_eq. cbv zeta. fold w2. rewrite He'.
  exists e'.
  assert (Hcases :
            (400 <= statusCode <= 499 -> outcome e' = Warning) /\
            (statusCode < 400 \/ 500 <= statusCode -> outcome e' = Error)).
  { rewrite Hout. unfold outcome_after_status.
    destruct (Z.leb_spec 500 statusCode), (Z.leb_spec 400 statusCode);
      split; intros; try lia; reflexivity. }
  destruct Hcases as [H4 H5].
  assert (Hkeep : WideEventConfig.shouldSample cfg = None ->
                  shouldKeep g e' random = inr true).
  { intros Hsample. apply (default_sampler_keeps_errors g cfg _ _ Hcfg Hsample).
    right. rewrite Herr. eauto. }
  destruct (shouldKeep g e' random) as [x|keep] eqn:Hk.
  - cbn [fst snd]. split; [exact He' |].
    split; [exact Herr |]. split; [exact Hst |]. split; [exact H4 |].
    split; [exact H5 |]. split; [exact Hkeep |]. split.
    + intros x' Hx. injection Hx as <-. now repeat split.
    + intros a Hx. discriminate Hx.
  - assert (Hheap : forall a,
               heap (match (send a (event b) (exec (build b) w2)).1 with
                     | inl err0 =>
                         ({| glue_after := g; unawaited := [];
                             raised := Some (SendThrew err0) |},
                          (send a (event b) (exec (build b) w2)).2)
                     | inr r1 =>
                         ({| glue_after :=
                               {| Glue.adapter :=
                                    Some (flush_begin r1.1
                                            (send a (event b)
                                               (exec (build b) w2)).2).1.1;
                                  Glue.globalConfig := Glue.globalConfig g |};
                             unawaited :=
                               option_list r1.2
                                 ++ option_list
                                      (flush_begin r1.1
                                         (send a (event b)
                                            (exec (build b) w2)).2).1.2;
                             raised := None |},
                          (flush_begin r1.1
                             (send a (event b) (exec (build b) w2)).2).2)
                     end).2 = heap (exec (build b) w2)).
    { intros a. pose proof (send_heap a (event b) (exec (build b) w2)) as Hh.
      destruct ((send a (event b) (exec (build b) w2)).1) as [err0|r1];
        cbn [snd]; [exact Hh |].
      now rewrite (proj1 (proj2 (proj2 (proj2 (flush_begin_spec _ _))))). }
    assert (Hlookup :
              heap (match keep, Glue.adapter g with
                    | true, Some a =>
                        match (send a (event b) (exec (build b) w2)).1 with
                        | inl err0 =>
                            ({| glue_after := g; unawaited := [];
                                raised := Some (SendThrew err0) |},
                             (send a (event b) (exec (build b) w2)).2)
                        | inr r1 =>
                            ({| glue_after :=
                                  {| Glue.adapter :=
                                       Some (flush_begin r1.1
                                               (send a (event b)
                                                  (exec (build b) w2)).2).1.1;
                                     Glue.globalConfig := Glue.globalConfig g |};
                                unawaited :=
                                  option_list r1.2
                                    ++ option_list
                                         (flush_begin r1.1
                                            (send a (event b)
                                               (exec (build b) w2)).2).1.2;
                                raised := None |},
                             (flush_begin r1.1
                                (send a (event b) (exec (build b) w2)).2).2)
                        end
                    | _, _ =>
                        ({| glue_after := g; unawaited := []; raised := None |},
                         exec (build b) w2)
                    end).2 !! event b = Some e').
    { destruct keep; [| exact He'].
      destruct (Glue.adapter g) as [a|]; [| exact He'].
      now rewrite Hheap. }
    split; [exact Hlookup |].
    split; [exact Herr |]. split; [exact Hst |]. split; [exact H4 |].
    split; [exact H5 |]. split; [exact Hkeep |]. split.
    + intros x Hx. discriminate Hx.
    + intros a Hx Ha. injection Hx as ->. rewrite Ha. split.
      * intros Hd Hs. rewrite (send_throws _ _ _ _ He' Hd Hs). cbn [fst snd].
        now repeat split.
      * intros Hok Htok Hq.
        destruct (send_then_flush_begin a (event b) (exec (build b) w2) e'
                    He' Hok Htok Hq)
          as (a1 & w3 & Hs & Ha2 & Hb2 & Hr2 & _).
        rewrite Hs. cbn [fst snd raised glue_after unawaited Glue.adapter].
        rewrite Ha2, Hb2, Hr2, Hreq.
        split; [reflexivity |]. split; [reflexivity |].
        split; intros Hser; rewrite Hser; cbn [option_list app];
          rewrite ?app_nil_r; split; reflexivity.
Qed.

Lemma express_captured_error_is_shipped_on_end_witness :
  exists e',
    heap (Express.on_end demo_builder demo_glue 400 (1 # 2)%Q
            (exec (Express.wideEventErrorMiddleware (Some (event demo_builder))
                     demo_error) demo_started)).2 !! event demo_builder
      = Some e' /\
    outcome e' = Warning /\
    message <$> error e' = Some "db timeout"%string /\
    shouldKeep demo_glue e' (1 # 2)%Q = inr true.
Proof.
  destruct (express_captured_error_is_shipped_on_end demo_builder demo_glue
              demo_config demo_error 400 (1 # 2)%Q demo_started
              demo_base_event eq_refl eq_refl)
    as (e' & Hl & Herr & _ & H4 & _ & Hkeep & _).
  exists e'. split; [exact Hl |]. split; [apply H4; lia |].
  rewrite Herr. split; [reflexivity |]. apply Hkeep. reflexivity.
Defined.

(** ** Composing wrappers *)

(** X26: [compose] applies the wrappers right to left, so the first one
    listed ends up outermost: composing nothing is the identity, composing
    a concatenation is composing the two parts one after the other, and
    [compose(f, g)(h)] is [f(g(h))]. *)
Theorem compose_applies_wrappers_right_to_left
    {H : Type} (ws1 ws2 : list (H -> H)) (f g : H -> H) (h : H) :
  Next.compose [] h = h /\
  Next.compose (ws1 ++ ws2) h = Next.compose ws1 (Next.compose ws2 h) /\
  Next.compose [f; g] h = f (g h) /\
  Next.compose (ws1 ++ [f]) h = Next.compose ws1 (f h).
Proof.
  unfold Next.compose. rewrite !foldr_app. repeat split.
Qed.

(** ** Handlers with built-in enrichment *)

Lemma newWideEventBuilder_business cfg w :
  field business (event (newWideEventBuilder cfg w).1)
    (newWideEventBuilder cfg w).2 = Some None.
Proof.
  unfold newWideEventBuilder, createBaseEvent, alloc. to_heap.
  now rewrite lookup_insert_eq.
Qed.

Lemma omap_business_input_app ops1 ops2 :
  omap business_input (ops1 ++ ops2) =
  omap business_input ops1 ++ omap business_input ops2.
Proof. apply omap_app. Qed.

(** X27: a Next.js handler made with [createHandler(enrichment, handler)]
    enriches first and runs the handler after: on the request's event every
    [business] key has the value of the last [enrichEvent] call of the
    handler that mentions it, and the value of the built-in enrichment when
    the handler mentions it nowhere. *)
Theorem createHandler_enrichment_is_overridden_by_the_handler
    (enrichment : EnrichmentData.t) (h : Next.Handler) (req : WebRequest.t)
    (g : Glue.t) (cfg : WideEventConfig.t) (random : Q)
    (answer : FetchResult) (w : World) :
  Glue.globalConfig g = Some cfg ->
  let r := Next.withWideEvents (Next.createHandler enrichment h) req g random
             answer w in
  exists l e,
    heap w !! l = None /\
    heap r.2 !! l = Some e /\
    forall k,
      spread (business e) !! k =
      last_write k (spread (EnrichmentData.business enrichment))
        (omap business_input (call_op <$> Next.calls h)).
Proof.
  intros Hcfg r. subst r.
  rewrite (next_withWideEvents_eq _ req g cfg random answer w Hcfg). cbv zeta.
  destruct (observe_and_finish cfg g
              (next_observed (Next.createHandler enrichment h) req)
              random answer w)
    as (e2 & He2 & Hfresh & Hl & _).
  cbn [fst snd].
  eexists _, _. split; [exact Hfresh |]. split; [exact Hl |].
  intros k. unfold set_request; cbn [business].
  pose proof (newWideEventBuilder_business cfg w) as H0. unfold field in H0.
  destruct (heap (newWideEventBuilder cfg w).2
              !! event (newWideEventBuilder cfg w).1) as [e0|] eqn:He0;
    [| discriminate H0].
  injection H0 as H0.
  destruct (run_ops_merge (newWideEventBuilder cfg w).1
              (next_observed (Next.createHandler enrichment h) req)
              (newWideEventBuilder cfg w).2 e0 He0)
    as (e2' & He2' & Hb & _).
  rewrite He2 in He2'. injection He2' as <-.
  rewrite Hb, H0. unfold next_observed, Next.createHandler.
  cbn [Next.calls Next.ending fmap list_fmap].
  change (omap business_input (OpFromRequest req None :: ?ops))
    with (omap business_input ops).
  change (call_op (CallEnrichEvent enrichment)) with (OpEnrichEvent enrichment).
  rewrite omap_business_input_app.
  assert (Hlast : omap business_input
                    [match Next.ending h with
                     | Next.Responds status => OpWithStatusCode status
                     | Next.Throws t => OpWithError (as_error t) None
                     end] = []) by now destruct (Next.ending h).
  rewrite Hlast, app_nil_r.
  rewrite <- !spread_all_lookup.
  change (omap business_input (OpEnrichEvent enrichment :: ?ops))
    with (match EnrichmentData.business enrichment with
          | Some m => m :: omap business_input ops
          | None => omap business_input ops
          end).
  destruct (EnrichmentData.business enrichment) as [m|]; [| reflexivity].
  unfold spread_all. simpl. now rewrite (right_id_L ∅ (∪)).
Qed.

Lemma createHandler_enrichment_is_overridden_by_the_handler_witness :
  exists l e,
    heap (Next.withWideEvents
            (Next.createHandler demo_enrichment
               {| Next.calls :=
                    [CallEnrichEvent
                       {| EnrichmentData.user := None;
                          EnrichmentData.business :=
                            Some {[ "dealId" := JStr "deal_999" ]};
                          EnrichmentData.performance := None;
                          EnrichmentData.feature_flags := None |}];
                  Next.ending := Next.Responds 200 |})
            demo_request demo_glue (1 # 2)%Q NetworkError demo_world).2 !! l
      = Some e /\
    spread (business e) !! "dealId" = Some (JStr "deal_999") /\
    spread (business e) !! "action" = Some (JStr "quote_sent").
Proof.
  destruct (createHandler_enrichment_is_overridden_by_the_handler
              demo_enrichment
              {| Next.calls :=
                   [CallEnrichEvent
                      {| EnrichmentData.user := None;
                         EnrichmentData.business :=
                           Some {[ "dealId" := JStr "deal_999" ]};
                         EnrichmentData.performance := None;
                         EnrichmentData.feature_flags := None |}];
                 Next.ending := Next.Responds 200 |}
              demo_request demo_glue demo_config (1 # 2)%Q NetworkError
              demo_world eq_refl)
    as (l & e & _ & Hl & Hb).
  exists l, e. split; [exact Hl |]. rewrite !Hb.
  split; vm_compute; reflexivity.
Defined.
